(** * aish: completion and history ranking core

    A shallow embedding of the tokenizer ([BaseCompletionBackend.tokenize]),
    the reference fuzzy scorer ([JSFuzzySearcher]), the history providers
    and the [HistoryManager], and the [CompletionManager] with its
    time-to-live cache, followed by the properties established about them.

    Conventions of the embedding.
    - A JavaScript string is a [string]; its characters are [ascii] code
      units, and [toLowerCase], [trim] and the white-space test of the
      readline act on the ASCII range: the statements that depend on them
      are about strings of ASCII characters.
    - A JavaScript number that the code uses as a count, an index, a limit
      or an epoch timestamp is a [Z] ([parseInt] included); a fuzzy score
      is an exact rational [Q] (the scorer's constants 0.5, 0.2, 0.3, 0.8,
      0.9 are the fractions they denote, and rounding of IEEE doubles is
      not modelled: nothing is stated about the order of two candidates
      whose scores are equal).
    - [null] and [undefined] are [None] where the code does not tell them
      apart; the truthiness tests of the source ([x || d], [a && b],
      [if (x)]) are written out with [truthyZ] and [truthyS]. An object
      that the code copies key by key (the [metadata] argument of [add])
      and an option that it compares with [undefined] are kept as JS
      values ([JS.Object], [JS.Value]).
    - [Array.prototype.sort] is a stable insertion sort driven by the sign
      of the comparator. Where the comparator is a consistent ordering of
      the elements sorted this is the list every stable sort returns, and
      ECMAScript requires the sort to be stable. The comparators of the
      history code take an entry without a timestamp to be equal to every
      other entry, which is not consistent as soon as two different
      timestamps are present as well; ECMAScript then leaves the order to
      the engine. The general statements about [mergeResults] are therefore
      made for inputs on which the comparator is consistent, or hold of any
      order of the sorted list.
    - Mutable objects are records threaded through the operations; a JS
      [Map] used as a dictionary is a [gmap], a [Map] whose iteration order
      is observed is an association list in insertion order. *)

From Stdlib Require Import ZArith QArith Qminmax String Ascii List Lia Lqa Bool.
From Stdlib Require Import Sorted Permutation.
From stdpp Require Import base gmap strings list pretty.
Import ListNotations.

Open Scope Z_scope.

(** ** JavaScript primitives used by the sources *)

Module JS.

(** A number is falsy when it is [0] (or absent), a string when it is
    empty (or absent). *)
Definition truthyZ (x : option Z) : bool :=
  match x with
  | Some n => negb (n =? 0)
  | None => false
  end.

Definition truthyS (x : option string) : bool :=
  match x with
  | Some s => negb (String.eqb s "")
  | None => false
  end.

(** [x || d] on numbers and on strings. *)
Definition orZ (x : option Z) (d : Z) : Z :=
  match x with
  | Some n => if n =? 0 then d else n
  | None => d
  end.

Definition orS (x : option string) (d : string) : string :=
  match x with
  | Some s => if String.eqb s "" then d else s
  | None => d
  end.

(** [x !== false] for an optional boolean option of the configuration. *)
Definition notFalse (x : option bool) : bool :=
  match x with
  | Some false => false
  | _ => true
  end.

Definition isTrue (x : option bool) : bool :=
  match x with
  | Some true => true
  | _ => false
  end.

Definition len {A} (l : list A) : Z := Z.of_nat (List.length l).

(** The values that the history code keeps in an object: [null], a
    boolean, a number or a string; a property that is absent
    ([undefined]) is [None]. *)
Inductive Value :=
| VNull
| VBool (b : bool)
| VNum (n : Z)
| VStr (s : string).

(** An object: its own properties, in insertion order. *)
Definition Object := list (string * Value).

(** [o.k]. *)
Fixpoint getProp (k : string) (o : Object) : option Value :=
  match o with
  | [] => None
  | (k', v) :: rest => if String.eqb k' k then Some v else getProp k rest
  end.

(** [{...o, k: v}]: the property is overwritten where it stands, or
    added at the end. *)
Fixpoint setProp (k : string) (v : Value) (o : Object) : Object :=
  match o with
  | [] => [(k, v)]
  | (k', v') :: rest =>
      if String.eqb k' k then (k, v) :: rest else (k', v') :: setProp k v rest
  end.

Definition truthy (x : option Value) : bool :=
  match x with
  | Some (VBool b) => b
  | Some (VNum n) => negb (n =? 0)
  | Some (VStr s) => negb (String.eqb s "")
  | Some VNull | None => false
  end.

(** A property read as the number or the string it holds; [null] and
    [undefined] are [None]. *)
Definition numOf (x : option Value) : option Z :=
  match x with
  | Some (VNum n) => Some n
  | _ => None
  end.

Definition strOf (x : option Value) : option string :=
  match x with
  | Some (VStr s) => Some s
  | _ => None
  end.

(** [l.slice(start)] where [start] is the result of [ToNumber]; [None]
    is NaN, which [ToIntegerOrInfinity] maps to 0. *)
Definition sliceFrom {A} (start : option Z) (l : list A) : list A :=
  match start with
  | None => l
  | Some k =>
      if k <? 0 then skipn (Z.to_nat (Z.max 0 (len l + k))) l
      else skipn (Z.to_nat k) l
  end.

(** [l.slice(0, stop)] for an integer [stop]. *)
Definition sliceTo {A} (stop : Z) (l : list A) : list A :=
  if stop <? 0 then firstn (Z.to_nat (Z.max 0 (len l + stop))) l
  else firstn (Z.to_nat stop) l.

(** [Array.prototype.sort(cmp)]: [cmp a b] is the sign of the number the
    JavaScript comparator returns; [a] is moved behind [b] only when it
    is positive, so elements that compare equal keep their order. *)
Fixpoint insert {A} (cmp : A -> A -> comparison) (x : A) (l : list A) : list A :=
  match l with
  | [] => [x]
  | y :: l' =>
      match cmp x y with
      | Gt => y :: insert cmp x l'
      | _ => x :: l
      end
  end.

Fixpoint sort {A} (cmp : A -> A -> comparison) (l : list A) : list A :=
  match l with
  | [] => []
  | x :: l' => insert cmp x (sort cmp l')
  end.

(** *** Strings *)

Definition isUpper (c : ascii) : bool :=
  let n := nat_of_ascii c in (65 <=? n)%nat && (n <=? 90)%nat.

Definition lowerChar (c : ascii) : ascii :=
  if isUpper c then ascii_of_nat (nat_of_ascii c + 32) else c.

Fixpoint toLowerCase (s : string) : string :=
  match s with
  | EmptyString => EmptyString
  | String c s' => String (lowerChar c) (toLowerCase s')
  end.

Fixpoint startsWith (t q : string) : bool :=
  match q, t with
  | EmptyString, _ => true
  | String _ _, EmptyString => false
  | String a q', String b t' => Ascii.eqb a b && startsWith t' q'
  end.

(** [t.indexOf(q)]: the first index at which [q] occurs, [None] for -1. *)
Fixpoint indexOf (t q : string) : option nat :=
  if startsWith t q then Some 0%nat
  else match t with
       | EmptyString => None
       | String _ t' => option_map S (indexOf t' q)
       end.

Definition includes (t q : string) : bool :=
  match indexOf t q with
  | Some _ => true
  | None => false
  end.

Fixpoint lastChar (s : string) : option ascii :=
  match s with
  | EmptyString => None
  | String c EmptyString => Some c
  | String _ s' => lastChar s'
  end.

(** [s.endsWith(c)] for a one-character string [c]. *)
Definition endsWithChar (s : string) (c : ascii) : bool :=
  match lastChar s with
  | Some d => Ascii.eqb d c
  | None => false
  end.

(** White space removed by [trim], within the ASCII range. *)
Definition isSpace (c : ascii) : bool :=
  let n := nat_of_ascii c in
  (n =? 32)%nat || ((9 <=? n)%nat && (n <=? 13)%nat).

Fixpoint trimStart (s : string) : string :=
  match s with
  | EmptyString => EmptyString
  | String c s' => if isSpace c then trimStart s' else s
  end.

Fixpoint trimEnd (s : string) : string :=
  match s with
  | EmptyString => EmptyString
  | String c s' =>
      match trimEnd s' with
      | EmptyString => if isSpace c then EmptyString else String c EmptyString
      | r => String c r
      end
  end.

Definition trim (s : string) : string := trimEnd (trimStart s).

Definition nonEmpty (s : string) : bool := negb (String.eqb s "").

End JS.

(** ** The tokenizer: [BaseCompletionBackend.tokenize] *)

Module Tokenizer.

Definition backslash : ascii := "\"%char.
Definition dquote : ascii := "034"%char.
Definition squote : ascii := "'"%char.
Definition space : ascii := " "%char.
Definition tab : ascii := "009"%char.

(** The four local variables of the loop. *)
Record state := mkState {
  words : list string;
  current : string;
  inQuote : option ascii;
  escaped : bool
}.

Definition init : state := mkState [] "" None false.

Definition push (s : string) (c : ascii) : string := s +:+ String c "".

(** One iteration of the [for] loop on the character [char]. *)
Definition step (st : state) (char : ascii) : state :=
  if escaped st then
    mkState (words st) (push (current st) char) (inQuote st) false
  else if Ascii.eqb char backslash then
    mkState (words st) (push (current st) char) (inQuote st) true
  else
    match inQuote st with
    | Some q =>
        mkState (words st) (push (current st) char)
                (if Ascii.eqb char q then None else Some q) false
    | None =>
        if Ascii.eqb char dquote || Ascii.eqb char squote then
          mkState (words st) (push (current st) char) (Some char) false
        else if Ascii.eqb char space || Ascii.eqb char tab then
          if JS.nonEmpty (current st) then
            mkState (words st ++ [current st]) "" None false
          else st
        else
          mkState (words st) (push (current st) char) None false
    end.

Fixpoint scan (st : state) (line : string) : state :=
  match line with
  | EmptyString => st
  | String c rest => scan (step st c) rest
  end.

Definition finish (line : string) (st : state) : list string :=
  if JS.nonEmpty (current st) || JS.endsWithChar line space
  then words st ++ [current st]
  else words st.

Definition tokenize (line : string) : list string :=
  finish line (scan init line).

End Tokenizer.

(** ** The reference fuzzy scorer: [JSFuzzySearcher] *)

Module Fuzzy.

Open Scope Q_scope.

Definition ofNat (n : nat) : Q := inject_Z (Z.of_nat n).

(** The result of [calculateScore]: a score and the matched spans. *)
Record ScoreResult := mkScore {
  score : Q;
  matches : list (nat * nat)
}.

(** The local variables of the subsequence loop; [total] is the local
    [score] and [spans] the local [matches] of the source. *)
Record loopState := mkLoop {
  total : Q;
  spans : list (nat * nat);
  queryIndex : nat;
  targetIndex : nat;
  matchStart : option nat;
  consecutiveMatches : nat
}.

Definition loopInit : loopState := mkLoop 0 [] 0 0 None 0.

Definition isBoundary (c : option ascii) : bool :=
  match c with
  | Some d => Ascii.eqb d " " || Ascii.eqb d "_" || Ascii.eqb d "-"
  | None => false
  end.

Definition sameChar (a b : option ascii) : bool :=
  match a, b with
  | Some x, Some y => Ascii.eqb x y
  | None, None => true
  | _, _ => false
  end.

Definition loopCond (q t : string) (st : loopState) : bool :=
  (queryIndex st <? String.length q)%nat && (targetIndex st <? String.length t)%nat.

(** The body of the [while] loop, including the final [targetIndex++]. *)
Definition loopBody (q t : string) (st : loopState) : loopState :=
  if sameChar (String.get (queryIndex st) q) (String.get (targetIndex st) t) then
    let consecutive := S (consecutiveMatches st) in
    let s1 := total st + (1 + ofNat consecutive * (1 # 2)) in
    let s2 :=
      if (targetIndex st =? 0)%nat || isBoundary (String.get (targetIndex st - 1) t)
      then s1 + 2 else s1 in
    mkLoop s2 (spans st) (S (queryIndex st)) (S (targetIndex st))
           (match matchStart st with
            | None => Some (targetIndex st)
            | Some m => Some m
            end)
           consecutive
  else
    mkLoop (total st)
           (match matchStart st with
            | Some m => spans st ++ [(m, targetIndex st)]
            | None => spans st
            end)
           (queryIndex st) (S (targetIndex st)) None 0.

(** The [while] loop; every iteration increments [targetIndex], so
    [String.length t] iterations always suffice (see [loop_terminates]). *)
Fixpoint loop (fuel : nat) (q t : string) (st : loopState) : loopState :=
  match fuel with
  | O => st
  | S fuel' => if loopCond q t st then loop fuel' q t (loopBody q t st) else st
  end.

Definition calculateScore (query target : string) (caseInsensitive : bool) : ScoreResult :=
  let q := if caseInsensitive then JS.toLowerCase query else query in
  let t := if caseInsensitive then JS.toLowerCase target else target in
  if String.eqb q t then mkScore 1 [(0, String.length target)]%nat
  else if JS.startsWith t q then mkScore (9 # 10) [(0, String.length q)]%nat
  else match JS.indexOf t q with
  | Some index => mkScore (8 # 10) [(index, index + String.length q)]%nat
  | None =>
      let st := loop (String.length t) q t loopInit in
      let matches :=
        match matchStart st with
        | Some m => spans st ++ [(m, targetIndex st)]
        | None => spans st
        end in
      if (queryIndex st <? String.length q)%nat then mkScore 0 []
      else
        let maxScore := ofNat (String.length q) * 3 in
        let normalizedScore := Qmin (total st / maxScore) 1 in
        let lengthPenalty :=
          1 - (ofNat (String.length t) - ofNat (String.length q))
                / ofNat (String.length t) * (2 # 10) in
        mkScore (normalizedScore * lengthPenalty) matches
  end.

(** One entry of the array returned by [search]. *)
Record SearchResult (A : Type) := mkResult {
  item : A;
  resScore : Q;
  resMatches : list (nat * nat)
}.
Arguments mkResult {A}.
Arguments item {A}.
Arguments resScore {A}.
Arguments resMatches {A}.

(** The comparator [(a, b) => b.score - a.score]. *)
Definition byScore {A} (a b : SearchResult A) : comparison :=
  (resScore b - resScore a) ?= 0.

(** The [for] loop of [search] that scores each item and keeps those at
    or above the threshold. *)
Fixpoint collect {A} (target : A -> string) (query : string) (threshold : Q)
         (caseInsensitive : bool) (items : list A) : list (SearchResult A) :=
  match items with
  | [] => []
  | it :: rest =>
      let r := calculateScore query (target it) caseInsensitive in
      if Qle_bool threshold (score r)
      then mkResult it (score r) (matches r)
             :: collect target query threshold caseInsensitive rest
      else collect target query threshold caseInsensitive rest
  end.

(** [JSFuzzySearcher.search(items, query, {key, limit, threshold,
    caseInsensitive})]; [target] reads the searched key of an item. *)
Definition search {A} (target : A -> string) (items : list A) (query : string)
           (limit : Z) (threshold : Q) (caseInsensitive : bool)
  : list (SearchResult A) :=
  if negb (JS.nonEmpty query) then
    map (fun it => mkResult it 1 []) (JS.sliceTo limit items)
  else
    JS.sliceTo limit
      (JS.sort byScore (collect target query threshold caseInsensitive items)).

(** [FzfSearcher.search]: the helper process filters and orders the
    candidates ([helper] is its output, already parsed back); the score is
    synthesised from the rank. *)
Fixpoint rankFrom {A} (i : nat) (n : nat) (lines : list A) : list (SearchResult A) :=
  match lines with
  | [] => []
  | x :: rest => mkResult x (1 - ofNat i / ofNat n) [] :: rankFrom (S i) n rest
  end.

Definition fzfSearch {A} (helper : list A -> string -> list A)
           (items : list A) (query : string) (limit : Z) : list (SearchResult A) :=
  let lines := helper items query in
  rankFrom 0 (List.length lines)
           (firstn (Z.to_nat (Z.min (JS.len lines) limit)) lines).

(** [levenshteinDistance(str1, str2)]. The table [dp] is filled row by
    row; [nextRow] computes [dp[i][1..]] from the row above ([diag] and [up]
    are [dp[i-1][j-1]] and [dp[i-1][j]]) and the entry to the left. *)
Fixpoint nextRow (c1 : ascii) (str2 : string) (above : list nat) (left : nat)
  : list nat :=
  match str2, above with
  | String c2 rest, diag :: ((up :: _) as above') =>
      let v := if Ascii.eqb c1 c2 then diag
               else (1 + Nat.min (Nat.min up left) diag)%nat in
      v :: nextRow c1 rest above' v
  | _, _ => []
  end.

Fixpoint rowsFrom (i : nat) (str1 str2 : string) (above : list nat) : list nat :=
  match str1 with
  | EmptyString => above
  | String c1 rest => rowsFrom (S i) rest str2 (S i :: nextRow c1 str2 above (S i))
  end.

Definition levenshteinDistance (str1 str2 : string) : nat :=
  List.last (rowsFrom 0 str1 str2 (seq 0 (S (String.length str2)))) 0%nat.

(** [LevenshteinFuzzySearcher.calculateScore], the alternative scorer;
    [None] is the NaN of [0 / 0] on two empty strings. *)
Definition levenshteinScore (query target : string) (caseInsensitive : bool)
           (maxDistance : nat) : option Q :=
  let q := if caseInsensitive then JS.toLowerCase query else query in
  let t := if caseInsensitive then JS.toLowerCase target else target in
  let distance := levenshteinDistance q t in
  if (maxDistance <? distance)%nat then Some 0
  else
    let longest := Nat.max (String.length q) (String.length t) in
    if (longest =? 0)%nat then None
    else Some (1 - ofNat distance / ofNat longest).

Inductive Searcher := FzfSearcher | JSFuzzySearcher.

(** [FuzzySearcherFactory.getSearcher]: the helper is tried when the
    preference is the string 'fzf' or is [undefined], and used when it is
    available; any other preference, [null] included, selects the
    reference searcher. *)
Definition getSearcher (preference : option JS.Value) (fzfAvailable : bool) : Searcher :=
  match preference with
  | None => if fzfAvailable then FzfSearcher else JSFuzzySearcher
  | Some (JS.VStr p) =>
      if String.eqb p "fzf" && fzfAvailable then FzfSearcher else JSFuzzySearcher
  | Some _ => JSFuzzySearcher
  end.

End Fuzzy.

(** ** History entries, providers and the [HistoryManager] *)

Module History.

Record HistoryEntry := mkEntry {
  command : string;
  timestamp : option Z;
  exitCode : option Z;
  cwd : option string;
  duration : option Z;
  metadata : JS.Object
}.

(** The second argument of a provider's [search] as a caller may pass
    it: nothing, a number, or the options object [{limit, deduplicate}]. *)
Inductive SearchArg :=
| ArgUndefined
| ArgNumber (n : Z)
| ArgOptions (limit : Z) (deduplicate : bool).

(** [ToNumber] of a value bound to a parameter with a numeric default;
    an object converts to NaN, which is [None]. *)
Definition toNumber (maxResults : Z) (arg : SearchArg) : option Z :=
  match arg with
  | ArgUndefined => Some maxResults
  | ArgNumber n => Some n
  | ArgOptions _ _ => None
  end.

Definition negate (x : option Z) : option Z := option_map Z.opp x.

(** [n < x]; every comparison with NaN is false. *)
Definition ltNum (n : Z) (x : option Z) : bool :=
  match x with
  | Some l => n <? l
  | None => false
  end.

(** The file system as the providers see it: the entries that a
    provider's parser reads from the file at a path; an absent path is an
    unreadable file. *)
Abbreviation FileSystem := (gmap string (list HistoryEntry)).

Definition matchesQuery (lowerQuery : string) (item : HistoryEntry) : bool :=
  JS.includes (JS.toLowerCase (command item)) lowerQuery.

(** The search loop of the Bash and Fish providers, newest entry first:
    [for (i = length - 1; i >= 0 && results.length < limit; i--)]. *)
Fixpoint searchLoop (lowerQuery : string) (limit : option Z)
         (newestFirst results : list HistoryEntry) : list HistoryEntry :=
  match newestFirst with
  | [] => results
  | item :: rest =>
      if ltNum (JS.len results) limit then
        if matchesQuery lowerQuery item
        then searchLoop lowerQuery limit rest (results ++ [item])
        else searchLoop lowerQuery limit rest results
      else results
  end.

(** The same loop in the owned provider, which also skips commands
    already returned. *)
Fixpoint searchLoopSeen (lowerQuery : string) (limit : option Z)
         (newestFirst results : list HistoryEntry) (seen : gset string)
  : list HistoryEntry :=
  match newestFirst with
  | [] => results
  | item :: rest =>
      if ltNum (JS.len results) limit then
        if bool_decide (command item ∈ seen)
        then searchLoopSeen lowerQuery limit rest results seen
        else if matchesQuery lowerQuery item
        then searchLoopSeen lowerQuery limit rest (results ++ [item])
                            ({[command item]} ∪ seen)
        else searchLoopSeen lowerQuery limit rest results seen
      else results
  end.

(** [search(query, limit = this.maxResults)] of the Bash, Fish and owned
    providers, once the history is loaded. *)
Definition searchLoaded (history : list HistoryEntry) (maxResults : Z)
           (query : string) (arg : SearchArg) : list HistoryEntry :=
  let limit := toNumber maxResults arg in
  if negb (JS.nonEmpty query) then rev (JS.sliceFrom (negate limit) history)
  else searchLoop (JS.toLowerCase query) limit (rev history) [].

Definition searchLoadedSeen (history : list HistoryEntry) (maxResults : Z)
           (query : string) (arg : SearchArg) : list HistoryEntry :=
  let limit := toNumber maxResults arg in
  if negb (JS.nonEmpty query) then rev (JS.sliceFrom (negate limit) history)
  else searchLoopSeen (JS.toLowerCase query) limit (rev history) [] ∅.

(** *** Bash and Fish providers *)

Record ShellProvider := mkShell {
  historyFile : string;
  maxResults : Z;
  history : list HistoryEntry;
  loaded : bool
}.

Definition readFile (fs : FileSystem) (path : string) : list HistoryEntry :=
  match fs !! path with
  | Some entries => entries
  | None => []
  end.

(** [BashHistoryProvider.loadHistory(forceReload)]. *)
Definition bashLoad (fs : FileSystem) (forceReload : bool) (p : ShellProvider)
  : ShellProvider :=
  if loaded p && negb forceReload then p
  else mkShell (historyFile p) (maxResults p) (readFile fs (historyFile p)) true.

Definition bashSearch (fs : FileSystem) (p : ShellProvider) (query : string)
           (arg : SearchArg) : list HistoryEntry * ShellProvider :=
  let p' := bashLoad fs true p in
  (searchLoaded (history p') (maxResults p') query arg, p').

(** The comparator of the Fish loader: ascending by timestamp when both
    timestamps are truthy, otherwise equal. *)
Definition oldestFirst (a b : HistoryEntry) : comparison :=
  if JS.truthyZ (timestamp a) && JS.truthyZ (timestamp b)
  then (JS.orZ (timestamp a) 0 - JS.orZ (timestamp b) 0) ?= 0
  else Eq.

Definition fishLoad (fs : FileSystem) (p : ShellProvider) : ShellProvider :=
  if loaded p then p
  else mkShell (historyFile p) (maxResults p)
               (JS.sort oldestFirst (readFile fs (historyFile p))) true.

Definition fishSearch (fs : FileSystem) (p : ShellProvider) (query : string)
           (arg : SearchArg) : list HistoryEntry * ShellProvider :=
  let p' := fishLoad fs p in
  (searchLoaded (history p') (maxResults p') query arg, p').

(** The [metadata] argument of [add]: an object, of which the providers
    read [exitCode] and [duration] (numbers), [cwd] (a string) and
    [isCorrection], and which they copy whole into the entry. *)
Definition Metadata := JS.Object.

Definition metaExitCode (m : Metadata) : option Z := JS.numOf (JS.getProp "exitCode" m).
Definition metaCwd (m : Metadata) : option string := JS.strOf (JS.getProp "cwd" m).
Definition metaDuration (m : Metadata) : option Z := JS.numOf (JS.getProp "duration" m).
Definition isCorrection (m : Metadata) : bool := JS.truthy (JS.getProp "isCorrection" m).

(** The object literal that holds the given fields, in this order,
    followed by the properties of [other]; a field that is not given, and
    [isCorrection] when it is [false], is left out. *)
Definition mkMeta (exitCode : option Z) (cwd : option string) (duration : option Z)
           (correction : bool) (other : JS.Object) : Metadata :=
  match exitCode with Some n => [("exitCode", JS.VNum n)] | None => [] end
  ++ match cwd with Some d => [("cwd", JS.VStr d)] | None => [] end
  ++ match duration with Some n => [("duration", JS.VNum n)] | None => [] end
  ++ (if correction then [("isCorrection", JS.VBool true)] else [])
  ++ other.

Definition orNullZ (x : option Z) : option Z :=
  if JS.truthyZ x then x else None.

(** [add] of the Bash and Fish providers changes the in-memory list only;
    the manager never calls it. *)
Definition pushEntry (tag : string) (now : Z) (processCwd : string)
           (command : string) (m : Metadata) (p : ShellProvider) : ShellProvider :=
  mkShell (historyFile p) (maxResults p)
          (history p ++
             [mkEntry command (Some now) (orNullZ (metaExitCode m))
                      (Some (JS.orS (metaCwd m) processCwd))
                      (orNullZ (metaDuration m))
                      (JS.setProp "source" (JS.VStr tag) m)])
          (loaded p).

Definition bashAdd (fs : FileSystem) (now : Z) (processCwd : string)
           (command : string) (m : Metadata) (p : ShellProvider) : ShellProvider :=
  pushEntry "bash" now processCwd command m (bashLoad fs false p).

Definition fishAdd (fs : FileSystem) (now : Z) (processCwd : string)
           (command : string) (m : Metadata) (p : ShellProvider) : ShellProvider :=
  pushEntry "fish" now processCwd command m (fishLoad fs p).

(** *** Zsh provider *)

Record ZshProvider := mkZsh {
  zshFile : string;
  zshMaxResults : Z;
  zshHistory : list HistoryEntry;
  deduplicatedHistory : list HistoryEntry;
  zshLoaded : bool
}.

(** [deduplicateHistory]: newest to oldest, keeping the first sighting of
    each trimmed command, prepended so that the order is preserved. *)
Fixpoint dedupNewestFirst (newestFirst : list HistoryEntry) (seen : gset string)
         (deduplicated : list HistoryEntry) : list HistoryEntry :=
  match newestFirst with
  | [] => deduplicated
  | item :: rest =>
      let c := JS.trim (command item) in
      if bool_decide (c ∈ seen) then dedupNewestFirst rest seen deduplicated
      else dedupNewestFirst rest ({[c]} ∪ seen) (item :: deduplicated)
  end.

Definition deduplicateHistory (h : list HistoryEntry) : list HistoryEntry :=
  dedupNewestFirst (rev h) ∅ [].

Definition zshLoad (fs : FileSystem) (forceReload : bool) (p : ZshProvider)
  : ZshProvider :=
  if zshLoaded p && negb forceReload then p
  else
    let h := readFile fs (zshFile p) in
    mkZsh (zshFile p) (zshMaxResults p) h (deduplicateHistory h) true.

(** [search(query, options = {})] with
    [{ deduplicate = true, limit = this.maxResults } = options]. *)
Definition zshSearch (fs : FileSystem) (p : ZshProvider) (query : string)
           (arg : SearchArg) : list HistoryEntry * ZshProvider :=
  let p' := zshLoad fs true p in
  let '(deduplicate, limit) :=
    match arg with
    | ArgOptions l d => (d, l)
    | _ => (true, zshMaxResults p')
    end in
  let searchArray := if deduplicate then deduplicatedHistory p' else zshHistory p' in
  if negb (JS.nonEmpty query)
  then (rev (JS.sliceFrom (Some (- limit)) searchArray), p')
  else (searchLoop (JS.toLowerCase query) (Some limit) (rev searchArray) [], p').

(** *** The owned store: [AishHistoryProvider] *)

Record AishProvider := mkAish {
  aishFile : string;
  aishMaxResults : Z;
  maxEntries : Z;
  saveCorrections : bool;
  aishHistory : list HistoryEntry;
  aishLoaded : bool;
  saveDebounceTimer : bool
}.

Definition setHistory (h : list HistoryEntry) (ld timer : bool) (p : AishProvider)
  : AishProvider :=
  mkAish (aishFile p) (aishMaxResults p) (maxEntries p) (saveCorrections p)
         h ld timer.

(** [h.slice(-maxEntries)] when [h] is longer than [maxEntries]. *)
Definition trimToMax (maxEntries : Z) (h : list HistoryEntry) : list HistoryEntry :=
  if maxEntries <? JS.len h then JS.sliceFrom (Some (- maxEntries)) h else h.

Definition aishLoad (fs : FileSystem) (p : AishProvider) : AishProvider :=
  if aishLoaded p then p
  else
    match fs !! aishFile p with
    | Some entries =>
        setHistory (trimToMax (maxEntries p) entries) true (saveDebounceTimer p) p
    | None => setHistory [] true (saveDebounceTimer p) p
    end.

Definition aishSearch (fs : FileSystem) (p : AishProvider) (query : string)
           (arg : SearchArg) : list HistoryEntry * AishProvider :=
  let p' := aishLoad fs p in
  (searchLoadedSeen (aishHistory p') (aishMaxResults p') query arg, p').

Definition lastCommandIs (h : list HistoryEntry) (c : string) : bool :=
  match last h with
  | Some e => String.eqb (command e) c
  | None => false
  end.

(** The entry that [AishHistoryProvider.add] builds. *)
Definition newEntry (now : Z) (processCwd : string) (c : string) (m : Metadata)
  : HistoryEntry :=
  mkEntry c (Some now) (metaExitCode m) (Some (JS.orS (metaCwd m) processCwd))
          (metaDuration m) (JS.setProp "source" (JS.VStr "aish") m).

(** [AishHistoryProvider.add(command, metadata)]; the write to the file is
    only scheduled, by arming the debounce timer. *)
Definition aishAdd (fs : FileSystem) (now : Z) (processCwd : string)
           (c : string) (m : Metadata) (p : AishProvider) : AishProvider :=
  let p' := aishLoad fs p in
  if lastCommandIs (aishHistory p') c then p'
  else if negb (saveCorrections p') && isCorrection m then p'
  else
    setHistory (aishHistory p' ++ [newEntry now processCwd c m]) true true p'.

(** What [formatHistoryEntry] writes for an entry and the parser reads
    back: a missing timestamp or directory is filled in at save time. *)
Definition formatHistoryEntry (now : Z) (processCwd : string) (e : HistoryEntry)
  : HistoryEntry :=
  mkEntry (command e)
          (Some (JS.orZ (timestamp e) now))
          (orNullZ (exitCode e))
          (Some (JS.orS (cwd e) processCwd))
          (orNullZ (duration e))
          (metadata e).

(** [saveHistory], run when the debounce timer fires. *)
Definition saveHistory (now : Z) (processCwd : string)
           (fs : FileSystem) (p : AishProvider) : FileSystem * AishProvider :=
  let h := trimToMax (maxEntries p) (aishHistory p) in
  (<[aishFile p := map (formatHistoryEntry now processCwd) h]> fs,
   setHistory h (aishLoaded p) false p).

End History.

Module HistoryManager.

Import History.

Inductive Provider :=
| Aish (p : AishProvider)
| Bash (p : ShellProvider)
| Zsh (p : ZshProvider)
| Fish (p : ShellProvider).

(** The configuration keys the history code reads. *)
Record Config := mkConfig {
  historyMode : option string;            (* history.mode *)
  shellDefault : option string;           (* shell.default *)
  searchMaxResults : option Z;            (* history.search.max_results *)
  searchDeduplicate : option bool;        (* history.search.deduplicate *)
  providerMaxResults : option Z;          (* max_results *)
  historyMaxEntries : option Z;           (* history.max_entries *)
  historySaveCorrections : option bool    (* history.save_corrections *)
}.

(** What the process environment contributes: [SHELL], the working
    directory, and the history file each provider's constructor resolves. *)
Record Env := mkEnv {
  envShell : option string;
  processCwd : string;
  aishPath : string;
  bashPath : string;
  zshPath : string;
  fishPath : string
}.

Record Manager := mkManager {
  config : Config;
  mode : string;
  providers : list (string * Provider);
  currentShell : option string;
  initialized : bool
}.

Definition new (cfg : Config) : Manager :=
  mkManager cfg (JS.orS (historyMode cfg) "aish") [] None false.

(** [Map.get] and [Map.set] on an insertion-ordered map. *)
Fixpoint mapGet {V} (k : string) (m : list (string * V)) : option V :=
  match m with
  | [] => None
  | (k', v) :: rest => if String.eqb k' k then Some v else mapGet k rest
  end.

Fixpoint mapSet {V} (k : string) (v : V) (m : list (string * V)) : list (string * V) :=
  match m with
  | [] => [(k, v)]
  | (k', v') :: rest =>
      if String.eqb k' k then (k, v) :: rest else (k', v') :: mapSet k v rest
  end.

Definition mapHas {V} (k : option string) (m : list (string * V)) : bool :=
  match k with
  | Some k' => match mapGet k' m with Some _ => true | None => false end
  | None => false
  end.

(** [path.split('/').pop()]. *)
Fixpoint lastSegment (s acc : string) : string :=
  match s with
  | EmptyString => acc
  | String c s' =>
      if Ascii.eqb c "/" then lastSegment s' "" else lastSegment s' (acc +:+ String c "")
  end.

Definition providerMax (cfg : Config) : Z := JS.orZ (providerMaxResults cfg) 50.

Definition newAish (cfg : Config) (env : Env) : AishProvider :=
  mkAish (aishPath env) (providerMax cfg) (JS.orZ (historyMaxEntries cfg) 10000)
         (JS.notFalse (historySaveCorrections cfg)) [] false false.

(** [isAvailable]: the history file can be read. *)
Definition isAvailable (fs : FileSystem) (path : string) : bool :=
  match fs !! path with Some _ => true | None => false end.

Definition detectAndInitializeShellHistory (env : Env) (fs : FileSystem)
           (m : Manager) : Manager :=
  let shellPath := JS.orS (shellDefault (config m)) (JS.orS (envShell env) "/bin/bash") in
  let shellName := lastSegment shellPath "" in
  let candidate : option (string * string * Provider) :=
    if JS.includes shellName "zsh" then
      Some ("zsh", zshPath env,
            Zsh (mkZsh (zshPath env) (providerMax (config m)) [] [] false))%string
    else if JS.includes shellName "fish" then
      Some ("fish", fishPath env,
            Fish (mkShell (fishPath env) (providerMax (config m)) [] false))%string
    else if JS.includes shellName "bash" || JS.includes shellName "sh" then
      Some ("bash", bashPath env,
            Bash (mkShell (bashPath env) (providerMax (config m)) [] false))%string
    else None in
  match candidate with
  | Some (name, path, provider) =>
      mkManager (config m) (mode m)
                (if isAvailable fs path then mapSet name provider (providers m)
                 else providers m)
                (Some name) (initialized m)
  | None => m
  end.

Definition initialize (env : Env) (fs : FileSystem) (m : Manager) : Manager :=
  if initialized m then m
  else
    let m1 := mkManager (config m) (mode m)
                        (mapSet "aish" (Aish (newAish (config m) env)) (providers m))
                        (currentShell m) (initialized m) in
    let m2 := if negb (String.eqb (mode m1) "aish")
              then detectAndInitializeShellHistory env fs m1 else m1 in
    mkManager (config m2) (mode m2) (providers m2) (currentShell m2) true.

(** [provider.search(query, arg)], by the provider's own class. *)
Definition providerSearch (fs : FileSystem) (query : string) (arg : SearchArg)
           (p : Provider) : list HistoryEntry * Provider :=
  match p with
  | Aish a => let '(r, a') := aishSearch fs a query arg in (r, Aish a')
  | Bash b => let '(r, b') := bashSearch fs b query arg in (r, Bash b')
  | Zsh z => let '(r, z') := zshSearch fs z query arg in (r, Zsh z')
  | Fish f => let '(r, f') := fishSearch fs f query arg in (r, Fish f')
  end.

(** The comparator of [mergeResults]: most recent first when both
    timestamps are truthy, otherwise equal. *)
Definition newestFirst (a b : HistoryEntry) : comparison :=
  if JS.truthyZ (timestamp a) && JS.truthyZ (timestamp b)
  then (JS.orZ (timestamp b) 0 - JS.orZ (timestamp a) 0) ?= 0
  else Eq.

(** The [for] loop of [mergeResults]. *)
Fixpoint mergeLoop (deduplicate : bool) (limit : Z) (items : list HistoryEntry)
         (seen : gset string) (merged : list HistoryEntry) : list HistoryEntry :=
  match items with
  | [] => merged
  | item :: rest =>
      if deduplicate && bool_decide (command item ∈ seen)
      then mergeLoop deduplicate limit rest seen merged
      else
        let seen' := if deduplicate then {[command item]} ∪ seen else seen in
        let merged' := merged ++ [item] in
        if JS.len merged' >=? limit then merged'
        else mergeLoop deduplicate limit rest seen' merged'
  end.

(** [mergeResults(resultArrays, { deduplicate = true, limit = 10000 })]. *)
Definition mergeResults (resultArrays : list (list HistoryEntry))
           (deduplicate : option bool) (limit : option Z) : list HistoryEntry :=
  mergeLoop (default true deduplicate) (default 10000 limit)
            (JS.sort newestFirst (concat resultArrays)) ∅ [].

(** The options object of [HistoryManager.search]. *)
Record SearchOptions := mkOptions {
  optLimit : option Z;
  optDeduplicate : option bool
}.

(** Searching every provider in insertion order, collecting the result
    arrays and the providers as the searches leave them. *)
Fixpoint searchAll (fs : FileSystem) (query : string) (arg : SearchArg)
         (ps : list (string * Provider))
  : list (list HistoryEntry) * list (string * Provider) :=
  match ps with
  | [] => ([], [])
  | (name, p) :: rest =>
      let '(r, p') := providerSearch fs query arg p in
      let '(rs, rest') := searchAll fs query arg rest in
      (r :: rs, (name, p') :: rest')
  end.

Definition withProviders (ps : list (string * Provider)) (m : Manager) : Manager :=
  mkManager (config m) (mode m) ps (currentShell m) (initialized m).

Definition searchOne (fs : FileSystem) (query : string) (arg : SearchArg)
           (name : string) (m : Manager) : list HistoryEntry * Manager :=
  match mapGet name (providers m) with
  | Some p =>
      let '(r, p') := providerSearch fs query arg p in
      (r, withProviders (mapSet name p' (providers m)) m)
  | None => ([], m)
  end.

(** [HistoryManager.search(query, options)]. *)
Definition search (env : Env) (fs : FileSystem) (query : string)
           (options : SearchOptions) (m0 : Manager) : list HistoryEntry * Manager :=
  let m := initialize env fs m0 in
  let limit :=
    match optLimit options with
    | Some l => l
    | None => JS.orZ (searchMaxResults (config m)) 50
    end in
  let deduplicate :=
    match optDeduplicate options with
    | Some d => d
    | None => default true (searchDeduplicate (config m))
    end in
  let arg := ArgOptions limit deduplicate in
  if String.eqb (mode m) "unified" then
    let '(allResults, ps) := searchAll fs query arg (providers m) in
    (mergeResults allResults (Some deduplicate) (Some limit), withProviders ps m)
  else if String.eqb (mode m) "shell" && mapHas (currentShell m) (providers m) then
    searchOne fs query arg (default ""%string (currentShell m)) m
  else
    searchOne fs query arg "aish" m.

(** [HistoryManager.add(command, metadata)]: only the owned provider's
    [add] is called. *)
Definition add (env : Env) (fs : FileSystem) (now : Z) (c : string) (meta : Metadata)
           (m0 : Manager) : Manager :=
  let m := initialize env fs m0 in
  match mapGet "aish" (providers m) with
  | Some (Aish a) =>
      withProviders
        (mapSet "aish" (Aish (aishAdd fs now (processCwd env) c meta a)) (providers m)) m
  | _ => m
  end.

(** The debounce timer armed by [add] fires: the owned provider rewrites
    its own file. *)
Definition fireSaveTimer (env : Env) (now : Z) (fs : FileSystem) (m : Manager)
  : FileSystem * Manager :=
  match mapGet "aish" (providers m) with
  | Some (Aish a) =>
      if saveDebounceTimer a then
        let '(fs', a') := saveHistory now (processCwd env) fs a in
        (fs', withProviders (mapSet "aish" (Aish a') (providers m)) m)
      else (fs, m)
  | _ => (fs, m)
  end.

End HistoryManager.

(** ** The [CompletionManager] and its cache *)

Module CompletionManager.

Inductive CandidateMetadata :=
| NoMetadata
| HistoryMetadata (timestamp exitCode : option Z) (source : option JS.Value)
| OtherMetadata (fields : list (string * string)).

(** A completion item; [score] and [matches] are present only on the
    items returned by [applyFuzzySearch]. *)
Record Candidate := mkCandidate {
  text : string;
  display : string;
  description : string;
  type : string;
  priority : Z;
  metadata : CandidateMetadata;
  score : option Q;
  matches : option (list (nat * nat))
}.

(** The [context] argument of [getCompletions]. *)
Record Context := mkContext {
  command : option string;
  position : option Z;
  cwd : option string
}.

(** The context handed to the shell backend. *)
Record ShellContext := mkShellContext {
  base : Context;
  currentWord : string;
  isCommand : bool;
  isArgument : bool;
  isOption : bool;
  isPath : bool;
  isVariable : bool
}.

(** The [completion] section of the configuration. *)
Record Config := mkConfig {
  enabled : option bool;
  history_suggestions : option bool;
  fuzzy_search : option bool;
  fuzzy_backend : option JS.Value;
  max_suggestions : option Z;
  cache_ttl : option Z
}.

Record CacheEntry := mkCacheEntry {
  value : list Candidate;
  timestamp : Z
}.

(** The calls made to the sources of candidates, oldest first. *)
Inductive Event :=
| BackendCall (word : string)
| HistoryCall (word : string).

Record Manager := mkManager {
  config : Config;
  cache : gmap string CacheEntry;
  cacheTimeout : Z;
  log : list Event
}.

Definition new (cfg : Config) : Manager :=
  mkManager cfg ∅ (JS.orZ (cache_ttl cfg) 300000) [].

(** The template string
    [`${currentWord}:${command || ''}:${position || 0}:${cwd || ''}`]. *)
Definition cacheKey (currentWord : string) (ctx : Context) : string :=
  currentWord +:+ ":" +:+ JS.orS (command ctx) "" +:+ ":"
    +:+ pretty (JS.orZ (position ctx) 0) +:+ ":" +:+ JS.orS (cwd ctx) "".

Definition getCached (now : Z) (key : string) (m : Manager) : option (list Candidate) :=
  match cache m !! key with
  | Some cached =>
      if now - timestamp cached <? cacheTimeout m then Some (value cached) else None
  | None => None
  end.

Definition cacheResult (now : Z) (key : string) (v : list Candidate) (m : Manager)
  : list Candidate * Manager :=
  (v, mkManager (config m) (<[key := mkCacheEntry v now]> (cache m))
                (cacheTimeout m) (log m)).

Definition shellContext (word : string) (ctx : Context) : ShellContext :=
  mkShellContext ctx word
    (match position ctx with Some 0 => true | _ => false end
     || negb (JS.truthyS (command ctx)))
    (match position ctx with Some p => 0 <? p | None => false end)
    (JS.startsWith word "-")
    (JS.includes word "/" || JS.startsWith word "~")
    (JS.startsWith word "$").

(** The comparator of [sortCompletions]. *)
Definition byPriority (localeCompare : string -> string -> comparison)
           (a b : Candidate) : comparison :=
  if negb (priority a =? priority b) then (priority b - priority a) ?= 0
  else localeCompare (text a) (text b).

Definition sortCompletions (localeCompare : string -> string -> comparison)
           (completions : list Candidate) : list Candidate :=
  JS.sort (byPriority localeCompare) completions.

(** The items handed to the searcher: [{ original: c, searchText: c.text }]. *)
Record SearchItem := mkItem {
  original : Candidate;
  searchText : string
}.

Definition withScore (r : Fuzzy.SearchResult SearchItem) : Candidate :=
  let c := original (Fuzzy.item r) in
  mkCandidate (text c) (display c) (description c) (type c) (priority c)
              (metadata c) (Some (Fuzzy.resScore r)) (Some (Fuzzy.resMatches r)).

Section Sources.

(** The collaborators of the manager: the active shell backend's
    [getCompletionsForWord], the history manager's [search] with
    [{limit: 20}], the locale's string comparison, the clock-dependent
    [formatTimestamp], and the external ranking helper. *)
Variable backend : string -> ShellContext -> list Candidate.
Variable historySearch : string -> list History.HistoryEntry.
Variable localeCompare : string -> string -> comparison.
Variable formatTimestamp : Z -> string.
Variable fzfAvailable : bool.
Variable fzfHelper : list SearchItem -> string -> list SearchItem.

Fixpoint historyCandidates (index : Z) (items : list History.HistoryEntry)
  : list Candidate :=
  match items with
  | [] => []
  | it :: rest =>
      mkCandidate (History.command it) (History.command it)
        (if JS.truthyZ (History.timestamp it)
         then "history - " +:+ formatTimestamp (JS.orZ (History.timestamp it) 0)
         else "history")
        "history" (100 - index)
        (HistoryMetadata (History.timestamp it) (History.exitCode it)
           (JS.getProp "source" (History.metadata it)))
        None None
      :: historyCandidates (index + 1) rest
  end.

Definition getHistoryCompletions (input : string) : list Candidate :=
  historyCandidates 0 (historySearch input).

Definition applyFuzzySearch (cfg : Config) (completions : list Candidate)
           (query : string) : list Candidate :=
  let items := map (fun c => mkItem c (text c)) completions in
  let limit := JS.orZ (max_suggestions cfg) 10 in
  let results :=
    match Fuzzy.getSearcher (fuzzy_backend cfg) fzfAvailable with
    | Fuzzy.JSFuzzySearcher =>
        Fuzzy.search searchText items query limit (3 # 10) true
    | Fuzzy.FzfSearcher => Fuzzy.fzfSearch fzfHelper items query limit
    end in
  map withScore results.

(** Steps 1 and 2 of [getCompletions]: the raw candidates and the
    calls that produced them. *)
Definition gather (cfg : Config) (word : string) (ctx : Context)
  : list Candidate * list Event :=
  let '(shell, ev1) :=
    if JS.notFalse (enabled cfg)
    then (backend word (shellContext word ctx), [BackendCall word])
    else ([], []) in
  let '(hist, ev2) :=
    if JS.notFalse (history_suggestions cfg)
       && match position ctx with Some 0 => true | _ => false end
    then (getHistoryCompletions word, [HistoryCall word])
    else ([], []) in
  (shell ++ hist, ev1 ++ ev2).

(** Steps 3 and 4: fuzzy ranking, or the priority sort. *)
Definition rank (cfg : Config) (word : string) (completions : list Candidate)
  : list Candidate :=
  if JS.isTrue (fuzzy_search cfg) && JS.nonEmpty (JS.trim word)
  then applyFuzzySearch cfg completions word
  else sortCompletions localeCompare completions.

(** [getCompletions(input, context)]; [tRead] is the clock when the
    cache is consulted and [tStore] the clock when the result is stored. *)
Definition getCompletions (tRead tStore : Z) (input : string) (ctx : Context)
           (m : Manager) : list Candidate * Manager :=
  let key := cacheKey input ctx in
  match getCached tRead key m with
  | Some cached => (cached, m)
  | None =>
      let '(completions, events) := gather (config m) input ctx in
      let m' := mkManager (config m) (cache m) (cacheTimeout m) (log m ++ events) in
      cacheResult tStore key (rank (config m) input completions) m'
  end.

End Sources.

End CompletionManager.

(** ** Vocabulary of the statements *)

Module Spec.

(** The states the scanner can reach: the open quote, if any, is one of
    the two quote characters, and no empty word has been emitted. *)
Definition reachable (st : Tokenizer.state) : Prop :=
  (Tokenizer.inQuote st = None
   \/ Tokenizer.inQuote st = Some Tokenizer.dquote
   \/ Tokenizer.inQuote st = Some Tokenizer.squote)
  /\ Forall (fun w => JS.nonEmpty w = true) (Tokenizer.words st).

(** The character [c] does not occur in [s]. *)
Fixpoint freeOf (c : ascii) (s : string) : bool :=
  match s with
  | EmptyString => true
  | String d s' => negb (Ascii.eqb d c) && freeOf c s'
  end.

(** An entry that carries only a command and, possibly, a timestamp. *)
Definition entry (c : string) (ts : option Z) : History.HistoryEntry :=
  History.mkEntry c ts None None None [].




(** The fuzzy score of a candidate's text against a query, as
    [applyFuzzySearch] has it computed (case-insensitively). *)
Definition fuzzyScore (query : string) (c : CompletionManager.Candidate) : Q :=
  Fuzzy.score (Fuzzy.calculateScore query (CompletionManager.text c) true).

Definition aboveZero (query : string) (c : CompletionManager.Candidate) : bool :=
  negb (Qle_bool (fuzzyScore query c) 0).

(** The candidate [c] as the fuzzy path returns it: with its score and
    matched spans attached. *)
Definition scored (query : string) (c : CompletionManager.Candidate)
  : CompletionManager.Candidate :=
  let r := Fuzzy.calculateScore query (CompletionManager.text c) true in
  CompletionManager.mkCandidate
    (CompletionManager.text c) (CompletionManager.display c)
    (CompletionManager.description c) (CompletionManager.type c)
    (CompletionManager.priority c) (CompletionManager.metadata c)
    (Some (Fuzzy.score r)) (Some (Fuzzy.matches r)).

(** The score attached to a returned candidate. *)
Definition scoreOf (c : CompletionManager.Candidate) : Q :=
  match CompletionManager.score c with
  | Some s => s
  | None => 0%Q
  end.

(** The search result for a candidate. *)
Definition resultOf (query : string) (c : CompletionManager.Candidate)
  : Fuzzy.SearchResult CompletionManager.SearchItem :=
  let r := Fuzzy.calculateScore query (CompletionManager.text c) true in
  Fuzzy.mkResult (CompletionManager.mkItem c (CompletionManager.text c))
                 (Fuzzy.score r) (Fuzzy.matches r).

(** Search results in descending order of score. *)
Definition descending (a b : Fuzzy.SearchResult CompletionManager.SearchItem) : Prop :=
  (Fuzzy.resScore b <= Fuzzy.resScore a)%Q.

(** A plain command candidate. *)
Definition cand (t : string) : CompletionManager.Candidate :=
  CompletionManager.mkCandidate t t "" "command" 5 CompletionManager.NoMetadata
                                None None.

End Spec.

(** ** Sample collaborators

    Concrete sources of candidates with which the statements below are
    exercised. *)

Module Sample.

Import CompletionManager.

(** A backend that proposes the word itself. *)
Definition echoBackend (word : string) (_ : ShellContext) : list Candidate :=
  [Spec.cand word].

(** A backend that proposes eleven commands starting with "a". *)
Definition elevenBackend (_ : string) (_ : ShellContext) : list Candidate :=
  map Spec.cand ["a0"; "a1"; "a2"; "a3"; "a4"; "a5"; "a6"; "a7"; "a8"; "a9"; "a10"]%string.

Definition noHistory (_ : string) : list History.HistoryEntry := [].

Definition formatNothing (_ : Z) : string := ""%string.

Definition identityHelper (items : list SearchItem) (_ : string) : list SearchItem :=
  items.

(** The default configuration, and one with fuzzy ranking on the
    reference searcher. *)
Definition defaults : Config := mkConfig None None None None None None.

Definition fuzzyConfig : Config :=
  mkConfig None None (Some true) (Some (JS.VStr "js")) None None.

(** An argument-position request typed in [/home/u]. *)
Definition argumentContext : Context :=
  mkContext (Some "git"%string) (Some 1) (Some "/home/u"%string).

Definition getCompletionsWith (backend : string -> ShellContext -> list Candidate)
           (tRead tStore : Z) (word : string) (ctx : Context) (m : Manager)
  : list Candidate * Manager :=
  getCompletions backend noHistory String.compare formatNothing false identityHelper
                 tRead tStore word ctx m.

End Sample.

(** ** More of the fuzzy searcher: [highlightMatches] *)

Module Highlight.

(** [s.slice(a, b)] and [s.slice(a)] on a string, for indices that are
    non-negative integers. *)
Definition slice (a b : nat) (s : string) : string :=
  String.substring a (b - a) s.

Definition sliceFrom (a : nat) (s : string) : string :=
  String.substring a (String.length s - a) s.

(** The [for] loop over the spans, with its two accumulators. *)
Fixpoint highlightLoop (text highlightStart highlightEnd : string)
         (matches : list (nat * nat)) (result : string) (lastEnd : nat) : string :=
  match matches with
  | [] => result +:+ sliceFrom lastEnd text
  | (start, stop) :: rest =>
      highlightLoop text highlightStart highlightEnd rest
        ((result +:+ slice lastEnd start text)
           +:+ (highlightStart +:+ slice start stop text +:+ highlightEnd))
        stop
  end.

Definition highlightMatches (text : string) (matches : list (nat * nat))
           (highlightStart highlightEnd : string) : string :=
  match matches with
  | [] => text
  | _ => highlightLoop text highlightStart highlightEnd matches "" 0
  end.

End Highlight.

(** ** More of the history providers and of the manager: [getRecent], [getAll] *)

Module Recent.

Import History HistoryManager.

(** [history.slice(-limit).reverse()] and [[...history].reverse()]. *)
Definition recent (h : list HistoryEntry) (limit : Z) : list HistoryEntry :=
  rev (JS.sliceFrom (Some (- limit)) h).

Definition all (h : list HistoryEntry) : list HistoryEntry := rev h.

(** [provider.getRecent(limit)] and [provider.getAll()], by the provider's
    class; the Zsh provider serves its deduplicated list. *)
Definition providerGetRecent (fs : gmap string (list HistoryEntry)) (limit : Z)
           (p : Provider) : list HistoryEntry * Provider :=
  match p with
  | Aish a => let a' := aishLoad fs a in (recent (aishHistory a') limit, Aish a')
  | Bash b => let b' := bashLoad fs false b in (recent (history b') limit, Bash b')
  | Zsh z => let z' := zshLoad fs false z in
             (recent (deduplicatedHistory z') limit, Zsh z')
  | Fish f => let f' := fishLoad fs f in (recent (history f') limit, Fish f')
  end.

Definition providerGetAll (fs : gmap string (list HistoryEntry)) (p : Provider)
  : list HistoryEntry * Provider :=
  match p with
  | Aish a => let a' := aishLoad fs a in (all (aishHistory a'), Aish a')
  | Bash b => let b' := bashLoad fs false b in (all (history b'), Bash b')
  | Zsh z => let z' := zshLoad fs false z in (all (deduplicatedHistory z'), Zsh z')
  | Fish f => let f' := fishLoad fs f in (all (history f'), Fish f')
  end.

(** [Math.ceil(a / b)] for integers with [b] positive. *)
Definition ceilDiv (a b : Z) : Z := - ((- a) / b).

Fixpoint recentAll (fs : gmap string (list HistoryEntry)) (limit : Z)
         (ps : list (string * Provider))
  : list (list HistoryEntry) * list (string * Provider) :=
  match ps with
  | [] => ([], [])
  | (name, p) :: rest =>
      let '(r, p') := providerGetRecent fs limit p in
      let '(rs, rest') := recentAll fs limit rest in
      (r :: rs, (name, p') :: rest')
  end.

(** [getActiveProvider()]: the name of the provider that serves the
    requests outside unified mode. *)
Definition getActiveProvider (m : Manager) : string :=
  if String.eqb (mode m) "shell" && mapHas (currentShell m) (providers m)
  then default ""%string (currentShell m)
  else "aish"%string.

(** [HistoryManager.getRecent(limit = 10)]. *)
Definition getRecent (env : Env) (fs : gmap string (list HistoryEntry))
           (limit : option Z) (m0 : Manager) : list HistoryEntry * Manager :=
  let m := initialize env fs m0 in
  let limit := default 10 limit in
  if String.eqb (mode m) "unified" then
    let '(allResults, ps) :=
      recentAll fs (ceilDiv limit (JS.len (providers m))) (providers m) in
    (mergeResults allResults (Some true) (Some limit), withProviders ps m)
  else
    match mapGet (getActiveProvider m) (providers m) with
    | Some p =>
        let '(r, p') := providerGetRecent fs limit p in
        (r, withProviders (mapSet (getActiveProvider m) p' (providers m)) m)
    | None => ([], m)
    end.

End Recent.

(** ** More of the providers: [add] of the Zsh provider, the Zsh line format *)

Module Providers.

Import History.

(** [findIndex(f)] followed by [splice(index, 1)] when an index is found. *)
Fixpoint removeFirst {A} (f : A -> bool) (l : list A) : list A :=
  match l with
  | [] => []
  | x :: rest => if f x then rest else x :: removeFirst f rest
  end.

(** The entry that [ZshHistoryProvider.add] builds. *)
Definition zshEntry (now : Z) (processCwd : string) (c : string) (m : Metadata)
  : HistoryEntry :=
  mkEntry c (Some now) (orNullZ (metaExitCode m))
          (Some (JS.orS (metaCwd m) processCwd))
          (orNullZ (metaDuration m))
          (JS.setProp "source" (JS.VStr "zsh") m).

(** [ZshHistoryProvider.add(command, metadata)]: the entry is pushed on
    both lists, after the entry with the same trimmed command, if any, is
    spliced out of the deduplicated one. *)
Definition zshAdd (fs : FileSystem) (now : Z) (processCwd : string)
           (c : string) (m : Metadata) (p : ZshProvider) : ZshProvider :=
  let p' := zshLoad fs false p in
  let e := zshEntry now processCwd c m in
  mkZsh (zshFile p') (zshMaxResults p')
        (zshHistory p' ++ [e])
        (removeFirst (fun h => String.eqb (JS.trim (command h)) (JS.trim c))
                     (deduplicatedHistory p') ++ [e])
        (zshLoaded p').

(** *** The Zsh extended history format, written and read

    [exportTo('zsh')] of the owned provider writes one line per entry;
    [parseZshHistoryLine] of the Zsh provider reads one. *)

Definition isDigit (c : ascii) : bool :=
  let n := nat_of_ascii c in (48 <=? n)%nat && (n <=? 57)%nat.

(** The longest prefix of decimal digits, and what follows it: the
    digits of the pattern are matched greedily, and what follows them in
    the pattern is never a digit. *)
Fixpoint spanDigits (s : string) : string * string :=
  match s with
  | EmptyString => (EmptyString, EmptyString)
  | String c s' =>
      if isDigit c then let '(d, r) := spanDigits s' in (String c d, r)
      else (EmptyString, s)
  end.

(** [parseInt] of a string of decimal digits. *)
Fixpoint parseDigits (acc : Z) (s : string) : Z :=
  match s with
  | EmptyString => acc
  | String c s' => parseDigits (10 * acc + (Z.of_nat (nat_of_ascii c) - 48)) s'
  end.

Definition parseInt (s : string) : Z := parseDigits 0 s.

(** The characters that [.] does not match, within the ASCII range. *)
Definition isLineTerminator (c : ascii) : bool :=
  Ascii.eqb c "010" || Ascii.eqb c "013".

Fixpoint noLineTerminator (s : string) : bool :=
  match s with
  | EmptyString => true
  | String c s' => negb (isLineTerminator c) && noLineTerminator s'
  end.

(** The match of the line against the pattern of the extended format, a
    colon and a space, digits, a colon, digits, a semicolon and the rest
    of the line: the three groups. *)
Definition matchExtended (line : string) : option (string * string * string) :=
  match line with
  | String ":" (String " " rest) =>
      let '(d1, r1) := spanDigits rest in
      match d1, r1 with
      | String _ _, String ":" r2 =>
          let '(d2, r3) := spanDigits r2 in
          match d2, r3 with
          | String _ _, String ";" cmd =>
              if noLineTerminator cmd then Some (d1, d2, cmd) else None
          | _, _ => None
          end
      | _, _ => None
      end
  | _ => None
  end.

(** [ZshHistoryProvider.parseZshHistoryLine(line)]. *)
Definition parseZshHistoryLine (line : string) : HistoryEntry :=
  match (if JS.startsWith line ": " then matchExtended line else None) with
  | Some (ts, dur, cmd) =>
      mkEntry cmd (Some (parseInt ts * 1000)) None None (Some (parseInt dur * 1000))
              [("source"%string, JS.VStr "zsh")]
  | None => mkEntry line None None None None [("source"%string, JS.VStr "zsh")]
  end.

(** One line of [AishHistoryProvider.exportTo('zsh')]: what the format's
    [map] callback returns for an entry. *)
Definition zshLine (h : HistoryEntry) : string :=
  if JS.truthyZ (timestamp h) then
    let ts := JS.orZ (timestamp h) 0 / 1000 in
    let duration := if JS.truthyZ (duration h) then JS.orZ (duration h) 0 / 1000 else 0 in
    ": " +:+ pretty ts +:+ ":" +:+ pretty duration +:+ ";" +:+ command h
  else command h.

End Providers.

(** ** More of the [CompletionManager]: [formatTimestamp] *)

Module Display.

(** [formatTimestamp(timestamp)] at the clock [now]; the date of the last
    branch is rendered by the locale. *)
Definition formatTimestamp (toLocaleDateString : Z -> string) (now timestamp : Z)
  : string :=
  let diff := now - timestamp in
  if diff <? 3600000 then pretty (diff / 60000) +:+ "m ago"
  else if diff <? 86400000 then pretty (diff / 3600000) +:+ "h ago"
  else if diff <? 604800000 then pretty (diff / 86400000) +:+ "d ago"
  else toLocaleDateString timestamp.

End Display.

(** ** More of the base backend: [parseCommandLine] *)

Module Backend.

Record Parsed := mkParsed {
  line : string;
  words : list string;
  currentWord : string;
  previousWords : list string;
  command : string;
  completionType : string;
  cursorPos : nat
}.

(** [parseCommandLine(line, cursorPos = null)]. *)
Definition parseCommandLine (line : string) (cursorPos : option nat) : Parsed :=
  let cursorPos :=
    match cursorPos with
    | Some c => c
    | None => String.length line
    end in
  let beforeCursor := String.substring 0 cursorPos line in
  let words := Tokenizer.tokenize beforeCursor in
  let currentWord := JS.orS (last words) "" in
  let previousWords := JS.sliceTo (-1) words in
  let completionType :=
    if 0 <? JS.len previousWords then
      if JS.startsWith currentWord "-" then "option"
      else if JS.includes currentWord "/" || JS.startsWith currentWord "~" then "file"
      else "argument"
    else if JS.includes currentWord "/" then "file"
    else "command" in
  mkParsed line words currentWord previousWords
           (JS.orS (head previousWords) "") completionType cursorPos.

End Backend.

(** ** The line editor: [EnhancedReadline.tokenize] and [parseCommandLine] *)

Module Readline.

Import Tokenizer.

(** One iteration of the editor's own loop: the backslash is dropped, and
    a word ends at any white space (the white space of the ASCII range,
    as for [trim]). *)
Definition step (st : state) (char : ascii) : state :=
  if escaped st then
    mkState (words st) (push (current st) char) (inQuote st) false
  else if Ascii.eqb char backslash then
    mkState (words st) (current st) (inQuote st) true
  else
    match inQuote st with
    | Some q =>
        mkState (words st) (push (current st) char)
                (if Ascii.eqb char q then None else Some q) false
    | None =>
        if Ascii.eqb char dquote || Ascii.eqb char squote then
          mkState (words st) (push (current st) char) (Some char) false
        else if JS.isSpace char then
          if JS.nonEmpty (current st) then
            mkState (words st ++ [current st]) "" None false
          else st
        else
          mkState (words st) (push (current st) char) None false
    end.

Fixpoint scan (st : state) (line : string) : state :=
  match line with
  | EmptyString => st
  | String c rest => scan (step st c) rest
  end.

Definition tokenize (line : string) : list string :=
  let st := scan init line in
  if JS.nonEmpty (current st) then words st ++ [current st] else words st.

Record Parsed := mkParsed {
  parsedWords : list string;
  currentWord : string;
  isNewWord : bool;
  command : string;
  position : Z
}.

(** [parseCommandLine(line, cursor)]; [words.pop()] takes the current word
    off the list that is returned. *)
Definition parseCommandLine (line : string) (cursor : nat) : Parsed :=
  let beforeCursor := String.substring 0 cursor line in
  let words := tokenize beforeCursor in
  let endsWithSpace :=
    JS.endsWithChar beforeCursor space || JS.endsWithChar beforeCursor tab in
  let currentWord := if endsWithSpace then ""%string else JS.orS (last words) "" in
  let words' := if endsWithSpace then words else removelast words in
  mkParsed words' currentWord endsWithSpace (JS.orS (head words') "") (JS.len words').

End Readline.

(** ** Vocabulary of the further statements *)

Module Facts.

(** Spans that lie within [[lo, n]], each starting where the one before
    ends or later. *)
Fixpoint spansWithin (lo n : nat) (spans : list (nat * nat)) : Prop :=
  match spans with
  | [] => True
  | (s, e) :: rest => (lo <= s)%nat /\ (s <= e)%nat /\ (e <= n)%nat /\ spansWithin e n rest
  end.

(** What the subsequence loop of [calculateScore] keeps true. *)
Definition loopInv (q t : string) (st : Fuzzy.loopState) : Prop :=
  (Fuzzy.queryIndex st <= Fuzzy.targetIndex st)%nat
  /\ (Fuzzy.targetIndex st <= String.length t)%nat
  /\ (Fuzzy.queryIndex st <= String.length q)%nat
  /\ (Fuzzy.queryIndex st = Fuzzy.targetIndex st ->
      forall i, (i < Fuzzy.queryIndex st)%nat -> String.get i q = String.get i t)
  /\ (forall m, Fuzzy.matchStart st = Some m -> (m <= Fuzzy.targetIndex st)%nat)
  /\ spansWithin 0 (match Fuzzy.matchStart st with
                    | Some m => m
                    | None => Fuzzy.targetIndex st
                    end) (Fuzzy.spans st).

(** Edit distance by its recurrence on the last characters; the two
    lists are the strings reversed. *)
Fixpoint levR (l1 l2 : list ascii) {struct l1} : nat :=
  match l1 with
  | [] => List.length l2
  | a :: l1' =>
      (fix inner (l2 : list ascii) : nat :=
         match l2 with
         | [] => List.length l1
         | b :: l2' =>
             if Ascii.eqb a b then levR l1' l2'
             else (1 + Nat.min (Nat.min (levR l1' l2) (inner l2')) (levR l1' l2'))%nat
         end) l2
  end.

(** The row of the table for the prefix [p1] of the first string (given
    reversed), from the column of the prefix [p2] of the second string on;
    [s2] is the rest of the second string. *)
Fixpoint rowOf (p1 p2 : list ascii) (s2 : string) : list nat :=
  levR p1 p2 ::
  match s2 with
  | EmptyString => []
  | String b s2' => rowOf p1 (b :: p2) s2'
  end.

(** The first occurrence of each key, in order, skipping the keys already
    in [seen]. *)
Fixpoint keepFirst {A} (key : A -> string) (items : list A) (seen : list string)
  : list A :=
  match items with
  | [] => []
  | x :: rest =>
      if existsb (String.eqb (key x)) seen then keepFirst key rest seen
      else x :: keepFirst key rest (key x :: seen)
  end.

(** [words.join(sep)]. *)
Fixpoint join (sep : string) (ws : list string) : string :=
  match ws with
  | [] => ""
  | w :: rest =>
      match rest with
      | [] => w
      | _ => w +:+ sep +:+ join sep rest
      end
  end.

(** The word [w], scanned alone, is still open with the quote state [q]
    and the escape flag [e], and nothing was emitted before it. *)
Definition token (q : option ascii) (e : bool) (w : string) : Prop :=
  Tokenizer.scan Tokenizer.init w = Tokenizer.mkState [] w q e.

(** Every white-space character of [s] is a space or a tab. *)
Fixpoint blanksOnly (s : string) : bool :=
  match s with
  | EmptyString => true
  | String c s' =>
      (negb (JS.isSpace c) || Ascii.eqb c Tokenizer.space || Ascii.eqb c Tokenizer.tab)
      && blanksOnly s'
  end.

(** A string of decimal digits. *)
Fixpoint allDigits (s : string) : bool :=
  match s with
  | EmptyString => true
  | String c s' => Providers.isDigit c && allDigits s'
  end.

(** The timestamp the merge compares. *)
Definition timeOf (e : History.HistoryEntry) : Z := JS.orZ (History.timestamp e) 0.

End Facts.

(** * Properties *)

(** ** Tokenizer *)

Section TokenizerFacts.

Import Tokenizer.

Lemma append_cons (c : ascii) (s t : string) :
  String c s +:+ t = String c (s +:+ t).
Proof. reflexivity. Qed.

Lemma append_nil (t : string) : "" +:+ t = t.
Proof. reflexivity. Qed.

Lemma append_empty_r (s : string) : s +:+ "" = s.
Proof.
  induction s as [|c s IH]; [reflexivity|].
  rewrite append_cons. f_equal. exact IH.
Qed.

Lemma append_assoc (a b c : string) : (a +:+ b) +:+ c = a +:+ (b +:+ c).
Proof.
  induction a as [|x a IH]; [reflexivity|].
  rewrite !append_cons. f_equal. exact IH.
Qed.

Lemma push_nonEmpty (s : string) (c : ascii) : JS.nonEmpty (push s c) = true.
Proof. destruct s; reflexivity. Qed.

Lemma scan_app (st : state) (a b : string) :
  scan st (a +:+ b) = scan (scan st a) b.
Proof.
  revert st; induction a as [|x a IH]; intros st; [reflexivity|].
  rewrite append_cons. simpl. apply IH.
Qed.

Lemma scan_snoc (st : state) (a : string) (c : ascii) :
  scan st (a +:+ String c "") = step (scan st a) c.
Proof. now rewrite scan_app. Qed.

Lemma reachable_init : Spec.reachable init.
Proof. split; [now left | constructor]. Qed.

Lemma reachable_step (st : state) (c : ascii) :
  Spec.reachable st -> Spec.reachable (step st c).
Proof.
  intros [Hq Hw]. unfold step.
  destruct (escaped st); [now split|].
  destruct (Ascii.eqb c backslash); [now split|].
  destruct (inQuote st) as [q|] eqn:Eq.
  - split; [|exact Hw]. simpl. destruct (Ascii.eqb c q); [now left | exact Hq].
  - destruct (Ascii.eqb c dquote) eqn:Ed; simpl.
    + apply Ascii.eqb_eq in Ed; subst c. split; [right; now left | exact Hw].
    + destruct (Ascii.eqb c squote) eqn:Es; simpl.
      * apply Ascii.eqb_eq in Es; subst c. split; [right; now right | exact Hw].
      * destruct (Ascii.eqb c space || Ascii.eqb c tab).
        -- destruct (JS.nonEmpty (current st)) eqn:En.
           ++ split; [now left|]. simpl. apply Forall_app; split; [exact Hw|].
              constructor; [exact En | constructor].
           ++ split; [rewrite Eq; now left | exact Hw].
        -- split; [now left | exact Hw].
Qed.

Lemma reachable_scan (st : state) (line : string) :
  Spec.reachable st -> Spec.reachable (scan st line).
Proof.
  revert st; induction line as [|c line IH]; intros st H; simpl; [exact H|].
  apply IH, reachable_step, H.
Qed.









(** The tokenizer examples of the specification. *)
Example tokenize_quoted_example :
  tokenize ("a " +:+ String dquote "b c" +:+ String dquote " d")
  = ["a"; String dquote ("b c" +:+ String dquote ""); "d"].
Proof. reflexivity. Qed.

Example tokenize_unterminated_example :
  tokenize ("a " +:+ String dquote "b") = ["a"; String dquote "b"].
Proof. reflexivity. Qed.

(** An escaped quote character inside a quote does not close it. *)
Example tokenize_escaped_quote_example :
  tokenize (String dquote ("a\" +:+ String dquote (" b" +:+ String dquote "")))
  = [String dquote ("a\" +:+ String dquote (" b" +:+ String dquote ""))].
Proof. reflexivity. Qed.

Lemma lastChar_snoc (line : string) (c : ascii) :
  JS.lastChar (line +:+ String c "") = Some c.
Proof.
  induction line as [|d line IH]; [reflexivity|].
  rewrite append_cons. simpl. rewrite IH.
  destruct (line +:+ String c "") eqn:E; [|reflexivity].
  destruct line; discriminate.
Qed.

Lemma removelast_snoc {A} (l : list A) (x : A) : removelast (l ++ [x]) = l.
Proof.
  induction l as [|y l IH]; [reflexivity|].
  simpl. destruct (l ++ [x]) eqn:E; [destruct l; discriminate|].
  now rewrite IH.
Qed.

Lemma Forall_removelast {A} (P : A -> Prop) (l : list A) :
  Forall P l -> Forall P (removelast l).
Proof.
  induction 1 as [|x l Hx Hl IH]; [constructor|].
  simpl. destruct l; [constructor | constructor; assumption].
Qed.

(** No empty word is emitted anywhere but, possibly, at the end. *)
Lemma tokenize_empty_only_last (line : string) :
  Forall (fun w => JS.nonEmpty w = true) (removelast (tokenize line)).
Proof.
  assert (Hr : Spec.reachable (scan init line)) by (apply reachable_scan, reachable_init).
  destruct Hr as [_ Hw]. unfold tokenize, finish.
  destruct (_ || _).
  - now rewrite removelast_snoc.
  - now apply Forall_removelast.
Qed.

(** The state after an unquoted, unescaped space or tab: the current
    word is empty and no empty word has been emitted. *)
Lemma step_separator (st : state) (c : ascii) :
  Spec.reachable st -> inQuote st = None -> escaped st = false ->
  c = space \/ c = tab ->
  current (step st c) = "" /\ Forall (fun w => JS.nonEmpty w = true) (words (step st c)).
Proof.
  intros Hr Hq He Hc.
  assert (Hr' := reachable_step st c Hr). destruct Hr' as [_ Hw'].
  split; [|exact Hw'].
  unfold step. rewrite He, Hq.
  assert (E : Ascii.eqb c backslash = false /\ Ascii.eqb c dquote = false
              /\ Ascii.eqb c squote = false
              /\ Ascii.eqb c space || Ascii.eqb c tab = true)
    by (destruct Hc; subst c; repeat split; reflexivity).
  destruct E as (-> & -> & -> & ->). simpl.
  destruct (JS.nonEmpty (current st)) eqn:En; [reflexivity|].
  unfold JS.nonEmpty in En. apply negb_false_iff, String.eqb_eq in En. exact En.
Qed.

(** The part of C7 that the code meets: a line ending in an unquoted,
    unescaped space yields exactly one trailing empty word, after words
    that are all non-empty. *)
Lemma tokenize_trailing_space (line : string) :
  inQuote (scan init line) = None -> escaped (scan init line) = false ->
  exists ws, tokenize (line +:+ " ") = ws ++ [""]
             /\ Forall (fun w => JS.nonEmpty w = true) ws.
Proof.
  intros Hq He.
  assert (Hr : Spec.reachable (scan init line)) by (apply reachable_scan, reachable_init).
  destruct (step_separator _ space Hr Hq He (or_introl eq_refl)) as [Hc Hw].
  exists (words (step (scan init line) space)). split; [|exact Hw].
  unfold tokenize. change " "%string with (String space ""). rewrite scan_snoc.
  unfold finish, JS.endsWithChar. rewrite lastChar_snoc, Hc. reflexivity.
Qed.

(** The part that it misses: after an unquoted, unescaped tab no empty
    word is emitted at all, since the final test looks for a space only. *)
Lemma tokenize_trailing_tab_no_empty_word (line : string) :
  inQuote (scan init line) = None -> escaped (scan init line) = false ->
  Forall (fun w => JS.nonEmpty w = true) (tokenize (line +:+ String tab "")).
Proof.
  intros Hq He.
  assert (Hr : Spec.reachable (scan init line)) by (apply reachable_scan, reachable_init).
  destruct (step_separator _ tab Hr Hq He (or_intror eq_refl)) as [Hc Hw].
  unfold tokenize. rewrite scan_snoc.
  unfold finish, JS.endsWithChar. rewrite lastChar_snoc, Hc. exact Hw.
Qed.

(** C7, at a line that ends in a tab: [tokenize] returns the word before
    the tab and no trailing empty word. *)
Theorem tokenize_trailing_tab :
  tokenize (String "l" (String "s" (String tab ""))) = ["ls"].
Proof. reflexivity. Qed.

Example tokenize_trailing_space_example : tokenize "ls " = ["ls"; ""].
Proof. reflexivity. Qed.

End TokenizerFacts.

(** ** Fuzzy scorer *)

Section FuzzyFacts.

Import Fuzzy.
Open Scope Q_scope.

Lemma ofNat_S (n : nat) : ofNat (S n) == ofNat n + 1.
Proof.
  unfold ofNat. rewrite Nat2Z.inj_succ, <- Z.add_1_r, inject_Z_plus. reflexivity.
Qed.

Lemma ofNat_nonneg (n : nat) : 0 <= ofNat n.
Proof.
  unfold ofNat. change 0 with (inject_Z 0). rewrite <- Zle_Qle. apply Nat2Z.is_nonneg.
Qed.

Lemma ofNat_le (n m : nat) : (n <= m)%nat -> ofNat n <= ofNat m.
Proof. intros H. unfold ofNat. rewrite <- Zle_Qle. now apply Nat2Z.inj_le. Qed.

(** Every matched query character adds at least 1.5 to the total. *)
Lemma loopBody_total (q t : string) (st : loopState) :
  (3 # 2) * ofNat (queryIndex st) <= total st ->
  (3 # 2) * ofNat (queryIndex (loopBody q t st)) <= total (loopBody q t st).
Proof.
  intros H. unfold loopBody.
  destruct (sameChar _ _); simpl; [|exact H].
  assert (H1 := ofNat_S (queryIndex st)).
  assert (H2 := ofNat_S (consecutiveMatches st)).
  assert (H3 := ofNat_nonneg (consecutiveMatches st)).
  destruct (_ || _); rewrite H1, H2; lra.
Qed.

Lemma loop_total (fuel : nat) (q t : string) (st : loopState) :
  (3 # 2) * ofNat (queryIndex st) <= total st ->
  (3 # 2) * ofNat (queryIndex (loop fuel q t st)) <= total (loop fuel q t st).
Proof.
  revert st; induction fuel as [|fuel IH]; intros st H; simpl; [exact H|].
  destruct (loopCond q t st); [|exact H].
  apply IH, loopBody_total, H.
Qed.

Lemma loopBody_targetIndex (q t : string) (st : loopState) :
  targetIndex (loopBody q t st) = S (targetIndex st).
Proof. unfold loopBody. destruct (sameChar _ _); reflexivity. Qed.

(** The fuel given by [calculateScore] is enough: when [loop] stops, the
    condition of the [while] is false. *)
Lemma loop_terminates (fuel : nat) (q t : string) (st : loopState) :
  (String.length t <= targetIndex st + fuel)%nat ->
  loopCond q t (loop fuel q t st) = false.
Proof.
  revert st; induction fuel as [|fuel IH]; intros st H; simpl.
  - unfold loopCond. apply andb_false_iff. right. apply Nat.ltb_ge. lia.
  - destruct (loopCond q t st) eqn:E; [|exact E].
    apply IH. rewrite loopBody_targetIndex. lia.
Qed.

Lemma calculateScore_loop_complete (q t : string) :
  loopCond q t (loop (String.length t) q t loopInit) = false.
Proof. apply loop_terminates. simpl. lia. Qed.

Lemma startsWith_empty (t : string) : JS.startsWith t "" = true.
Proof. destruct t; reflexivity. Qed.

(** A score is never strictly between 0 and 0.4. *)
Lemma calculateScore_zero_or_large (query target : string) (ci : bool) :
  score (calculateScore query target ci) = 0
  \/ 2 # 5 <= score (calculateScore query target ci).
Proof.
  unfold calculateScore.
  set (q := if ci then JS.toLowerCase query else query).
  set (t := if ci then JS.toLowerCase target else target).
  destruct (String.eqb q t); [right; simpl; lra|].
  destruct (JS.startsWith t q) eqn:Es; [right; simpl; lra|].
  destruct (JS.indexOf t q); [right; simpl; lra|].
  set (st := loop (String.length t) q t loopInit).
  destruct (queryIndex st <? String.length q)%nat eqn:El; [now left|].
  right. simpl.
  apply Nat.ltb_ge in El.
  assert (Hq : (1 <= String.length q)%nat).
  { destruct q; [rewrite startsWith_empty in Es; discriminate | simpl; lia]. }
  assert (Ht : (3 # 2) * ofNat (queryIndex st) <= total st).
  { apply loop_total. unfold Qle; simpl; lia. }
  assert (Hl := ofNat_le _ _ El). assert (Hq1 := ofNat_le _ _ Hq).
  change (ofNat 1) with 1 in Hq1.
  set (ql := ofNat (String.length q)) in *.
  set (tl := ofNat (String.length t)).
  assert (Htl : 0 <= tl) by apply ofNat_nonneg.
  assert (Hn : 1 # 2 <= Qmin (total st / (ql * 3)) 1).
  { apply Q.min_glb; [|lra].
    apply Qle_shift_div_l; lra. }
  assert (Hx : (tl - ql) / tl <= 1).
  { destruct (Qlt_le_dec 0 tl) as [Hpos|Hle].
    - apply Qle_shift_div_r; [exact Hpos | lra].
    - assert (E : tl == 0) by lra. rewrite E. unfold Qdiv.
      change (/ 0) with 0. lra. }
  set (n := Qmin (total st / (ql * 3)) 1) in *.
  set (x := (tl - ql) / tl) in *.
  nra.
Qed.

(** With the threshold 0.3 that [applyFuzzySearch] passes, a candidate is
    kept exactly when its score is above zero. *)
Lemma threshold_iff_positive (query target : string) (ci : bool) :
  Qle_bool (3 # 10) (score (calculateScore query target ci)) = true
  <-> 0 < score (calculateScore query target ci).
Proof.
  rewrite Qle_bool_iff.
  destruct (calculateScore_zero_or_large query target ci) as [H|H].
  - rewrite H. split; intros H'; lra.
  - split; intros _; lra.
Qed.

(** C1, as the code has it: the scorer gives 1 to an exact match and 0
    to a query that is not an in-order subsequence of the target; "gti"
    is not one of "git" (after g and t are matched the target is used
    up), so its score is 0 like that of "xyz". *)
Theorem calculateScore_examples :
  score (calculateScore "git" "git" true) = 1
  /\ score (calculateScore "xyz" "git" true) = 0
  /\ score (calculateScore "gti" "git" true) = 0.
Proof. repeat split; reflexivity. Qed.

(** C1 as stated fails: the score of "gti" against "git" is not above 0. *)
Lemma calculateScore_gti_not_positive :
  ~ (score (calculateScore "git" "git" true) = 1
     /\ score (calculateScore "xyz" "git" true) = 0
     /\ 0 < score (calculateScore "gti" "git" true)).
Proof. intros (_ & _ & H). vm_compute in H. discriminate H. Qed.

(** A transposition is scored only when the query stays a subsequence. *)
Example calculateScore_gt_git :
  score (calculateScore "gt" "git" true) == 7 # 9.
Proof. vm_compute. reflexivity. Qed.

(** The alternative edit-distance scorer does score the transposition:
    "gti" is at distance 2 from "git". *)
Example levenshteinScore_gti_git :
  levenshteinDistance "gti" "git" = 2%nat
  /\ levenshteinScore "gti" "git" true 3 = Some (1 - 2 / 3).
Proof. split; reflexivity. Qed.

Example levenshteinDistance_kitten_sitting :
  levenshteinDistance "kitten" "sitting" = 3%nat.
Proof. reflexivity. Qed.

End FuzzyFacts.

(** ** Sorting *)

Section SortFacts.

Context {A : Type} (cmp : A -> A -> comparison).

Lemma insert_Gt (x y : A) (l : list A) :
  cmp x y = Gt -> JS.insert cmp x (y :: l) = y :: JS.insert cmp x l.
Proof. intros H. simpl. now rewrite H. Qed.

Lemma insert_not_Gt (x y : A) (l : list A) :
  cmp x y <> Gt -> JS.insert cmp x (y :: l) = x :: y :: l.
Proof. intros H. simpl. destruct (cmp x y); congruence. Qed.

Lemma insert_Permutation (x : A) (l : list A) :
  Permutation (JS.insert cmp x l) (x :: l).
Proof.
  induction l as [|y l IH]; simpl; [reflexivity|].
  destruct (cmp x y); try reflexivity.
  rewrite IH. apply perm_swap.
Qed.

Lemma sort_Permutation (l : list A) : Permutation (JS.sort cmp l) l.
Proof.
  induction l as [|x l IH]; simpl; [reflexivity|].
  rewrite insert_Permutation. now constructor.
Qed.

Lemma sort_length (l : list A) : List.length (JS.sort cmp l) = List.length l.
Proof. apply Permutation_length, sort_Permutation. Qed.

(** When the comparator is the sign of a total preorder [R] ("may come
    before"), the result is sorted. *)
Variable R : A -> A -> Prop.
Hypothesis R_trans : forall x y z, R x y -> R y z -> R x z.
Hypothesis cmp_Gt : forall x y, cmp x y = Gt -> R y x.
Hypothesis cmp_not_Gt : forall x y, cmp x y <> Gt -> R x y.

Lemma insert_sorted (x : A) (l : list A) :
  StronglySorted R l -> StronglySorted R (JS.insert cmp x l).
Proof.
  induction l as [|y l IH]; intros Hs; simpl.
  - constructor; constructor.
  - apply StronglySorted_inv in Hs as [Hl Hy].
    assert (Hhead : cmp x y <> Gt -> StronglySorted R (x :: y :: l)).
    { intros Hc. constructor; [now constructor|].
      constructor; [now apply cmp_not_Gt|].
      eapply List.Forall_impl; [|exact Hy]. intros z Hz.
      eapply R_trans; [apply cmp_not_Gt, Hc | exact Hz]. }
    destruct (cmp x y) eqn:Ec; try (apply Hhead; discriminate).
    constructor; [now apply IH|].
    eapply Permutation_Forall; [symmetry; apply insert_Permutation|].
    constructor; [now apply cmp_Gt | exact Hy].
Qed.

Lemma sort_sorted (l : list A) : StronglySorted R (JS.sort cmp l).
Proof.
  induction l as [|x l IH]; simpl; [constructor | now apply insert_sorted].
Qed.

End SortFacts.

Lemma firstn_In {A} (n : nat) (l : list A) (y : A) :
  In y (firstn n l) -> In y l.
Proof.
  revert n; induction l as [|x l IH]; intros n H; destruct n; simpl in *;
    try contradiction.
  destruct H as [H|H]; [now left | right; eauto].
Qed.

Lemma StronglySorted_firstn {A} (R : A -> A -> Prop) (n : nat) (l : list A) :
  StronglySorted R l -> StronglySorted R (firstn n l).
Proof.
  revert n; induction l as [|x l IH]; intros n Hs; destruct n; simpl;
    try constructor.
  - apply IH. now apply StronglySorted_inv in Hs.
  - apply StronglySorted_inv in Hs as [_ Hx].
    apply List.Forall_forall. intros y Hy. rewrite List.Forall_forall in Hx.
    apply Hx. eapply firstn_In, Hy.
Qed.

Lemma StronglySorted_map {A B} (f : A -> B) (R : B -> B -> Prop) (l : list A) :
  StronglySorted (fun a b => R (f a) (f b)) l -> StronglySorted R (map f l).
Proof.
  induction 1 as [|x l Hl IH Hx]; simpl; constructor; [exact IH|].
  apply List.Forall_forall. intros y Hy. apply in_map_iff in Hy as (z & <- & Hz).
  rewrite List.Forall_forall in Hx. now apply Hx.
Qed.

(** ** Merging provider results *)

Section MergeFacts.

Import History HistoryManager.



Lemma mergeLoop_cons (d : bool) (limit : Z) (item : HistoryEntry)
      (rest : list HistoryEntry) (seen : gset string) (merged : list HistoryEntry) :
  mergeLoop d limit (item :: rest) seen merged
  = if d && bool_decide (command item ∈ seen)
    then mergeLoop d limit rest seen merged
    else if JS.len (merged ++ [item]) >=? limit then merged ++ [item]
         else mergeLoop d limit rest
                        (if d then {[command item]} ∪ seen else seen)
                        (merged ++ [item]).
Proof. reflexivity. Qed.



End MergeFacts.

(** ** Provider search *)

Section SearchFacts.

Import History HistoryManager.

(** When the second argument is the options object, the providers that
    declare [search(query, limit)] bind the object to [limit]: the empty
    query returns the whole history, newest first, and any other query
    returns nothing. *)
Lemma searchLoaded_options_empty_query (h : list HistoryEntry) (maxResults limit : Z)
      (deduplicate : bool) :
  searchLoaded h maxResults "" (ArgOptions limit deduplicate) = rev h.
Proof. reflexivity. Qed.

Lemma searchLoaded_options_query (h : list HistoryEntry) (maxResults limit : Z)
      (deduplicate : bool) (query : string) :
  JS.nonEmpty query = true ->
  searchLoaded h maxResults query (ArgOptions limit deduplicate) = [].
Proof.
  intros Hq. unfold searchLoaded. rewrite Hq. simpl.
  destruct (rev h); reflexivity.
Qed.

Lemma searchLoadedSeen_options_empty_query (h : list HistoryEntry)
      (maxResults limit : Z) (deduplicate : bool) :
  searchLoadedSeen h maxResults "" (ArgOptions limit deduplicate) = rev h.
Proof. reflexivity. Qed.

(** Called with a number, as their signature expects, the same providers
    honour the limit on the empty query. *)
Lemma searchLoaded_number_empty_query (h : list HistoryEntry) (maxResults limit : Z) :
  0 < limit ->
  searchLoaded h maxResults "" (ArgNumber limit)
  = rev (skipn (List.length h - Z.to_nat limit) h)
  /\ JS.len (searchLoaded h maxResults "" (ArgNumber limit)) <= limit.
Proof.
  intros Hl. unfold searchLoaded, JS.sliceFrom, JS.len. simpl.
  assert (E : (- limit <? 0) = true) by (apply Z.ltb_lt; lia). rewrite E.
  assert (En : Z.to_nat (Z.max 0 (Z.of_nat (List.length h) + - limit))
               = (List.length h - Z.to_nat limit)%nat) by lia.
  rewrite En. split; [reflexivity|].
  rewrite length_rev, length_skipn. lia.
Qed.

(** The Zsh provider destructures the options object, and honours the
    limit. *)
Lemma zshSearch_empty_query (fs : gmap string (list HistoryEntry)) (p : ZshProvider)
      (limit : Z) (deduplicate : bool) :
  0 < limit ->
  let p' := zshLoad fs true p in
  let searchArray := if deduplicate then deduplicatedHistory p' else zshHistory p' in
  fst (zshSearch fs p "" (ArgOptions limit deduplicate))
  = rev (skipn (List.length searchArray - Z.to_nat limit) searchArray)
  /\ JS.len (fst (zshSearch fs p "" (ArgOptions limit deduplicate))) <= limit.
Proof.
  intros Hl p' searchArray. unfold zshSearch. fold p'. simpl. fold searchArray.
  unfold JS.sliceFrom, JS.len.
  assert (E : (- limit <? 0) = true) by (apply Z.ltb_lt; lia). rewrite E.
  assert (En : Z.to_nat (Z.max 0 (Z.of_nat (List.length searchArray) + - limit))
               = (List.length searchArray - Z.to_nat limit)%nat) by lia.
  rewrite En. split; [reflexivity|].
  rewrite length_rev, length_skipn. lia.
Qed.

(** C5, at a Bash history of three commands searched with the empty
    query and [{limit: 1, deduplicate: true}]: all three entries come
    back, not the most recent one alone. *)
Theorem bashSearch_options_ignores_limit :
  map command
      (fst (bashSearch
              (<["/home/u/.bash_history"%string :=
                   [Spec.entry "a" None; Spec.entry "b" None; Spec.entry "c" None]]> ∅)
              (mkShell "/home/u/.bash_history" 50 [] false)
              "" (ArgOptions 1 true)))
  = ["c"; "b"; "a"]%string.
Proof. vm_compute. reflexivity. Qed.

(** The same call through the manager in its default mode, on the owned
    store. *)
Example search_solo_ignores_limit :
  map command
      (fst (search
              (mkEnv None "/home/u" "/home/u/.aish_history" "/home/u/.bash_history"
                     "/home/u/.zsh_history" "/home/u/.local/share/fish/fish_history")
              (<["/home/u/.aish_history"%string :=
                   [Spec.entry "a" (Some 1); Spec.entry "b" (Some 2);
                    Spec.entry "c" (Some 3)]]> ∅)
              "" (mkOptions (Some 1) (Some true))
              (new (mkConfig None None None None None None None))))
  = ["c"; "b"; "a"]%string.
Proof. vm_compute. reflexivity. Qed.

(** In unified mode the manager merges what the providers return. *)
Lemma search_unified (env : Env) (fs : gmap string (list HistoryEntry))
      (query : string) (limit : Z) (deduplicate : bool) (m : Manager) :
  mode (initialize env fs m) = "unified"%string ->
  fst (search env fs query (mkOptions (Some limit) (Some deduplicate)) m)
  = mergeResults
      (fst (searchAll fs query (ArgOptions limit deduplicate)
                      (providers (initialize env fs m))))
      (Some deduplicate) (Some limit).
Proof.
  intros Hm. unfold search. simpl. rewrite Hm. simpl.
  destruct (searchAll _ _ _ _) as [allResults ps]. reflexivity.
Qed.

(** The merge of C4 through the manager: the owned store holds [ls] at
    100, the Zsh history [ls] at 50 and [pwd] at 90. *)
Example search_unified_example :
  map (fun e => (command e, timestamp e))
      (fst (search
              (mkEnv (Some "/bin/zsh"%string) "/home/u" "/home/u/.aish_history"
                     "/home/u/.bash_history" "/home/u/.zsh_history"
                     "/home/u/.local/share/fish/fish_history")
              (<["/home/u/.aish_history"%string := [Spec.entry "ls" (Some 100)]]>
                 (<["/home/u/.zsh_history"%string :=
                      [Spec.entry "ls" (Some 50); Spec.entry "pwd" (Some 90)]]> ∅))
              "" (mkOptions (Some 50) (Some true))
              (new (mkConfig (Some "unified"%string) None None None None None None))))
  = [("ls", Some 100); ("pwd", Some 90)]%string.
Proof. vm_compute. reflexivity. Qed.

End SearchFacts.

(** ** Adding to the history *)

Section AddFacts.

Import History HistoryManager.

Lemma mapGet_mapSet_ne {V} (k k' : string) (v : V) (m : list (string * V)) :
  k <> k' -> mapGet k' (mapSet k v m) = mapGet k' m.
Proof.
  intros Hne. induction m as [|[k0 v0] m IH]; simpl.
  - destruct (String.eqb_spec k k'); [contradiction | reflexivity].
  - destruct (String.eqb_spec k0 k) as [->|Hk]; simpl.
    + destruct (String.eqb_spec k k'); [contradiction | reflexivity].
    + destruct (String.eqb_spec k0 k'); [reflexivity | exact IH].
Qed.

Lemma mapGet_mapSet_eq {V} (k : string) (v : V) (m : list (string * V)) :
  mapGet k (mapSet k v m) = Some v.
Proof.
  induction m as [|[k0 v0] m IH]; simpl.
  - now rewrite String.eqb_refl.
  - destruct (String.eqb_spec k0 k) as [->|Hk]; simpl.
    + now rewrite String.eqb_refl.
    + destruct (String.eqb_spec k0 k); [contradiction | exact IH].
Qed.

Lemma aishLoad_file (fs : gmap string (list HistoryEntry)) (a : AishProvider) :
  aishFile (aishLoad fs a) = aishFile a
  /\ saveCorrections (aishLoad fs a) = saveCorrections a.
Proof.
  unfold aishLoad. destruct (aishLoaded a); [now split|].
  destruct (fs !! aishFile a); now split.
Qed.

(** [initialize] registers the owned provider: a fresh one on a manager
    that was not initialized, under the name 'aish'. *)
Lemma initialize_owned (env : Env) (fs : gmap string (list HistoryEntry)) (m : Manager) :
  initialized m = false ->
  mapGet "aish" (providers (initialize env fs m)) = Some (Aish (newAish (config m) env)).
Proof.
  intros Hi. unfold initialize. rewrite Hi.
  cbn [initialized config mode providers currentShell].
  destruct (negb (String.eqb (mode m) "aish"));
    [|cbn [providers]; apply mapGet_mapSet_eq].
  unfold detectAndInitializeShellHistory.
  cbn [initialized config mode providers currentShell].
  set (shellName := lastSegment _ _).
  destruct (JS.includes shellName "zsh");
    [|destruct (JS.includes shellName "fish");
      [|destruct (JS.includes shellName "bash" || JS.includes shellName "sh")]];
    cbn [initialized config mode providers currentShell];
    try (destruct (isAvailable fs _));
    try (rewrite mapGet_mapSet_ne by discriminate);
    apply mapGet_mapSet_eq.
Qed.

(** C9, as the code has it. On a manager that holds its owned provider
    once initialized (as every manager does that [initialize] has
    initialized), [HistoryManager.add] replaces the owned provider and
    nothing else: every other provider is left as it was, its in-memory
    list included; the call writes no file, and when the debounce timer it
    arms fires, the only file written is the owned store's. The owned
    provider is left as loaded when the command equals its most recent
    entry, and also when the metadata marks a correction and corrections
    are not saved; otherwise the entry appended at the end of its list
    holds the command, the clock, the exit code, directory and duration of
    the metadata, and the whole metadata object with [source] set to
    'aish'. *)
Theorem add_touches_owned_store_only
        (env : Env) (fs : gmap string (list HistoryEntry)) (now : Z) (c : string)
        (meta : Metadata) (m : Manager) :
  (initialized m = true -> exists a, mapGet "aish" (providers m) = Some (Aish a)) ->
  let m1 := initialize env fs m in
  let m' := add env fs now c meta m in
  exists a,
    mapGet "aish" (providers m1) = Some (Aish a)
    /\ (initialized m = true -> m1 = m)
    /\ (initialized m = false -> a = newAish (config m) env)
    /\ let a0 := aishLoad fs a in
       let entry :=
         mkEntry c (Some now)
                 (JS.numOf (JS.getProp "exitCode" meta))
                 (Some (JS.orS (JS.strOf (JS.getProp "cwd" meta)) (processCwd env)))
                 (JS.numOf (JS.getProp "duration" meta))
                 (JS.setProp "source" (JS.VStr "aish") meta) in
       let suppressed :=
         lastCommandIs (aishHistory a0) c
         || (negb (saveCorrections a) && JS.truthy (JS.getProp "isCorrection" meta)) in
       let a' :=
         if suppressed then a0
         else mkAish (aishFile a) (aishMaxResults a0) (maxEntries a0) (saveCorrections a)
                     (aishHistory a0 ++ [entry]) true true in
       m' = mkManager (config m1) (mode m1) (mapSet "aish" (Aish a') (providers m1))
                      (currentShell m1) (initialized m1)
       /\ mapGet "aish" (providers m') = Some (Aish a')
       /\ (forall name, name <> "aish"%string ->
                        mapGet name (providers m') = mapGet name (providers m1))
       /\ (forall now' path,
             path <> aishFile a ->
             fst (fireSaveTimer env now' fs m') !! path = fs !! path).
Proof.
  intros Hwf m1 m'.
  assert (Ha : exists a, mapGet "aish" (providers m1) = Some (Aish a)
                         /\ (initialized m = true -> m1 = m)
                         /\ (initialized m = false -> a = newAish (config m) env)).
  { destruct (initialized m) eqn:Ei.
    - destruct (Hwf eq_refl) as [a Ha]. exists a.
      assert (E1 : m1 = m) by (unfold m1, initialize; now rewrite Ei).
      rewrite E1. split; [exact Ha|]. split; [reflexivity | discriminate].
    - exists (newAish (config m) env).
      split; [now apply initialize_owned|]. split; [discriminate | reflexivity]. }
  destruct Ha as (a & Ha & H1 & H2). exists a.
  split; [exact Ha|]. split; [exact H1|]. split; [exact H2|].
  intros a0 entry suppressed a'.
  destruct (aishLoad_file fs a) as [Hfile Hsave]. fold a0 in Hfile, Hsave.
  assert (Eadd : aishAdd fs now (processCwd env) c meta a = a').
  { unfold aishAdd, a', suppressed. fold a0. rewrite Hsave.
    unfold isCorrection.
    destruct (lastCommandIs (aishHistory a0) c); [reflexivity|]. cbn [orb].
    destruct (negb (saveCorrections a) && JS.truthy (JS.getProp "isCorrection" meta));
      [reflexivity|].
    unfold setHistory. now rewrite Hfile, Hsave. }
  assert (Em : m' = mkManager (config m1) (mode m1)
                              (mapSet "aish" (Aish a') (providers m1))
                              (currentShell m1) (initialized m1)).
  { unfold m', add. fold m1. rewrite Ha, Eadd. reflexivity. }
  assert (Ef : aishFile a' = aishFile a).
  { unfold a'. destruct suppressed; [exact Hfile | reflexivity]. }
  split; [exact Em|]. rewrite Em. cbn [providers].
  split; [apply mapGet_mapSet_eq|].
  split; [intros name Hne; now apply mapGet_mapSet_ne|].
  intros now' path Hp. unfold fireSaveTimer. cbn [providers].
  rewrite mapGet_mapSet_eq.
  destruct (saveDebounceTimer a'); [|reflexivity].
  simpl. rewrite Ef. now apply lookup_insert_ne.
Qed.

Lemma add_touches_owned_store_only_witness :
  let env := mkEnv (Some "/bin/bash"%string) "/home/u" "/home/u/.aish_history"
                   "/home/u/.bash_history" "/home/u/.zsh_history"
                   "/home/u/.local/share/fish/fish_history" in
  let fs : gmap string (list HistoryEntry) :=
    <["/home/u/.bash_history"%string := [Spec.entry "make" None]]>
      (<["/home/u/.aish_history"%string := [Spec.entry "ls" (Some 5)]]> ∅) in
  let m := initialize env fs
             (new (mkConfig (Some "unified"%string) None None None None None None)) in
  let meta := mkMeta (Some 0) (Some "/tmp"%string) None false [] in
  (exists a, mapGet "aish" (providers m) = Some (Aish a))
  /\ mapGet "bash" (providers (add env fs 9 "pwd" meta m)) = mapGet "bash" (providers m).
Proof.
  intros env fs m meta.
  assert (Hw : exists a, mapGet "aish" (providers m) = Some (Aish a))
    by (eexists; reflexivity).
  split; [exact Hw|].
  destruct (add_touches_owned_store_only env fs 9 "pwd" meta m (fun _ => Hw))
    as (a & _ & Hm & _ & _ & _ & Hother & _).
  rewrite (Hother "bash"%string) by discriminate.
  now rewrite (Hm eq_refl).
Defined.

(** C9 as stated fails for a correction when corrections are not saved:
    "pwd" is not the most recent command of the owned store, and yet
    [add] does not append it. *)
Lemma add_drops_unsaved_correction :
  let env := mkEnv (Some "/bin/bash"%string) "/home/u" "/home/u/.aish_history"
                   "/home/u/.bash_history" "/home/u/.zsh_history"
                   "/home/u/.local/share/fish/fish_history" in
  let fs : gmap string (list HistoryEntry) :=
    <["/home/u/.aish_history"%string := [Spec.entry "ls" (Some 5)]]> ∅ in
  let m := new (mkConfig None None None None None None (Some false)) in
  let meta := mkMeta None None None true [] in
  lastCommandIs [Spec.entry "ls" (Some 5)] "pwd" = false
  /\ exists a,
       mapGet "aish" (providers (add env fs 9 "pwd" meta m)) = Some (Aish a)
       /\ aishHistory a = [Spec.entry "ls" (Some 5)].
Proof.
  intros env fs m meta. split; [reflexivity|].
  eexists. split; [vm_compute; reflexivity | reflexivity].
Qed.

(** The same call with corrections saved (the default) appends the
    entry, with the metadata object copied and tagged. *)
Example add_saves_correction :
  let env := mkEnv (Some "/bin/bash"%string) "/home/u" "/home/u/.aish_history"
                   "/home/u/.bash_history" "/home/u/.zsh_history"
                   "/home/u/.local/share/fish/fish_history" in
  let fs : gmap string (list HistoryEntry) :=
    <["/home/u/.aish_history"%string := [Spec.entry "ls" (Some 5)]]> ∅ in
  let m := new (mkConfig None None None None None None None) in
  let meta := mkMeta None None None true [] in
  exists a,
    mapGet "aish" (providers (add env fs 9 "pwd" meta m)) = Some (Aish a)
    /\ aishHistory a
       = [Spec.entry "ls" (Some 5);
          mkEntry "pwd" (Some 9) None (Some "/home/u"%string) None
                  [("isCorrection"%string, JS.VBool true);
                   ("source"%string, JS.VStr "aish")]].
Proof.
  intros env fs m meta.
  eexists. split; [vm_compute; reflexivity | reflexivity].
Qed.

(** A run of [add] on a manager in unified mode: the Bash provider is
    untouched, a repeated command is suppressed, a new one is appended. *)
Example add_example :
  let env := mkEnv (Some "/bin/bash"%string) "/home/u" "/home/u/.aish_history"
                   "/home/u/.bash_history" "/home/u/.zsh_history"
                   "/home/u/.local/share/fish/fish_history" in
  let fs : gmap string (list HistoryEntry) :=
    <["/home/u/.bash_history"%string := [Spec.entry "make" None]]>
      (<["/home/u/.aish_history"%string := [Spec.entry "ls" (Some 5)]]> ∅) in
  let m := new (mkConfig (Some "unified"%string) None None None None None None) in
  let meta := mkMeta None None None false [] in
  mapGet "bash" (providers (add env fs 9 "pwd" meta m))
  = Some (Bash (mkShell "/home/u/.bash_history" 50 [] false))
  /\ (forall a, mapGet "aish" (providers (add env fs 9 "ls" meta m)) = Some (Aish a) ->
                map command (aishHistory a) = ["ls"]%string)
  /\ (forall a, mapGet "aish" (providers (add env fs 9 "pwd" meta m)) = Some (Aish a) ->
                map command (aishHistory a) = ["ls"; "pwd"]%string).
Proof.
  split; [vm_compute; reflexivity|].
  split; intros a Ha; vm_compute in Ha; injection Ha as <-; reflexivity.
Qed.

End AddFacts.

(** ** Fuzzy ranking in [getCompletions] *)

Section RankingFacts.

Import CompletionManager.

Variable backend : string -> ShellContext -> list Candidate.
Variable historySearch : string -> list History.HistoryEntry.
Variable localeCompare : string -> string -> comparison.
Variable formatTimestamp : Z -> string.
Variable fzfAvailable : bool.
Variable fzfHelper : list SearchItem -> string -> list SearchItem.

Lemma withScore_resultOf (query : string) (c : Candidate) :
  withScore (Spec.resultOf query c) = Spec.scored query c.
Proof. reflexivity. Qed.

Lemma aboveZero_iff (query : string) (c : Candidate) :
  Spec.aboveZero query c = true <-> (0 < Spec.fuzzyScore query c)%Q.
Proof.
  unfold Spec.aboveZero. rewrite negb_true_iff.
  destruct (Qle_bool (Spec.fuzzyScore query c) 0) eqn:E.
  - apply Qle_bool_iff in E. split; [discriminate | intros H; lra].
  - split; [intros _ | reflexivity].
    destruct (Qlt_le_dec 0 (Spec.fuzzyScore query c)) as [H|H]; [exact H|].
    apply Qle_bool_iff in H. congruence.
Qed.

Lemma threshold_aboveZero (query : string) (c : Candidate) :
  Qle_bool (3 # 10) (Fuzzy.score (Fuzzy.calculateScore query (text c) true))
  = Spec.aboveZero query c.
Proof.
  apply eq_true_iff_eq. rewrite threshold_iff_positive. symmetry. apply aboveZero_iff.
Qed.

(** The loop of [search] keeps, in order, the candidates that score above
    zero. *)
Lemma collect_candidates (query : string) (cs : list Candidate) :
  Fuzzy.collect searchText query (3 # 10) true (map (fun c => mkItem c (text c)) cs)
  = map (Spec.resultOf query) (List.filter (Spec.aboveZero query) cs).
Proof.
  induction cs as [|c cs IH]; simpl; [reflexivity|].
  rewrite threshold_aboveZero, IH.
  destruct (Spec.aboveZero query c); reflexivity.
Qed.

Lemma trim_nonEmpty (word : string) :
  JS.nonEmpty (JS.trim word) = true -> JS.nonEmpty word = true.
Proof. destruct word; [discriminate | reflexivity]. Qed.

Lemma sort_byScore_descending (l : list (Fuzzy.SearchResult SearchItem)) :
  StronglySorted Spec.descending (JS.sort Fuzzy.byScore l).
Proof.
  apply sort_sorted; unfold Spec.descending, Fuzzy.byScore.
  - intros x y z Hxy Hyz. eapply Qle_trans; eassumption.
  - intros x y H. apply Qgt_alt in H. lra.
  - intros x y H. apply Qle_alt in H. lra.
Qed.

Lemma sliceTo_firstn {A} (stop : Z) (l : list A) :
  exists k, JS.sliceTo stop l = firstn k l.
Proof. unfold JS.sliceTo. destruct (stop <? 0); eauto. Qed.

(** In a sorted list, what a prefix holds comes before what it leaves
    out. *)
Lemma StronglySorted_firstn_skipn {A} (R : A -> A -> Prop) (k : nat) (l : list A)
      (a b : A) :
  StronglySorted R l -> In a (firstn k l) -> In b (skipn k l) -> R a b.
Proof.
  intros Hs. revert k. induction Hs as [|x l Hs IH Hall]; intros k Ha Hb.
  - destruct k; destruct Ha.
  - destruct k as [|k]; [destruct Ha|]. simpl in Ha, Hb.
    destruct Ha as [<-|Ha].
    + rewrite List.Forall_forall in Hall. apply Hall.
      rewrite <- (firstn_skipn k l). apply in_or_app. now right.
    + eapply IH; eassumption.
Qed.

(** What the fuzzy path of [getCompletions] returns on a cache miss with
    the reference searcher. *)
Lemma getCompletions_fuzzy_value (tRead tStore : Z) (word : string) (ctx : Context)
      (m : Manager) :
  JS.isTrue (fuzzy_search (config m)) = true ->
  JS.nonEmpty (JS.trim word) = true ->
  Fuzzy.getSearcher (fuzzy_backend (config m)) fzfAvailable = Fuzzy.JSFuzzySearcher ->
  getCached tRead (cacheKey word ctx) m = None ->
  fst (getCompletions backend historySearch localeCompare formatTimestamp
                      fzfAvailable fzfHelper tRead tStore word ctx m)
  = map withScore
        (JS.sliceTo (JS.orZ (max_suggestions (config m)) 10)
           (JS.sort Fuzzy.byScore
              (map (Spec.resultOf word)
                 (List.filter (Spec.aboveZero word)
                    (fst (gather backend historySearch formatTimestamp
                                 (config m) word ctx)))))).
Proof.
  intros Hf Hw Hs Hc. unfold getCompletions. rewrite Hc.
  destruct (gather _ _ _ _ _ _) as [completions events]. simpl.
  unfold rank. rewrite Hf, Hw. simpl.
  unfold applyFuzzySearch. rewrite Hs.
  unfold Fuzzy.search. rewrite (trim_nonEmpty _ Hw). simpl.
  now rewrite collect_candidates.
Qed.

(** C3, as the code has it: with fuzzy ranking enabled, a non-blank
    current word and the reference searcher, a cache miss returns only
    candidates that score above zero, each with its score attached,
    sorted by score descending, and at most [max_suggestions] (10 by
    default) of them; every candidate that scores above zero is returned
    when no more than that many do. When more do, the ones returned are
    the first of the ranking: the candidates that score above zero are
    the ones returned together with the ones left out, and none left out
    scores higher than one returned. *)
Theorem getCompletions_fuzzy_ranking (tRead tStore : Z) (word : string)
        (ctx : Context) (m : Manager) :
  JS.isTrue (fuzzy_search (config m)) = true ->
  JS.nonEmpty (JS.trim word) = true ->
  Fuzzy.getSearcher (fuzzy_backend (config m)) fzfAvailable = Fuzzy.JSFuzzySearcher ->
  getCached tRead (cacheKey word ctx) m = None ->
  let candidates :=
    fst (gather backend historySearch formatTimestamp (config m) word ctx) in
  let limit := JS.orZ (max_suggestions (config m)) 10 in
  let result :=
    fst (getCompletions backend historySearch localeCompare formatTimestamp
                        fzfAvailable fzfHelper tRead tStore word ctx m) in
  (forall r, In r result ->
             exists c, In c candidates /\ (0 < Spec.fuzzyScore word c)%Q
                       /\ r = Spec.scored word c)
  /\ StronglySorted (fun a b => (Spec.scoreOf b <= Spec.scoreOf a)%Q) result
  /\ (0 <= limit ->
      JS.len result
      = Z.min limit (JS.len (List.filter (Spec.aboveZero word) candidates)))
  /\ (JS.len (List.filter (Spec.aboveZero word) candidates) <= limit ->
      forall c, In c candidates -> (0 < Spec.fuzzyScore word c)%Q ->
                In (Spec.scored word c) result)
  /\ (exists rest,
        Permutation (map (Spec.scored word)
                         (List.filter (Spec.aboveZero word) candidates))
                    (result ++ rest)
        /\ forall r x, In r result -> In x rest ->
                       (Spec.scoreOf x <= Spec.scoreOf r)%Q).
Proof.
  intros Hf Hw Hs Hc candidates limit result.
  assert (E := getCompletions_fuzzy_value tRead tStore word ctx m Hf Hw Hs Hc).
  fold candidates limit result in E.
  set (kept := List.filter (Spec.aboveZero word) candidates) in *.
  set (sorted := JS.sort Fuzzy.byScore (map (Spec.resultOf word) kept)) in *.
  assert (Hperm : Permutation sorted (map (Spec.resultOf word) kept))
    by apply sort_Permutation.
  assert (Hlen : List.length sorted = List.length kept).
  { unfold sorted. now rewrite sort_length, length_map. }
  rewrite E. split; [|split; [|split; [|split]]].
  - intros r Hr. apply in_map_iff in Hr as (sr & <- & Hsr).
    destruct (sliceTo_firstn limit sorted) as [k Hk]. rewrite Hk in Hsr.
    apply firstn_In in Hsr. eapply Permutation_in in Hsr; [|exact Hperm].
    apply in_map_iff in Hsr as (c & <- & Hin).
    apply filter_In in Hin as [Hin Hpos].
    exists c. split; [exact Hin|]. split; [now apply aboveZero_iff | reflexivity].
  - destruct (sliceTo_firstn limit sorted) as [k ->].
    apply StronglySorted_map, StronglySorted_firstn.
    apply (sort_byScore_descending (map (Spec.resultOf word) kept)).
  - intros Hl. unfold JS.len, JS.sliceTo.
    assert (El : (limit <? 0) = false) by (apply Z.ltb_ge; lia). rewrite El.
    rewrite length_map, length_firstn, Hlen. lia.
  - intros Hl c Hin Hpos.
    assert (H0 : 0 <= limit) by (unfold JS.len in Hl; lia).
    unfold JS.sliceTo.
    assert (El : (limit <? 0) = false) by (apply Z.ltb_ge; lia). rewrite El.
    rewrite firstn_all2 by (unfold JS.len in Hl; lia).
    apply in_map_iff. exists (Spec.resultOf word c). split; [reflexivity|].
    eapply Permutation_in; [symmetry; exact Hperm|].
    apply in_map, filter_In. split; [exact Hin | now apply aboveZero_iff].
  - destruct (sliceTo_firstn limit sorted) as [k Hk]. rewrite Hk.
    exists (map withScore (skipn k sorted)). split.
    + rewrite <- map_app, firstn_skipn.
      assert (Em : map (Spec.scored word) kept
                   = map withScore (map (Spec.resultOf word) kept)).
      { rewrite map_map. apply map_ext. intros c. symmetry. apply withScore_resultOf. }
      rewrite Em. apply Permutation_map. symmetry. exact Hperm.
    + intros r x Hr Hx.
      apply in_map_iff in Hr as (sr & <- & Hsr).
      apply in_map_iff in Hx as (sx & <- & Hsx).
      exact (StronglySorted_firstn_skipn Spec.descending k sorted sr sx
               (sort_byScore_descending (map (Spec.resultOf word) kept)) Hsr Hsx).
Qed.

End RankingFacts.

(** ** The cache of [getCompletions] *)

Section CacheFacts.

Import CompletionManager.

Variable backend : string -> ShellContext -> list Candidate.
Variable historySearch : string -> list History.HistoryEntry.
Variable localeCompare : string -> string -> comparison.
Variable formatTimestamp : Z -> string.
Variable fzfAvailable : bool.
Variable fzfHelper : list SearchItem -> string -> list SearchItem.

Let gathered (cfg : Config) (word : string) (ctx : Context) :=
      gather backend historySearch formatTimestamp cfg word ctx.
Let ranked (cfg : Config) (word : string) (cs : list Candidate) :=
      rank localeCompare fzfAvailable fzfHelper cfg word cs.
Let call (tRead tStore : Z) (word : string) (ctx : Context) (m : Manager) :=
      getCompletions backend historySearch localeCompare formatTimestamp
                     fzfAvailable fzfHelper tRead tStore word ctx m.

Lemma getCompletions_hit (tRead tStore : Z) (word : string) (ctx : Context)
      (m : Manager) (e : CacheEntry) :
  cache m !! cacheKey word ctx = Some e ->
  tRead - timestamp e < cacheTimeout m ->
  call tRead tStore word ctx m = (value e, m).
Proof.
  intros He Hf. unfold call, getCompletions, getCached. rewrite He.
  assert (E : (tRead - timestamp e <? cacheTimeout m) = true) by now apply Z.ltb_lt.
  now rewrite E.
Qed.

Lemma getCompletions_miss (tRead tStore : Z) (word : string) (ctx : Context)
      (m : Manager) :
  getCached tRead (cacheKey word ctx) m = None ->
  let r := ranked (config m) word (fst (gathered (config m) word ctx)) in
  call tRead tStore word ctx m
  = (r, mkManager (config m)
                  (<[cacheKey word ctx := mkCacheEntry r tStore]> (cache m))
                  (cacheTimeout m)
                  (log m ++ snd (gathered (config m) word ctx))).
Proof.
  intros Hc r. unfold call, getCompletions. rewrite Hc.
  unfold r, ranked, gathered.
  destruct (gather _ _ _ _ _ _) as [completions events]. reflexivity.
Qed.



(** C10, as the code has it: the key joins the four fields with ":",
    so the request for the word "a:b" under the command "c" and the
    request for the word "a" under the command "b:c" (same position and
    directory) have the same key; after a miss on the first, a call for
    the second within the TTL returns the list computed for the first
    and calls no source. *)
Theorem cacheKey_collision (tRead tStore tRead' tStore' : Z) (pos : option Z)
        (dir : option string) (m : Manager) :
  let ctx1 := mkContext (Some "c"%string) pos dir in
  let ctx2 := mkContext (Some "b:c"%string) pos dir in
  getCached tRead (cacheKey "a:b" ctx1) m = None ->
  tRead' - tStore < cacheTimeout m ->
  ("a:b"%string, ctx1) <> ("a"%string, ctx2)
  /\ cacheKey "a:b" ctx1 = cacheKey "a" ctx2
  /\ call tRead' tStore' "a" ctx2 (snd (call tRead tStore "a:b" ctx1 m))
     = (ranked (config m) "a:b" (fst (gathered (config m) "a:b" ctx1)),
        snd (call tRead tStore "a:b" ctx1 m)).
Proof.
  intros ctx1 ctx2 Hc Hf.
  assert (Ek : cacheKey "a:b" ctx1 = cacheKey "a" ctx2) by reflexivity.
  split; [discriminate|]. split; [exact Ek|].
  rewrite (getCompletions_miss tRead tStore "a:b" ctx1 m Hc). simpl.
  set (r := ranked (config m) "a:b" (fst (gathered (config m) "a:b" ctx1))).
  apply (getCompletions_hit tRead' tStore' "a" ctx2 _ (mkCacheEntry r tStore)).
  - simpl. rewrite <- Ek. apply lookup_insert_eq.
  - exact Hf.
Qed.

End CacheFacts.

(** ** The statements on concrete requests *)

Section Instances.

Import CompletionManager Sample.



(** The number configured is compared with the clock as it is, in
    milliseconds: with a [cache_ttl] of 300 the entry stored at time 5 is
    served at time 304 and computed again at time 305. *)
Example cache_ttl_of_300 :
  let cfg := mkConfig None None None None None (Some 300) in
  let m1 := snd (getCompletionsWith echoBackend 0 5 "gi" argumentContext (new cfg)) in
  log (snd (getCompletionsWith echoBackend 304 304 "gi" argumentContext m1))
  = [BackendCall "gi"]
  /\ log (snd (getCompletionsWith echoBackend 305 305 "gi" argumentContext m1))
     = [BackendCall "gi"; BackendCall "gi"].
Proof. split; vm_compute; reflexivity. Qed.

(** One millisecond before the TTL the entry is served, at the TTL it is
    computed again. *)
Example cache_ttl_boundary :
  let m1 := snd (getCompletionsWith echoBackend 0 5 "gi" argumentContext (new defaults)) in
  log (snd (getCompletionsWith echoBackend 300004 300004 "gi" argumentContext m1))
  = [BackendCall "gi"]
  /\ log (snd (getCompletionsWith echoBackend 300005 300005 "gi" argumentContext m1))
     = [BackendCall "gi"; BackendCall "gi"].
Proof. split; vm_compute; reflexivity. Qed.

Lemma cacheKey_collision_witness :
  let ctx1 := mkContext (Some "c"%string) (Some 1) (Some "/home/u"%string) in
  let ctx2 := mkContext (Some "b:c"%string) (Some 1) (Some "/home/u"%string) in
  cacheKey "a:b" ctx1 = cacheKey "a" ctx2
  /\ fst (getCompletionsWith echoBackend 20 21 "a" ctx2
            (snd (getCompletionsWith echoBackend 0 5 "a:b" ctx1 (new defaults))))
     = [Spec.cand "a:b"].
Proof.
  intros ctx1 ctx2.
  destruct (cacheKey_collision echoBackend noHistory String.compare formatNothing
              false identityHelper 0 5 20 21 (Some 1) (Some "/home/u"%string)
              (new defaults) eq_refl eq_refl) as (_ & Hk & Hcall).
  split; [exact Hk|].
  unfold getCompletionsWith. fold ctx1 ctx2 in Hcall. rewrite Hcall. reflexivity.
Defined.

(** Without the cache the second request would have produced its own
    candidate. *)
Example cacheKey_collision_fresh_answer :
  fst (getCompletionsWith echoBackend 20 21 "a"
         (mkContext (Some "b:c"%string) (Some 1) (Some "/home/u"%string)) (new defaults))
  = [Spec.cand "a"].
Proof. vm_compute. reflexivity. Qed.

Lemma getCompletions_fuzzy_ranking_witness :
  let result :=
    fst (getCompletionsWith elevenBackend 0 5 "a1" argumentContext (new fuzzyConfig)) in
  StronglySorted (fun a b => (Spec.scoreOf b <= Spec.scoreOf a)%Q) result
  /\ map text result = ["a1"; "a10"]%string.
Proof.
  intros result.
  split; [|vm_compute; reflexivity].
  apply (getCompletions_fuzzy_ranking elevenBackend noHistory String.compare
           formatNothing false identityHelper 0 5 "a1" argumentContext
           (new fuzzyConfig) eq_refl eq_refl eq_refl eq_refl).
Defined.

(** C3 as stated fails: eleven candidates score 0.9 against "a", and the
    list returned holds the first ten; the eleventh scores above zero and
    is not returned. *)
Lemma getCompletions_fuzzy_drops_positive_candidate :
  In (Spec.cand "a10") (elevenBackend "a" (shellContext "a" argumentContext))
  /\ (0 < Spec.fuzzyScore "a" (Spec.cand "a10"))%Q
  /\ List.length
       (fst (getCompletionsWith elevenBackend 0 5 "a" argumentContext (new fuzzyConfig)))
     = 10%nat
  /\ ~ In (Spec.scored "a" (Spec.cand "a10"))
          (fst (getCompletionsWith elevenBackend 0 5 "a" argumentContext
                                   (new fuzzyConfig))).
Proof.
  split; [vm_compute; tauto|]. split; [vm_compute; reflexivity|].
  split; [vm_compute; reflexivity|].
  intros H. vm_compute in H.
  repeat (destruct H as [H|H]; [discriminate H|]). exact H.
Qed.

(** A TTL configured as 0 is replaced by the default of five minutes. *)
Example cacheTimeout_of_zero :
  cacheTimeout (new (mkConfig None None None None None (Some 0))) = 300000
  /\ cacheTimeout (new (mkConfig None None None None None (Some 1000))) = 1000.
Proof. split; reflexivity. Qed.

(** A word of white space only is not ranked: the candidates come back in
    the order of [sortCompletions], without scores. *)
Example getCompletions_blank_word_not_ranked :
  fst (getCompletionsWith elevenBackend 0 5 " " argumentContext (new fuzzyConfig))
  = sortCompletions String.compare (elevenBackend " " (shellContext " " argumentContext)).
Proof. vm_compute. reflexivity. Qed.

End Instances.

(** ** The cache key of the example in C10 *)

Section CacheKeyFacts.

Import CompletionManager.

(** A decimal digit is never a colon. *)
Lemma pretty_N_char_not_colon (x : N) : pretty_N_char x <> ":"%char.
Proof. unfold pretty_N_char. repeat case_match; discriminate. Qed.

Lemma pretty_N_go_head (x : N) (s : string) :
  (0 < x)%N \/ (exists c r, s = String c r /\ c <> ":"%char) ->
  exists c r, pretty_N_go x s = String c r /\ c <> ":"%char.
Proof.
  revert s. induction (N.lt_wf_0 x) as [x _ IH]. intros s Hs.
  destruct (N.eq_dec x 0%N) as [->|Hx].
  - rewrite pretty_N_go_0. destruct Hs as [Hs|Hs]; [lia | exact Hs].
  - assert (Hpos : (0 < x)%N) by lia.
    rewrite pretty_N_go_step by exact Hpos.
    apply IH; [now apply N.div_lt|].
    right. eexists _, _. split; [reflexivity | apply pretty_N_char_not_colon].
Qed.

(** The decimal form of an integer does not begin with a colon. *)
Lemma pretty_Z_head (z : Z) :
  exists c r, pretty z = String c r /\ c <> ":"%char.
Proof.
  destruct z as [|p|p].
  - exists "0"%char, ""%string. split; [reflexivity | discriminate].
  - change (pretty (Z.pos p)) with (pretty_N_go (N.pos p) "").
    apply pretty_N_go_head. left. lia.
  - change (pretty (Z.neg p)) with (String "-" (pretty_N_go (N.pos p) "")).
    eexists _, _. split; [reflexivity | discriminate].
Qed.

Lemma orS_falsy (x : option string) (d : string) :
  JS.truthyS x = false -> JS.orS x d = d.
Proof.
  destruct x as [s|]; simpl; [|reflexivity].
  destruct (String.eqb s ""); [reflexivity | discriminate].
Qed.

(** C10 as stated fails on its example: the word "a:b" with an empty
    command and the word "a" with the command "b" never share a key, at
    any position and directory (the first key has "::" after "a:b", the
    second a single ":"). *)
Lemma cacheKey_example_keys_differ :
  ~ (exists (cmd : option string) (pos : option Z) (dir : option string),
        JS.truthyS cmd = false
        /\ cacheKey "a:b" (mkContext cmd pos dir)
           = cacheKey "a" (mkContext (Some "b"%string) pos dir)).
Proof.
  intros (cmd & pos & dir & Hcmd & Hk).
  unfold cacheKey in Hk. simpl in Hk. rewrite (orS_falsy _ _ Hcmd) in Hk.
  destruct (pretty_Z_head (JS.orZ pos 0)) as (c & r & Hp & Hc).
  rewrite Hp in Hk. rewrite !append_cons, !append_nil in Hk.
  injection Hk as Hk _. apply Hc. now rewrite Hk.
Qed.

Example cacheKey_example_values :
  cacheKey "a:b" (mkContext None (Some 0) (Some "/"%string)) = "a:b::0:/"%string
  /\ cacheKey "a" (mkContext (Some "b"%string) (Some 0) (Some "/"%string))
     = "a:b:0:/"%string.
Proof. split; vm_compute; reflexivity. Qed.

End CacheKeyFacts.

(** * Further properties *)

(** ** The score and the spans of [calculateScore] *)

Section ScoreFacts.

Import Fuzzy.
Open Scope Q_scope.

Lemma sameChar_eq (a b : option ascii) : sameChar a b = true -> a = b.
Proof.
  destruct a as [x|], b as [y|]; simpl; try discriminate; [|reflexivity].
  intros H. apply Ascii.eqb_eq in H. now subst.
Qed.

Lemma spansWithin_weaken (lo n n' : nat) (l : list (nat * nat)) :
  (n <= n')%nat -> Facts.spansWithin lo n l -> Facts.spansWithin lo n' l.
Proof.
  revert lo; induction l as [|[s e] l IH]; intros lo Hn H; simpl in *; [exact I|].
  destruct H as (H1 & H2 & H3 & H4).
  split; [lia|]. split; [lia|]. split; [lia|]. now apply IH.
Qed.

Lemma spansWithin_snoc (lo b n s e : nat) (l : list (nat * nat)) :
  (lo <= b)%nat -> (b <= s)%nat -> (s <= e)%nat -> (e <= n)%nat ->
  Facts.spansWithin lo b l -> Facts.spansWithin lo n (l ++ [(s, e)]).
Proof.
  revert lo; induction l as [|[s0 e0] l IH]; intros lo Hlo Hb Hs He H; simpl in *.
  - split; [lia|]. split; [lia|]. split; [lia | exact I].
  - destruct H as (H1 & H2 & H3 & H4).
    split; [lia|]. split; [lia|]. split; [lia|].
    apply IH; try lia. exact H4.
Qed.

Lemma loopInv_init (q t : string) : Facts.loopInv q t loopInit.
Proof.
  unfold Facts.loopInv; simpl.
  split; [lia|]. split; [lia|]. split; [lia|]. split; [|split; [|exact I]].
  - intros _ i Hi. lia.
  - intros m Hm. discriminate.
Qed.

Lemma loopInv_body (q t : string) (st : loopState) :
  loopCond q t st = true -> Facts.loopInv q t st -> Facts.loopInv q t (loopBody q t st).
Proof.
  unfold loopCond. intros Hc (H1 & H2 & H3 & H4 & H5 & H6).
  apply andb_true_iff in Hc as [Hq Ht].
  apply Nat.ltb_lt in Hq, Ht.
  unfold Facts.loopInv, loopBody.
  destruct (sameChar _ _) eqn:Es; simpl.
  - apply sameChar_eq in Es.
    split; [lia|]. split; [lia|]. split; [lia|]. split; [|split].
    + intros E i Hi. assert (E' : queryIndex st = targetIndex st) by lia.
      destruct (Nat.eq_dec i (queryIndex st)) as [->|Hne].
      * rewrite Es at 1. now rewrite E'.
      * apply H4; [exact E' | lia].
    + intros m Hm. destruct (matchStart st) as [m0|] eqn:Em.
      * injection Hm as <-. specialize (H5 m0 eq_refl). lia.
      * injection Hm as <-. lia.
    + destruct (matchStart st) as [m0|] eqn:Em; exact H6.
  - split; [lia|]. split; [lia|]. split; [lia|]. split; [|split].
    + intros E. lia.
    + intros m Hm. discriminate.
    + destruct (matchStart st) as [m0|] eqn:Em.
      * specialize (H5 m0 eq_refl).
        eapply spansWithin_snoc; [| | | |exact H6]; lia.
      * eapply spansWithin_weaken; [|exact H6]. lia.
Qed.

Lemma loopInv_loop (fuel : nat) (q t : string) (st : loopState) :
  Facts.loopInv q t st -> Facts.loopInv q t (loop fuel q t st).
Proof.
  revert st; induction fuel as [|fuel IH]; intros st H; simpl; [exact H|].
  destruct (loopCond q t st) eqn:Ec; [|exact H].
  apply IH, loopInv_body; assumption.
Qed.

Lemma get_prefix_startsWith (q t : string) :
  (String.length q <= String.length t)%nat ->
  (forall i, (i < String.length q)%nat -> String.get i q = String.get i t) ->
  JS.startsWith t q = true.
Proof.
  revert t; induction q as [|a q IH]; intros t Hl Hg; [apply startsWith_empty|].
  destruct t as [|b t]; simpl in Hl; [lia|].
  assert (H0 : Some a = Some b) by (apply (Hg 0%nat); simpl; lia).
  injection H0 as ->. simpl. rewrite Ascii.eqb_refl. simpl.
  apply IH; [lia|]. intros i Hi. apply (Hg (S i)). simpl. lia.
Qed.

Lemma indexOf_unfold (t q : string) :
  JS.indexOf t q
  = if JS.startsWith t q then Some 0%nat
    else match t with
         | EmptyString => None
         | String _ t' => option_map S (JS.indexOf t' q)
         end.
Proof. destruct t; reflexivity. Qed.

Lemma startsWith_length (t q : string) :
  JS.startsWith t q = true -> (String.length q <= String.length t)%nat.
Proof.
  revert t; induction q as [|a q IH]; intros t E; simpl; [lia|].
  destruct t as [|b t]; [discriminate|]. simpl in E.
  apply andb_true_iff in E as [_ E]. apply IH in E. simpl. lia.
Qed.

Lemma indexOf_bound (t q : string) (i : nat) :
  JS.indexOf t q = Some i -> (i + String.length q <= String.length t)%nat.
Proof.
  revert i; induction t as [|c t IH]; intros i; rewrite indexOf_unfold.
  - destruct (JS.startsWith "" q) eqn:E; [|discriminate].
    intros [= <-]. apply startsWith_length in E. lia.
  - destruct (JS.startsWith (String c t) q) eqn:E.
    + intros [= <-]. apply startsWith_length in E. lia.
    + destruct (JS.indexOf t q) as [j|]; simpl; [|discriminate].
      intros [= <-]. specialize (IH j eq_refl). simpl. lia.
Qed.

Lemma loop_success (q t : string) :
  let st := loop (String.length t) q t loopInit in
  (String.length q <= queryIndex st)%nat ->
  (String.length q <= String.length t)%nat
  /\ (String.length q = String.length t -> JS.startsWith t q = true).
Proof.
  intros st Hq.
  destruct (loopInv_loop (String.length t) q t loopInit (loopInv_init q t))
    as (H1 & H2 & H3 & H4 & _).
  fold st in H1, H2, H3, H4.
  split; [lia|]. intros E.
  apply get_prefix_startsWith; [lia|].
  assert (Eq : queryIndex st = String.length q) by lia.
  intros i Hi. apply H4; lia.
Qed.

(** The pieces of the final score in the subsequence branch. *)
Lemma penalty_bounds (ql tl : Q) :
  1 <= ql -> ql <= tl ->
  4 # 5 <= 1 - (tl - ql) / tl * (2 # 10) <= 1
  /\ (ql < tl -> 1 - (tl - ql) / tl * (2 # 10) < 1).
Proof.
  intros H1 H2.
  assert (Hpos : 0 < tl) by lra.
  assert (Hx1 : (tl - ql) / tl <= 1) by (apply Qle_shift_div_r; lra).
  assert (Hx0 : 0 <= (tl - ql) / tl) by (apply Qle_shift_div_l; lra).
  split; [split; lra|]. intros Hlt.
  assert (Hx : 0 < (tl - ql) / tl) by (apply Qlt_shift_div_l; lra).
  lra.
Qed.

Lemma normalized_bounds (total ql : Q) :
  0 <= total -> 1 <= ql -> 0 <= Qmin (total / (ql * 3)) 1 <= 1.
Proof.
  intros H0 H1. split; [|apply Q.le_min_r].
  apply Q.min_glb; [|lra]. apply Qle_shift_div_l; lra.
Qed.

(** The score of [calculateScore] is always between 0 and 1. *)
Theorem calculateScore_range (query target : string) (ci : bool) :
  0 <= score (calculateScore query target ci) <= 1.
Proof.
  unfold calculateScore.
  set (q := if ci then JS.toLowerCase query else query).
  set (t := if ci then JS.toLowerCase target else target).
  destruct (String.eqb q t); [simpl; lra|].
  destruct (JS.startsWith t q) eqn:Es; [simpl; lra|].
  destruct (JS.indexOf t q); [simpl; lra|].
  set (st := loop (String.length t) q t loopInit).
  destruct (queryIndex st <? String.length q)%nat eqn:El; [simpl; lra|].
  simpl. apply Nat.ltb_ge in El.
  destruct (loop_success q t El) as [Hle _].
  assert (Hq : (1 <= String.length q)%nat).
  { destruct q; [rewrite startsWith_empty in Es; discriminate | simpl; lia]. }
  assert (Ht : (3 # 2) * ofNat (queryIndex st) <= total st).
  { apply loop_total. unfold Qle; simpl; lia. }
  assert (H0 := ofNat_nonneg (queryIndex st)).
  assert (Hq1 := ofNat_le _ _ Hq). change (ofNat 1) with 1 in Hq1.
  assert (Hqt := ofNat_le _ _ Hle).
  destruct (penalty_bounds _ _ Hq1 Hqt) as [[Hp1 Hp2] _].
  destruct (normalized_bounds (total st) (ofNat (String.length q))) as [Hn1 Hn2];
    [lra | exact Hq1 |].
  set (n := Qmin _ 1) in *. set (p := 1 - _) in *. split; nra.
Qed.

(** The score is 1 exactly when the two strings are equal (after case
    folding when [caseInsensitive] is set): no other match reaches 1. *)
Theorem calculateScore_one_iff (query target : string) (ci : bool) :
  score (calculateScore query target ci) == 1
  <-> (if ci then JS.toLowerCase query else query)
      = (if ci then JS.toLowerCase target else target).
Proof.
  unfold calculateScore.
  set (q := if ci then JS.toLowerCase query else query).
  set (t := if ci then JS.toLowerCase target else target).
  destruct (String.eqb_spec q t) as [E|E]; [simpl; split; [intros _; exact E | reflexivity]|].
  assert (Hno : forall x : Q, x < 1 -> x == 1 <-> q = t).
  { intros x Hx. split; [intros H; lra | intros H; contradiction]. }
  destruct (JS.startsWith t q) eqn:Es; [apply Hno; simpl; lra|].
  destruct (JS.indexOf t q); [apply Hno; simpl; lra|].
  set (st := loop (String.length t) q t loopInit).
  destruct (queryIndex st <? String.length q)%nat eqn:El; [apply Hno; simpl; lra|].
  apply Hno. simpl. apply Nat.ltb_ge in El.
  destruct (loop_success q t El) as [Hle Heq].
  assert (Hlt : (String.length q < String.length t)%nat).
  { destruct (Nat.eq_dec (String.length q) (String.length t)) as [E'|E']; [|lia].
    rewrite (Heq E') in Es. discriminate. }
  assert (Hq : (1 <= String.length q)%nat).
  { destruct q; [rewrite startsWith_empty in Es; discriminate | simpl; lia]. }
  assert (Ht : (3 # 2) * ofNat (queryIndex st) <= total st).
  { apply loop_total. unfold Qle; simpl; lia. }
  assert (H0 := ofNat_nonneg (queryIndex st)).
  assert (Hq1 := ofNat_le _ _ Hq). change (ofNat 1) with 1 in Hq1.
  assert (Hqt := ofNat_le _ _ Hle).
  assert (Hqt' : ofNat (String.length q) < ofNat (String.length t)).
  { unfold ofNat. rewrite <- Zlt_Qlt. lia. }
  destruct (penalty_bounds _ _ Hq1 Hqt) as [[Hp1 Hp2] Hp3]. specialize (Hp3 Hqt').
  destruct (normalized_bounds (total st) (ofNat (String.length q))) as [Hn1 Hn2];
    [lra | exact Hq1 |].
  set (n := Qmin _ 1) in *. set (p := 1 - _) in *. nra.
Qed.

(** The spans are positions of the folded target: they lie within the
    target itself as soon as folding keeps its length. *)
Lemma matches_spansWithin (query target : string) (ci : bool) :
  String.length (if ci then JS.toLowerCase target else target) = String.length target ->
  Facts.spansWithin 0 (String.length target) (matches (calculateScore query target ci)).
Proof.
  intros Hlen. unfold calculateScore.
  set (q := if ci then JS.toLowerCase query else query).
  set (t := if ci then JS.toLowerCase target else target) in *.
  destruct (String.eqb q t); [simpl; lia|].
  destruct (JS.startsWith t q) eqn:Es.
  { simpl. apply startsWith_length in Es. lia. }
  destruct (JS.indexOf t q) as [i|] eqn:Ei.
  { simpl. apply indexOf_bound in Ei. lia. }
  set (st := loop (String.length t) q t loopInit).
  destruct (queryIndex st <? String.length q)%nat; [exact I|].
  simpl.
  destruct (loopInv_loop (String.length t) q t loopInit (loopInv_init q t))
    as (_ & H2 & _ & _ & H5 & H6).
  fold st in H2, H5, H6. rewrite <- Hlen.
  destruct (matchStart st) as [m|].
  - specialize (H5 m eq_refl).
    eapply spansWithin_snoc; [| | | |exact H6]; lia.
  - eapply spansWithin_weaken; [|exact H6]. lia.
Qed.

End ScoreFacts.

(** ** Highlighting the matched spans *)

Section HighlightFacts.

Import Highlight.

Lemma length_append (a b : string) :
  String.length (a +:+ b) = (String.length a + String.length b)%nat.
Proof.
  induction a as [|c a IH]; [reflexivity|].
  rewrite append_cons. simpl. now rewrite IH.
Qed.

Lemma substring_empty (a m : nat) : String.substring a m "" = ""%string.
Proof. destruct a, m; reflexivity. Qed.

Lemma length_substring (a m : nat) (s : string) :
  String.length (String.substring a m s) = Nat.min m (String.length s - a).
Proof.
  revert a m; induction s as [|c s IH]; intros a m.
  - rewrite substring_empty. simpl. lia.
  - destruct a as [|a]; simpl.
    + destruct m as [|m]; simpl; [reflexivity|]. rewrite IH. simpl. lia.
    + apply IH.
Qed.

Lemma substring_all (s : string) : String.substring 0 (String.length s) s = s.
Proof. induction s as [|c s IH]; simpl; [reflexivity | now rewrite IH]. Qed.

(** Two adjacent slices make one. *)
Lemma substring_adjacent (a m k : nat) (s : string) :
  String.substring a m s +:+ String.substring (a + m) k s
  = String.substring a (m + k) s.
Proof.
  revert a m; induction s as [|c s IH]; intros a m.
  - now rewrite !substring_empty.
  - destruct a as [|a].
    + destruct m as [|m]; [reflexivity|].
      simpl. rewrite append_cons. f_equal. apply (IH 0%nat m).
    + simpl. apply IH.
Qed.

Lemma slice_adjacent (a b c : nat) (s : string) :
  (a <= b)%nat -> (b <= c)%nat -> slice a b s +:+ slice b c s = slice a c s.
Proof.
  intros H1 H2. unfold slice.
  replace b with (a + (b - a))%nat at 2 by lia.
  rewrite substring_adjacent. f_equal. lia.
Qed.

Lemma slice_sliceFrom (a b : nat) (s : string) :
  (a <= b)%nat -> (b <= String.length s)%nat ->
  slice a b s +:+ sliceFrom b s = sliceFrom a s.
Proof.
  intros H1 H2. unfold slice, sliceFrom.
  replace b with (a + (b - a))%nat at 2 by lia.
  rewrite substring_adjacent. f_equal. lia.
Qed.

(** With empty markers the loop rebuilds the text from [lastEnd] on. *)
Lemma highlightLoop_no_markers (text : string) (spans : list (nat * nat))
      (result : string) (lo : nat) :
  Facts.spansWithin lo (String.length text) spans ->
  highlightLoop text "" "" spans result lo = result +:+ sliceFrom lo text.
Proof.
  revert result lo; induction spans as [|[s e] spans IH]; intros result lo H; simpl.
  - reflexivity.
  - destruct H as (H1 & H2 & H3 & H4).
    rewrite IH by exact H4.
    rewrite append_nil, append_empty_r, !append_assoc.
    rewrite slice_sliceFrom by lia. now rewrite slice_sliceFrom by lia.
Qed.

Lemma highlightLoop_length (text hs he : string) (spans : list (nat * nat))
      (result : string) (lo : nat) :
  Facts.spansWithin lo (String.length text) spans ->
  String.length (highlightLoop text hs he spans result lo)
  = (String.length result + (String.length text - lo)
     + List.length spans * (String.length hs + String.length he))%nat.
Proof.
  revert result lo; induction spans as [|[s e] spans IH]; intros result lo H; simpl.
  - unfold sliceFrom. rewrite length_append, length_substring. lia.
  - destruct H as (H1 & H2 & H3 & H4).
    rewrite IH by exact H4. unfold slice.
    rewrite !length_append, !length_substring. lia.
Qed.

(** Highlighting well-formed spans only inserts the markers: with empty
    markers the text comes back unchanged, and in general the result is
    longer than the text by one pair of markers per span. *)
Lemma highlightMatches_inserts_markers (text hs he : string)
      (spans : list (nat * nat)) :
  Facts.spansWithin 0 (String.length text) spans ->
  highlightMatches text spans "" "" = text
  /\ String.length (highlightMatches text spans hs he)
     = (String.length text
        + List.length spans * (String.length hs + String.length he))%nat.
Proof.
  intros H. unfold highlightMatches. destruct spans as [|sp spans].
  - split; [reflexivity | simpl; lia].
  - split.
    + rewrite highlightLoop_no_markers by exact H.
      rewrite append_nil. unfold sliceFrom. rewrite Nat.sub_0_r. apply substring_all.
    + rewrite highlightLoop_length by exact H. simpl. lia.
Qed.

(** When folding the case keeps the length of the target (as it does
    for every target of ASCII characters), or the matching is
    case-sensitive, the spans that [calculateScore] returns lie within the
    target, in increasing order and without overlap, so they can be
    highlighted in it: the markers are inserted and nothing of the target
    is lost or repeated. *)
Theorem highlightMatches_of_calculateScore (query target hs he : string) (ci : bool) :
  String.length (if ci then JS.toLowerCase target else target) = String.length target ->
  let spans := Fuzzy.matches (Fuzzy.calculateScore query target ci) in
  Facts.spansWithin 0 (String.length target) spans
  /\ highlightMatches target spans "" "" = target
  /\ String.length (highlightMatches target spans hs he)
     = (String.length target
        + List.length spans * (String.length hs + String.length he))%nat.
Proof.
  intros Hlen spans. split; [now apply matches_spansWithin|].
  now apply highlightMatches_inserts_markers, matches_spansWithin.
Qed.

Lemma highlightMatches_of_calculateScore_witness :
  String.length
    (highlightMatches "Git-Commit"
       (Fuzzy.matches (Fuzzy.calculateScore "gc" "Git-Commit" true)) "[" "]")
  = 14%nat.
Proof.
  destruct (highlightMatches_of_calculateScore "gc" "Git-Commit" "[" "]" true eq_refl)
    as (_ & _ & H).
  rewrite H. reflexivity.
Defined.

Example highlightMatches_example :
  highlightMatches "git-commit"
                   (Fuzzy.matches (Fuzzy.calculateScore "gc" "git-commit" true)) "[" "]"
  = "[g]it-[c]ommit"%string.
Proof. reflexivity. Qed.

End HighlightFacts.

(** ** [JSFuzzySearcher.search] and [FzfSearcher.search] *)

Section SearcherFacts.

Import Fuzzy.
Local Open Scope Z_scope.
Context {A : Type} (target : A -> string).

Lemma sort_byScore_sorted (l : list (SearchResult A)) :
  StronglySorted (fun a b => (resScore b <= resScore a)%Q) (JS.sort byScore l).
Proof.
  apply sort_sorted; unfold byScore.
  - intros x y z Hxy Hyz. eapply Qle_trans; eassumption.
  - intros x y H. apply Qgt_alt in H. lra.
  - intros x y H. apply Qle_alt in H. lra.
Qed.

Lemma collect_In (query : string) (threshold : Q) (ci : bool) (items : list A)
      (r : SearchResult A) :
  In r (collect target query threshold ci items) ->
  In (item r) items
  /\ resScore r = score (calculateScore query (target (item r)) ci)
  /\ resMatches r = matches (calculateScore query (target (item r)) ci)
  /\ (threshold <= resScore r)%Q.
Proof.
  induction items as [|it items IH]; simpl; [contradiction|].
  destruct (Qle_bool threshold (score (calculateScore query (target it) ci))) eqn:E.
  - intros [<-|H].
    + simpl. apply Qle_bool_iff in E. auto.
    + destruct (IH H) as (H1 & H2). auto.
  - intros H. destruct (IH H) as (H1 & H2). auto.
Qed.

Lemma length_sliceTo {B} (limit : Z) (l : list B) :
  0 <= limit -> JS.len (JS.sliceTo limit l) = Z.min limit (JS.len l).
Proof.
  intros H. unfold JS.sliceTo, JS.len.
  assert (E : (limit <? 0) = false) by (apply Z.ltb_ge; lia).
  rewrite E, length_firstn. lia.
Qed.

(** [search] never returns more than [limit] results. For a non-empty
    query each result is one of the items with its own score and spans,
    the score is at least the threshold, and the results are in descending
    order of score; for the empty query the first [limit] items come back
    unranked, all with score 1. *)
Theorem search_results (items : list A) (query : string) (limit : Z)
        (threshold : Q) (ci : bool) :
  0 <= limit ->
  let results := search target items query limit threshold ci in
  JS.len results <= limit
  /\ (query <> ""%string ->
      StronglySorted (fun a b => (resScore b <= resScore a)%Q) results
      /\ forall r, In r results ->
           In (item r) items
           /\ resScore r = score (calculateScore query (target (item r)) ci)
           /\ resMatches r = matches (calculateScore query (target (item r)) ci)
           /\ (threshold <= resScore r)%Q)
  /\ (query = ""%string ->
      results = map (fun it => mkResult it 1 []) (firstn (Z.to_nat limit) items)).
Proof.
  intros Hl results. unfold results, search.
  assert (El : (limit <? 0) = false) by (apply Z.ltb_ge; lia).
  destruct (String.eqb_spec query "") as [->|Hq].
  - simpl. split; [|split; [intros H; now elim H|]].
    + unfold JS.len. rewrite length_map.
      pose proof (length_sliceTo limit items Hl) as H. unfold JS.len in H. lia.
    + intros _. unfold JS.sliceTo. now rewrite El.
  - assert (En : JS.nonEmpty query = true).
    { unfold JS.nonEmpty. apply negb_true_iff. now apply String.eqb_neq. }
    rewrite En. simpl.
    split; [rewrite length_sliceTo by exact Hl; lia|].
    split; [|intros H; contradiction].
    intros _. unfold JS.sliceTo. rewrite El. split.
    + apply StronglySorted_firstn, sort_byScore_sorted.
    + intros r Hr. apply firstn_In in Hr.
      eapply Permutation_in in Hr; [|apply sort_Permutation].
      eapply collect_In, Hr.
Qed.



End SearcherFacts.

Lemma search_results_witness :
  JS.len (Fuzzy.search (fun s : string => s) ["config"; "get"; "log"]%string "g" 2 0 true)
  <= 2.
Proof.
  apply (search_results (fun s : string => s) ["config"; "get"; "log"]%string
                        "g" 2 0 true).
  lia.
Defined.

(** ** Edit distance *)

Section LevenshteinFacts.

Import Fuzzy.
Local Open Scope nat_scope.

Lemma levR_nil_r (l : list ascii) : Facts.levR l [] = List.length l.
Proof. destruct l; reflexivity. Qed.

Lemma levR_cons (a b : ascii) (l1 l2 : list ascii) :
  Facts.levR (a :: l1) (b :: l2)
  = if Ascii.eqb a b then Facts.levR l1 l2
    else 1 + Nat.min (Nat.min (Facts.levR l1 (b :: l2)) (Facts.levR (a :: l1) l2))
                     (Facts.levR l1 l2).
Proof. reflexivity. Qed.

Lemma rowOf_unfold (p1 p2 : list ascii) (s2 : string) :
  Facts.rowOf p1 p2 s2
  = Facts.levR p1 p2 :: match s2 with
                        | EmptyString => []
                        | String b s2' => Facts.rowOf p1 (b :: p2) s2'
                        end.
Proof. destruct s2; reflexivity. Qed.

(** One row of the table from the row above. *)
Lemma nextRow_rowOf (c1 : ascii) (p1 p2 : list ascii) (s2 : string) :
  nextRow c1 s2 (Facts.rowOf p1 p2 s2) (Facts.levR (c1 :: p1) p2)
  = List.tl (Facts.rowOf (c1 :: p1) p2 s2).
Proof.
  revert p2; induction s2 as [|c2 s2 IH]; intros p2; [reflexivity|].
  rewrite (rowOf_unfold p1 p2), (rowOf_unfold p1 (c2 :: p2) s2).
  rewrite (rowOf_unfold (c1 :: p1) p2). cbn [List.tl nextRow].
  rewrite <- (rowOf_unfold p1 (c2 :: p2) s2).
  rewrite <- levR_cons. rewrite IH.
  rewrite (rowOf_unfold (c1 :: p1) (c2 :: p2) s2). reflexivity.
Qed.

Lemma rowsFrom_rowOf (s1 s2 : string) (p1 : list ascii) :
  rowsFrom (List.length p1) s1 s2 (Facts.rowOf p1 [] s2)
  = Facts.rowOf (rev (list_ascii_of_string s1) ++ p1) [] s2.
Proof.
  revert p1; induction s1 as [|c1 s1 IH]; intros p1; [reflexivity|].
  cbn [rowsFrom list_ascii_of_string rev].
  assert (Hrow : S (List.length p1)
                 :: nextRow c1 s2 (Facts.rowOf p1 [] s2) (S (List.length p1))
                 = Facts.rowOf (c1 :: p1) [] s2).
  { change (S (List.length p1)) with (Facts.levR (c1 :: p1) []).
    rewrite nextRow_rowOf. now rewrite (rowOf_unfold (c1 :: p1) [] s2). }
  rewrite Hrow. change (S (List.length p1)) with (List.length (c1 :: p1)).
  rewrite IH. now rewrite <- app_assoc.
Qed.

Lemma rowOf_first (p2 : list ascii) (s2 : string) :
  Facts.rowOf [] p2 s2 = seq (List.length p2) (S (String.length s2)).
Proof.
  revert p2; induction s2 as [|b s2 IH]; intros p2; [reflexivity|].
  rewrite rowOf_unfold, IH. reflexivity.
Qed.

Lemma rowOf_last (p1 p2 : list ascii) (s2 : string) :
  List.last (Facts.rowOf p1 p2 s2) 0
  = Facts.levR p1 (rev (list_ascii_of_string s2) ++ p2).
Proof.
  revert p2; induction s2 as [|b s2 IH]; intros p2; [reflexivity|].
  rewrite rowOf_unfold. cbn [list_ascii_of_string rev].
  rewrite <- app_assoc. simpl app. rewrite <- IH.
  rewrite (rowOf_unfold p1 (b :: p2) s2). reflexivity.
Qed.

(** The table that [levenshteinDistance] fills computes the edit-distance
    recurrence. *)
Lemma levenshteinDistance_levR (s1 s2 : string) :
  levenshteinDistance s1 s2
  = Facts.levR (rev (list_ascii_of_string s1)) (rev (list_ascii_of_string s2)).
Proof.
  unfold levenshteinDistance.
  change (seq 0 (S (String.length s2)))
    with (seq (@List.length ascii []) (S (String.length s2))).
  rewrite <- (rowOf_first [] s2).
  change 0 with (@List.length ascii []) at 1.
  rewrite (rowsFrom_rowOf s1 s2 []), rowOf_last, !app_nil_r. reflexivity.
Qed.

Lemma levR_bounds (l1 l2 : list ascii) :
  List.length l1 - List.length l2 <= Facts.levR l1 l2
  /\ List.length l2 - List.length l1 <= Facts.levR l1 l2
  /\ Facts.levR l1 l2 <= Nat.max (List.length l1) (List.length l2).
Proof.
  revert l2; induction l1 as [|a l1 IH1]; intros l2; [simpl; lia|].
  induction l2 as [|b l2 IH2]; [rewrite levR_nil_r; simpl; lia|].
  rewrite levR_cons.
  pose proof (IH1 l2) as H1. pose proof (IH1 (b :: l2)) as H2.
  simpl List.length in *.
  destruct (Ascii.eqb a b); lia.
Qed.

Lemma levR_sym (l1 l2 : list ascii) : Facts.levR l1 l2 = Facts.levR l2 l1.
Proof.
  revert l2; induction l1 as [|a l1 IH1]; intros l2;
    [now rewrite levR_nil_r|].
  induction l2 as [|b l2 IH2]; [now rewrite levR_nil_r|].
  rewrite !levR_cons, (Ascii.eqb_sym b a).
  rewrite <- (IH1 l2), <- (IH1 (b :: l2)), IH2.
  destruct (Ascii.eqb a b); lia.
Qed.

Lemma levR_zero_iff (l1 l2 : list ascii) : Facts.levR l1 l2 = 0 <-> l1 = l2.
Proof.
  revert l2; induction l1 as [|a l1 IH1]; intros l2.
  - simpl. destruct l2; simpl; split; intros H; try reflexivity; discriminate.
  - destruct l2 as [|b l2]; [rewrite levR_nil_r; simpl; split; intros H; discriminate|].
    rewrite levR_cons. destruct (Ascii.eqb_spec a b) as [->|Hne].
    + rewrite IH1. split; [intros -> | intros [= ->]]; reflexivity.
    + split; [intros H; lia | intros [= H _]; contradiction].
Qed.

Lemma length_chars (s : string) :
  List.length (rev (list_ascii_of_string s)) = String.length s.
Proof.
  rewrite length_rev. induction s as [|c s IH]; simpl; [reflexivity | now rewrite IH].
Qed.

Lemma distance_bounds (s1 s2 : string) :
  String.length s1 - String.length s2 <= levenshteinDistance s1 s2
  /\ String.length s2 - String.length s1 <= levenshteinDistance s1 s2
  /\ levenshteinDistance s1 s2 <= Nat.max (String.length s1) (String.length s2).
Proof.
  rewrite levenshteinDistance_levR, <- (length_chars s1), <- (length_chars s2).
  apply levR_bounds.
Qed.

Lemma distance_zero (s1 s2 : string) :
  levenshteinDistance s1 s2 = 0 <-> s1 = s2.
Proof.
  rewrite levenshteinDistance_levR, levR_zero_iff. split; [|now intros ->].
  intros H. apply (f_equal (@rev ascii)) in H. rewrite !rev_involutive in H.
  apply (f_equal string_of_list_ascii) in H.
  now rewrite !string_of_list_ascii_of_string in H.
Qed.

(** The edit distance does not depend on the order of its arguments, is
    0 exactly between equal strings, and lies between the difference of
    the two lengths and the longer length; in particular the distance to
    the empty string is the length of the other string. *)
Theorem levenshteinDistance_sym_zero_bounds (s1 s2 : string) :
  levenshteinDistance s1 s2 = levenshteinDistance s2 s1
  /\ (levenshteinDistance s1 s2 = 0 <-> s1 = s2)
  /\ String.length s1 - String.length s2 <= levenshteinDistance s1 s2
  /\ String.length s2 - String.length s1 <= levenshteinDistance s1 s2
  /\ levenshteinDistance s1 s2 <= Nat.max (String.length s1) (String.length s2)
  /\ levenshteinDistance s1 "" = String.length s1.
Proof.
  split; [rewrite !levenshteinDistance_levR; apply levR_sym|].
  split; [apply distance_zero|].
  destruct (distance_bounds s1 s2) as (H1 & H2 & H3).
  destruct (distance_bounds s1 "") as (H4 & _ & H5).
  simpl String.length in *. repeat (split; [lia|]). lia.
Qed.

(** The edit-distance score is a number between 0 and 1 unless both
    strings are empty (where the source divides 0 by 0); it is 1 on equal
    strings and 0 beyond [maxDistance]. *)
Theorem levenshteinScore_range (query target : string) (ci : bool) (maxDistance : nat) :
  let q := if ci then JS.toLowerCase query else query in
  let t := if ci then JS.toLowerCase target else target in
  match levenshteinScore query target ci maxDistance with
  | Some x => (0 <= x <= 1)%Q
              /\ (q = t -> (x == 1)%Q)
              /\ (maxDistance < levenshteinDistance q t -> x = 0%Q)
  | None => q = ""%string /\ t = ""%string
  end.
Proof.
  intros q t. unfold levenshteinScore. fold q t.
  destruct (distance_bounds q t) as (_ & _ & Hu).
  destruct (maxDistance <? levenshteinDistance q t) eqn:Em.
  - split; [split; lra|]. split; [|reflexivity].
    intros E. apply distance_zero in E.
    apply Nat.ltb_lt in Em. lia.
  - apply Nat.ltb_ge in Em.
    destruct (Nat.max (String.length q) (String.length t) =? 0) eqn:E0.
    + apply Nat.eqb_eq in E0.
      split; [destruct q | destruct t]; simpl in E0; try reflexivity; lia.
    + apply Nat.eqb_neq in E0.
      set (n := Nat.max (String.length q) (String.length t)) in *.
      set (d := levenshteinDistance q t) in *.
      assert (Hn : (0 < ofNat n)%Q).
      { unfold ofNat. change 0%Q with (inject_Z 0). rewrite <- Zlt_Qlt. lia. }
      assert (Hd := ofNat_nonneg d). assert (Hdn := ofNat_le _ _ Hu).
      assert (H0 : (0 <= ofNat d / ofNat n)%Q) by (apply Qle_shift_div_l; lra).
      assert (H1 : (ofNat d / ofNat n <= 1)%Q) by (apply Qle_shift_div_r; lra).
      split; [split; lra|]. split; [|intros H; lia].
      intros E. apply distance_zero in E. fold d in E. rewrite E.
      unfold Qdiv. change (ofNat 0) with 0%Q. lra.
Qed.

End LevenshteinFacts.

(** ** Keeping the first occurrence of each key *)

Section KeepFirstFacts.

Context {A : Type} (key : A -> string).

Lemma existsb_eqb_In (k : string) (seen : list string) :
  existsb (String.eqb k) seen = true <-> In k seen.
Proof.
  rewrite existsb_exists. split.
  - intros (x & Hx & E). apply String.eqb_eq in E. now subst.
  - intros H. exists k. split; [exact H | apply String.eqb_refl].
Qed.

Lemma keepFirst_In (items : list A) (seen : list string) (x : A) :
  In x (Facts.keepFirst key items seen) -> In x items /\ ~ In (key x) seen.
Proof.
  revert seen; induction items as [|y items IH]; intros seen; simpl; [contradiction|].
  destruct (existsb (String.eqb (key y)) seen) eqn:E.
  - intros H. destruct (IH _ H) as [H1 H2]. auto.
  - intros [<-|H].
    + split; [now left|]. intros Hin. apply existsb_eqb_In in Hin. congruence.
    + destruct (IH _ H) as [H1 H2]. split; [now right|].
      intros Hin. apply H2. now right.
Qed.

Lemma keepFirst_NoDup (items : list A) (seen : list string) :
  List.NoDup (map key (Facts.keepFirst key items seen)).
Proof.
  revert seen; induction items as [|y items IH]; intros seen; simpl; [constructor|].
  destruct (existsb (String.eqb (key y)) seen); [apply IH|].
  simpl. constructor; [|apply IH].
  intros Hin. apply in_map_iff in Hin as (z & Ez & Hz).
  apply keepFirst_In in Hz as [_ Hz]. apply Hz. left. now symmetry.
Qed.

Lemma keepFirst_complete (items : list A) (seen : list string) (x : A) :
  In x items -> ~ In (key x) seen ->
  exists y, In y (Facts.keepFirst key items seen) /\ key y = key x.
Proof.
  revert seen; induction items as [|y items IH]; intros seen; simpl; [contradiction|].
  intros [->|Hin] Hs.
  - destruct (existsb (String.eqb (key x)) seen) eqn:E.
    + apply existsb_eqb_In in E. contradiction.
    + exists x. split; [now left | reflexivity].
  - destruct (existsb (String.eqb (key y)) seen) eqn:E; [now apply IH|].
    destruct (String.eqb_spec (key y) (key x)) as [Ek|Ek].
    + exists y. split; [now left | exact Ek].
    + destruct (IH (key y :: seen) Hin) as (z & Hz & Ez).
      { intros [H|H]; [contradiction | now apply Hs]. }
      exists z. split; [now right | exact Ez].
Qed.

Lemma keepFirst_sublist (items : list A) (seen : list string) :
  sublist (Facts.keepFirst key items seen) items.
Proof.
  revert seen; induction items as [|x items IH]; intros seen; simpl; [constructor|].
  destruct (existsb _ seen); [apply sublist_cons | apply sublist_skip]; apply IH.
Qed.

(** An entry that is kept comes before every other entry with its key. *)
Lemma keepFirst_first (items : list A) (seen : list string) (e : A) :
  In e (Facts.keepFirst key items seen) ->
  exists l1 l2, items = l1 ++ e :: l2 /\ forall x, In x l1 -> key x <> key e.
Proof.
  revert seen; induction items as [|y items IH]; intros seen; simpl; [contradiction|].
  destruct (existsb (String.eqb (key y)) seen) eqn:E.
  - intros H. pose proof (keepFirst_In _ _ _ H) as [_ Hn].
    destruct (IH _ H) as (l1 & l2 & -> & Hl).
    exists (y :: l1), l2. split; [reflexivity|].
    intros x [<-|Hx]; [|now apply Hl].
    intros Ek. apply Hn. rewrite <- Ek. now apply existsb_eqb_In.
  - intros [<-|H].
    + exists [], items. split; [reflexivity | intros x []].
    + pose proof (keepFirst_In _ _ _ H) as [_ Hn].
      destruct (IH _ H) as (l1 & l2 & -> & Hl).
      exists (y :: l1), l2. split; [reflexivity|].
      intros x [<-|Hx]; [|now apply Hl].
      intros Ek. apply Hn. left. exact Ek.
Qed.

End KeepFirstFacts.

(** ** More on [mergeResults] *)

Section MergeMore.

Import History HistoryManager.

Lemma mergeLoop_keepFirst (limit : Z) (items : list HistoryEntry)
      (seenSet : gset string) (seen : list string) (merged : list HistoryEntry) :
  (forall c, c ∈ seenSet <-> In c seen) ->
  mergeLoop true limit items seenSet merged
  = merged ++ firstn (Z.to_nat (Z.max 1 (limit - JS.len merged)))
                     (Facts.keepFirst command items seen).
Proof.
  revert seenSet seen merged.
  induction items as [|item rest IH]; intros seenSet seen merged Hs.
  - simpl. now rewrite firstn_nil, app_nil_r.
  - rewrite mergeLoop_cons. simpl Facts.keepFirst. cbn [andb].
    assert (Eb : bool_decide (command item ∈ seenSet)
                 = existsb (String.eqb (command item)) seen).
    { apply eq_true_iff_eq. rewrite bool_decide_eq_true, existsb_eqb_In. apply Hs. }
    rewrite Eb. destruct (existsb _ seen) eqn:E; [now apply IH|].
    assert (Hlen : JS.len (merged ++ [item]) = JS.len merged + 1).
    { unfold JS.len. rewrite length_app. simpl. lia. }
    destruct (JS.len (merged ++ [item]) >=? limit) eqn:Eg.
    + rewrite Z.geb_leb in Eg. apply Z.leb_le in Eg.
      replace (Z.to_nat (Z.max 1 (limit - JS.len merged))) with 1%nat by lia.
      simpl. reflexivity.
    + rewrite Z.geb_leb in Eg. apply Z.leb_gt in Eg.
      rewrite (IH ({[command item]} ∪ seenSet) (command item :: seen)).
      * rewrite <- app_assoc. simpl. f_equal.
        replace (Z.to_nat (Z.max 1 (limit - JS.len merged)))
          with (S (Z.to_nat (Z.max 1 (limit - JS.len (merged ++ [item]))))) by lia.
        reflexivity.
      * intros c. rewrite elem_of_union, elem_of_singleton, Hs. simpl.
        split; intros [H|H]; auto.
Qed.

Lemma mergeLoop_all (limit : Z) (items : list HistoryEntry) (seen : gset string)
      (merged : list HistoryEntry) :
  mergeLoop false limit items seen merged
  = merged ++ firstn (Z.to_nat (Z.max 1 (limit - JS.len merged))) items.
Proof.
  revert merged; induction items as [|item rest IH]; intros merged.
  - simpl. now rewrite firstn_nil, app_nil_r.
  - rewrite mergeLoop_cons. cbn [andb].
    assert (Hlen : JS.len (merged ++ [item]) = JS.len merged + 1).
    { unfold JS.len. rewrite length_app. simpl. lia. }
    destruct (JS.len (merged ++ [item]) >=? limit) eqn:Eg.
    + rewrite Z.geb_leb in Eg. apply Z.leb_le in Eg.
      replace (Z.to_nat (Z.max 1 (limit - JS.len merged))) with 1%nat by lia.
      reflexivity.
    + rewrite Z.geb_leb in Eg. apply Z.leb_gt in Eg.
      rewrite IH, <- app_assoc. simpl. f_equal.
      replace (Z.to_nat (Z.max 1 (limit - JS.len merged)))
        with (S (Z.to_nat (Z.max 1 (limit - JS.len (merged ++ [item]))))) by lia.
      reflexivity.
Qed.

(** What [mergeResults] computes: the concatenation sorted, reduced to the
    first entry of each command when deduplicating, and cut to [limit]
    entries, but never to fewer than one. *)
Lemma mergeResults_spec (resultArrays : list (list HistoryEntry))
      (deduplicate : option bool) (limit : option Z) :
  mergeResults resultArrays deduplicate limit
  = firstn (Z.to_nat (Z.max 1 (default 10000 limit)))
           (if default true deduplicate
            then Facts.keepFirst command
                   (JS.sort newestFirst (concat resultArrays)) []
            else JS.sort newestFirst (concat resultArrays)).
Proof.
  unfold mergeResults. destruct (default true deduplicate).
  - rewrite (mergeLoop_keepFirst _ _ ∅ [] []).
    + simpl. now rewrite Z.sub_0_r.
    + intros c. split; [intros H; now apply not_elem_of_empty in H | contradiction].
  - rewrite mergeLoop_all. simpl. now rewrite Z.sub_0_r.
Qed.

Lemma NoDup_firstn {B} (n : nat) (l : list B) : List.NoDup l -> List.NoDup (firstn n l).
Proof.
  revert n; induction l as [|x l IH]; intros n H; destruct n; simpl; try constructor.
  - inversion H as [|? ? Hx Hl]; subst. intros Hin. apply Hx. eapply firstn_In, Hin.
  - inversion H; subst. now apply IH.
Qed.

Lemma insert_sorted_on {B} (cmp : B -> B -> comparison) (P : B -> Prop)
      (R : B -> B -> Prop) (x : B) (l : list B) :
  (forall a b c, R a b -> R b c -> R a c) ->
  (forall a b, P a -> P b -> cmp a b = Gt -> R b a) ->
  (forall a b, P a -> P b -> cmp a b <> Gt -> R a b) ->
  P x -> Forall P l -> StronglySorted R l -> StronglySorted R (JS.insert cmp x l).
Proof.
  intros Ht Hgt Hle Hx Hl Hs.
  induction l as [|y l IH]; simpl; [constructor; constructor|].
  apply StronglySorted_inv in Hs as [Hs Hy].
  apply List.Forall_cons_iff in Hl as [Py Hl].
  assert (Hhead : cmp x y <> Gt -> StronglySorted R (x :: y :: l)).
  { intros Hc. assert (Rxy : R x y) by (apply Hle; assumption).
    constructor; [now constructor|]. constructor; [exact Rxy|].
    eapply List.Forall_impl; [|exact Hy]. intros z Hz. eapply Ht; eassumption. }
  destruct (cmp x y) eqn:Ec; try (apply Hhead; discriminate).
  constructor; [now apply IH|].
  eapply Permutation_Forall; [symmetry; apply insert_Permutation|].
  constructor; [apply Hgt; assumption | exact Hy].
Qed.

Lemma sort_sorted_on {B} (cmp : B -> B -> comparison) (P : B -> Prop)
      (R : B -> B -> Prop) (l : list B) :
  (forall a b c, R a b -> R b c -> R a c) ->
  (forall a b, P a -> P b -> cmp a b = Gt -> R b a) ->
  (forall a b, P a -> P b -> cmp a b <> Gt -> R a b) ->
  Forall P l -> StronglySorted R (JS.sort cmp l).
Proof.
  intros Ht Hgt Hle Hl. induction l as [|x l IH]; simpl; [constructor|].
  apply List.Forall_cons_iff in Hl as [Px Hl].
  apply insert_sorted_on with (P := P); auto.
  eapply Permutation_Forall; [symmetry; apply sort_Permutation | exact Hl].
Qed.

Lemma StronglySorted_keepFirst {B} (key : B -> string) (R : B -> B -> Prop)
      (l : list B) (seen : list string) :
  StronglySorted R l -> StronglySorted R (Facts.keepFirst key l seen).
Proof.
  revert seen; induction l as [|x l IH]; intros seen Hs; simpl; [constructor|].
  apply StronglySorted_inv in Hs as [Hs Hx].
  destruct (existsb _ seen); [now apply IH|].
  constructor; [now apply IH|].
  apply List.Forall_forall. intros y Hy. apply keepFirst_In in Hy as [Hy _].
  rewrite List.Forall_forall in Hx. now apply Hx.
Qed.

(** With deduplication (the default) the merged list holds no command
    twice, holds only entries of the provider lists, is no longer than the
    limit (or 1), and, when the limit allows, holds every command that some
    provider returned. *)
Theorem mergeResults_deduplicated (resultArrays : list (list HistoryEntry))
        (deduplicate : option bool) (limit : option Z) :
  default true deduplicate = true ->
  let merged := mergeResults resultArrays deduplicate limit in
  List.NoDup (map command merged)
  /\ (forall e, In e merged -> In e (concat resultArrays))
  /\ JS.len merged <= Z.max 1 (default 10000 limit)
  /\ (JS.len (concat resultArrays) <= default 10000 limit ->
      forall e, In e (concat resultArrays) ->
                exists e', In e' merged /\ command e' = command e).
Proof.
  intros Hd merged. unfold merged. rewrite mergeResults_spec, Hd.
  set (sorted := JS.sort newestFirst (concat resultArrays)).
  set (kept := Facts.keepFirst command sorted []).
  assert (Hperm : Permutation sorted (concat resultArrays)) by apply sort_Permutation.
  split; [|split; [|split]].
  - rewrite <- firstn_map. apply NoDup_firstn, keepFirst_NoDup.
  - intros e He. apply firstn_In, keepFirst_In in He as [He _].
    eapply Permutation_in; eassumption.
  - unfold JS.len. rewrite length_firstn. lia.
  - intros Hl e He.
    assert (Hk : (List.length kept <= List.length (concat resultArrays))%nat).
    { rewrite <- (Permutation_length Hperm). unfold kept. clear.
      generalize (@nil string). induction sorted as [|x l IH]; intros seen; simpl; [lia|].
      destruct (existsb _ seen); [specialize (IH seen) | specialize (IH (command x :: seen))];
        simpl; lia. }
    rewrite firstn_all2 by (unfold JS.len in Hl; lia).
    apply keepFirst_complete; [|intros []].
    eapply Permutation_in; [symmetry; exact Hperm | exact He].
Qed.

Lemma mergeResults_deduplicated_witness :
  List.NoDup
    (map command
         (mergeResults [[Spec.entry "ls" (Some 100)];
                        [Spec.entry "ls" (Some 50); Spec.entry "pwd" (Some 90)]]
                       None (Some 50))).
Proof.
  apply (mergeResults_deduplicated
           [[Spec.entry "ls" (Some 100)];
            [Spec.entry "ls" (Some 50); Spec.entry "pwd" (Some 90)]] None (Some 50)).
  reflexivity.
Defined.

(** When every entry has a usable timestamp, the merged list is in
    descending order of timestamp. *)
Theorem mergeResults_descending (resultArrays : list (list HistoryEntry))
        (deduplicate : option bool) (limit : option Z) :
  Forall (fun e => JS.truthyZ (timestamp e) = true) (concat resultArrays) ->
  StronglySorted (fun a b => Facts.timeOf b <= Facts.timeOf a)
                 (mergeResults resultArrays deduplicate limit).
Proof.
  intros Hall. rewrite mergeResults_spec.
  assert (Hs : StronglySorted (fun a b => Facts.timeOf b <= Facts.timeOf a)
                              (JS.sort newestFirst (concat resultArrays))).
  { apply sort_sorted_on with (P := fun e => JS.truthyZ (timestamp e) = true);
      [| | |exact Hall]; unfold newestFirst, Facts.timeOf.
    - intros a b c H1 H2. lia.
    - intros a b Pa Pb. rewrite Pa, Pb. cbn [andb]. intros H.
      apply Z.compare_gt_iff in H. lia.
    - intros a b Pa Pb. rewrite Pa, Pb. cbn [andb]. intros H.
      assert (H' : JS.orZ (timestamp b) 0 - JS.orZ (timestamp a) 0 <= 0)
        by (apply Z.compare_le_iff; exact H).
      lia. }
  apply StronglySorted_firstn.
  destruct (default true deduplicate); [now apply StronglySorted_keepFirst | exact Hs].
Qed.

Lemma mergeResults_descending_witness :
  StronglySorted (fun a b => Facts.timeOf b <= Facts.timeOf a)
    (mergeResults [[Spec.entry "ls" (Some 100)];
                   [Spec.entry "ls" (Some 50); Spec.entry "pwd" (Some 90)]]
                  (Some false) None).
Proof.
  apply (mergeResults_descending
           [[Spec.entry "ls" (Some 100)];
            [Spec.entry "ls" (Some 50); Spec.entry "pwd" (Some 90)]] (Some false) None).
  repeat constructor.
Defined.

(** Without deduplication, and with a limit that is not below the number
    of entries, nothing is lost: the merged list is a rearrangement of the
    provider lists. *)
Theorem mergeResults_keeps_everything (resultArrays : list (list HistoryEntry))
        (limit : option Z) :
  JS.len (concat resultArrays) <= default 10000 limit ->
  Permutation (mergeResults resultArrays (Some false) limit) (concat resultArrays).
Proof.
  intros Hl. rewrite mergeResults_spec. simpl.
  rewrite firstn_all2; [apply sort_Permutation|].
  rewrite sort_length. unfold JS.len in Hl. lia.
Qed.

Lemma mergeResults_keeps_everything_witness :
  Permutation
    (mergeResults [[Spec.entry "ls" (Some 100)];
                   [Spec.entry "ls" (Some 50); Spec.entry "pwd" (Some 90)]]
                  (Some false) None)
    (concat [[Spec.entry "ls" (Some 100)];
             [Spec.entry "ls" (Some 50); Spec.entry "pwd" (Some 90)]]).
Proof.
  apply (mergeResults_keeps_everything
           [[Spec.entry "ls" (Some 100)];
            [Spec.entry "ls" (Some 50); Spec.entry "pwd" (Some 90)]] None).
  vm_compute. discriminate.
Defined.

Lemma StronglySorted_after {B} (R : B -> B -> Prop) (l1 l2 : list B) (e x : B) :
  StronglySorted R (l1 ++ e :: l2) -> In x l2 -> R e x.
Proof.
  induction l1 as [|y l1 IH]; simpl; intros Hs Hx.
  - apply StronglySorted_inv in Hs as [_ Hf].
    rewrite List.Forall_forall in Hf. now apply Hf.
  - apply StronglySorted_inv in Hs as [Hs _]. now apply IH.
Qed.





(** C4. Provider A returns [ls] at 100, provider B returns [ls] at 50
    and [pwd] at 90; merged with deduplication, under any limit of at
    least two entries, the result is [ls] at 100 followed by [pwd] at 90,
    whatever the other fields of the three entries are and whichever of
    the two providers comes first. In general, when every entry has a
    usable timestamp, the merged list is in descending order of
    timestamp, and the entry it keeps for a command is a newest one: no
    entry of the provider lists with the same command has a later
    timestamp. *)
Theorem mergeResults_newest_duplicate_wins :
  (forall (a b c : HistoryEntry) (limit : Z),
      command a = "ls"%string -> timestamp a = Some 100 ->
      command b = "ls"%string -> timestamp b = Some 50 ->
      command c = "pwd"%string -> timestamp c = Some 90 ->
      2 <= limit ->
      mergeResults [[a]; [b; c]] (Some true) (Some limit) = [a; c]
      /\ mergeResults [[b; c]; [a]] (Some true) (Some limit) = [a; c])
  /\ (forall (resultArrays : list (list HistoryEntry)) (limit : option Z),
        Forall (fun e => JS.truthyZ (timestamp e) = true) (concat resultArrays) ->
        let merged := mergeResults resultArrays (Some true) limit in
        StronglySorted (fun x y => Facts.timeOf y <= Facts.timeOf x) merged
        /\ forall e, In e merged ->
             In e (concat resultArrays)
             /\ forall e', In e' (concat resultArrays) -> command e' = command e ->
                           Facts.timeOf e' <= Facts.timeOf e).
Proof.
  split.
  - intros a b c limit Ca Ta Cb Tb Cc Tc Hl.
    assert (Hbc : newestFirst b c = Gt)
      by (unfold newestFirst; rewrite Tb, Tc; reflexivity).
    assert (Hac : newestFirst a c <> Gt)
      by (unfold newestFirst; rewrite Ta, Tc; discriminate).
    assert (Hca : newestFirst c a = Gt)
      by (unfold newestFirst; rewrite Ta, Tc; reflexivity).
    assert (Hba : newestFirst b a = Gt)
      by (unfold newestFirst; rewrite Ta, Tb; reflexivity).
    assert (Hs1 : JS.sort newestFirst (concat [[a]; [b; c]]) = [a; c; b]).
    { change (JS.insert newestFirst a
                (JS.insert newestFirst b (JS.insert newestFirst c [])) = [a; c; b]).
      change (JS.insert newestFirst c []) with [c].
      rewrite (insert_Gt _ _ _ _ Hbc). change (JS.insert newestFirst b []) with [b].
      apply insert_not_Gt, Hac. }
    assert (Hs2 : JS.sort newestFirst (concat [[b; c]; [a]]) = [a; c; b]).
    { change (JS.insert newestFirst b
                (JS.insert newestFirst c (JS.insert newestFirst a [])) = [a; c; b]).
      change (JS.insert newestFirst a []) with [a].
      rewrite (insert_Gt _ _ _ _ Hca). change (JS.insert newestFirst c []) with [c].
      rewrite (insert_Gt _ _ _ _ Hba), (insert_Gt _ _ _ _ Hbc). reflexivity. }
    assert (Hk : Facts.keepFirst command [a; c; b] [] = [a; c]).
    { simpl. rewrite Ca, Cc, Cb. reflexivity. }
    rewrite !mergeResults_spec, Hs1, Hs2.
    change (default true (Some true)) with true. cbv iota. rewrite Hk.
    change (default 10000 (Some limit)) with limit.
    split; apply firstn_all2; simpl; lia.
  - intros resultArrays limit Hall merged.
    assert (Hs : StronglySorted (fun a b => Facts.timeOf b <= Facts.timeOf a)
                                (JS.sort newestFirst (concat resultArrays))).
    { apply sort_sorted_on with (P := fun e => JS.truthyZ (timestamp e) = true);
        [| | |exact Hall]; unfold newestFirst, Facts.timeOf.
      - intros a b c H1 H2. lia.
      - intros a b Pa Pb. rewrite Pa, Pb. cbn [andb]. intros H.
        apply Z.compare_gt_iff in H. lia.
      - intros a b Pa Pb. rewrite Pa, Pb. cbn [andb]. intros H.
        assert (H' : JS.orZ (timestamp b) 0 - JS.orZ (timestamp a) 0 <= 0)
          by (apply Z.compare_le_iff; exact H).
        lia. }
    unfold merged. rewrite mergeResults_spec.
    change (default true (Some true)) with true. cbv iota.
    set (sorted := JS.sort newestFirst (concat resultArrays)) in *.
    assert (Hperm : Permutation sorted (concat resultArrays)) by apply sort_Permutation.
    split.
    + apply StronglySorted_firstn, StronglySorted_keepFirst, Hs.
    + intros e He. apply firstn_In in He.
      pose proof (keepFirst_In _ _ _ _ He) as [Hin _].
      split; [eapply Permutation_in; eassumption|].
      intros e' He' Hc.
      destruct (keepFirst_first _ _ _ _ He) as (l1 & l2 & El & Hl1).
      assert (Hin' : In e' sorted)
        by (eapply Permutation_in; [symmetry; exact Hperm | exact He']).
      rewrite El in Hin', Hs. apply in_app_or in Hin' as [H1|[<-|H2]].
      * exfalso. now apply (Hl1 e' H1).
      * lia.
      * now apply (StronglySorted_after _ l1 l2 e e' Hs).
Qed.

Lemma mergeResults_newest_duplicate_wins_witness :
  mergeResults [[Spec.entry "ls" (Some 50); Spec.entry "pwd" (Some 90)];
                [Spec.entry "ls" (Some 100)]]
               (Some true) (Some 50)
  = [Spec.entry "ls" (Some 100); Spec.entry "pwd" (Some 90)].
Proof.
  apply (proj1 mergeResults_newest_duplicate_wins
           (Spec.entry "ls" (Some 100)) (Spec.entry "ls" (Some 50))
           (Spec.entry "pwd" (Some 90)) 50);
    (reflexivity || lia).
Defined.


(** A limit of 0 (or below) still lets one entry through. *)
Example mergeResults_limit_zero :
  mergeResults [[Spec.entry "ls" (Some 100); Spec.entry "pwd" (Some 90)]]
               (Some true) (Some 0)
  = [Spec.entry "ls" (Some 100)].
Proof. vm_compute. reflexivity. Qed.

End MergeMore.

(** ** Provider search with a numeric limit, [getRecent] and [getAll] *)

Section ProviderMore.

Import History HistoryManager Recent.

Lemma matchesQuery_empty (item : HistoryEntry) : matchesQuery "" item = true.
Proof.
  unfold matchesQuery, JS.includes. rewrite indexOf_unfold, startsWith_empty. reflexivity.
Qed.

Lemma filter_all {B} (f : B -> bool) (l : list B) :
  (forall x, f x = true) -> List.filter f l = l.
Proof.
  intros H. induction l as [|x l IH]; simpl; [reflexivity|]. now rewrite H, IH.
Qed.

Lemma searchLoop_spec (lowerQuery : string) (limit : Z)
      (items results : list HistoryEntry) :
  searchLoop lowerQuery (Some limit) items results
  = results ++ firstn (Z.to_nat (limit - JS.len results))
                      (List.filter (matchesQuery lowerQuery) items).
Proof.
  revert results; induction items as [|item rest IH]; intros results; simpl.
  - now rewrite firstn_nil, app_nil_r.
  - destruct (JS.len results <? limit) eqn:El.
    + apply Z.ltb_lt in El.
      destruct (matchesQuery lowerQuery item).
      * rewrite IH, <- app_assoc. simpl. f_equal.
        assert (Hlen : JS.len (results ++ [item]) = JS.len results + 1).
        { unfold JS.len. rewrite length_app. simpl. lia. }
        replace (Z.to_nat (limit - JS.len results))
          with (S (Z.to_nat (limit - JS.len (results ++ [item])))) by lia.
        reflexivity.
      * apply IH.
    + apply Z.ltb_ge in El.
      replace (Z.to_nat (limit - JS.len results)) with 0%nat by lia.
      simpl. now rewrite app_nil_r.
Qed.

Lemma recent_firstn (h : list HistoryEntry) (limit : Z) :
  0 < limit -> recent h limit = firstn (Z.to_nat limit) (all h).
Proof.
  intros Hl. unfold recent, all, JS.sliceFrom, JS.len.
  assert (E : (- limit <? 0) = true) by (apply Z.ltb_lt; lia). rewrite E.
  rewrite firstn_rev. do 2 f_equal. lia.
Qed.

(** Called with a number, as its signature says, the search of the Bash
    and Fish providers returns the newest [limit] entries whose command
    contains the query, case-insensitively; the empty query matches every
    entry. *)
Theorem searchLoaded_number (h : list HistoryEntry) (maxResults limit : Z)
        (query : string) :
  0 < limit ->
  searchLoaded h maxResults query (ArgNumber limit)
  = firstn (Z.to_nat limit)
           (List.filter (matchesQuery (JS.toLowerCase query)) (all h)).
Proof.
  intros Hl. unfold searchLoaded. simpl toNumber.
  destruct (JS.nonEmpty query) eqn:Eq; simpl.
  - rewrite searchLoop_spec. simpl. unfold JS.len. simpl. now rewrite Z.sub_0_r.
  - assert (Eq' : query = ""%string).
    { unfold JS.nonEmpty in Eq. apply negb_false_iff in Eq. now apply String.eqb_eq. }
    subst query. simpl JS.toLowerCase.
    rewrite (filter_all _ _ matchesQuery_empty).
    now apply recent_firstn.
Qed.

Lemma searchLoaded_number_witness :
  map command
      (searchLoaded [Spec.entry "make" None; Spec.entry "ls" None; Spec.entry "Make test" None]
                    50 "MAKE" (ArgNumber 1))
  = ["Make test"]%string.
Proof.
  rewrite (searchLoaded_number _ 50 1 "MAKE"); [reflexivity | lia].
Defined.

Lemma searchLoopSeen_spec (lowerQuery : string) (limit : Z)
      (items results : list HistoryEntry) (seenSet : gset string) (seen : list string) :
  (forall c, c ∈ seenSet <-> In c seen) ->
  searchLoopSeen lowerQuery (Some limit) items results seenSet
  = results ++ firstn (Z.to_nat (limit - JS.len results))
                      (Facts.keepFirst command
                         (List.filter (matchesQuery lowerQuery) items) seen).
Proof.
  revert results seenSet seen.
  induction items as [|item rest IH]; intros results seenSet seen Hs; simpl.
  - now rewrite firstn_nil, app_nil_r.
  - assert (Eb : bool_decide (command item ∈ seenSet)
                 = existsb (String.eqb (command item)) seen).
    { apply eq_true_iff_eq. rewrite bool_decide_eq_true, existsb_eqb_In. apply Hs. }
    destruct (JS.len results <? limit) eqn:El.
    + apply Z.ltb_lt in El. rewrite Eb.
      destruct (matchesQuery lowerQuery item) eqn:Em; simpl.
      * destruct (existsb _ seen) eqn:Ex; [now apply IH|].
        rewrite (IH _ ({[command item]} ∪ seenSet) (command item :: seen)).
        -- rewrite <- app_assoc. simpl. f_equal.
           assert (Hlen : JS.len (results ++ [item]) = JS.len results + 1).
           { unfold JS.len. rewrite length_app. simpl. lia. }
           replace (Z.to_nat (limit - JS.len results))
             with (S (Z.to_nat (limit - JS.len (results ++ [item])))) by lia.
           reflexivity.
        -- intros c. rewrite elem_of_union, elem_of_singleton, Hs. simpl.
           split; intros [H|H]; auto.
      * destruct (existsb _ seen); now apply IH.
    + apply Z.ltb_ge in El.
      replace (Z.to_nat (limit - JS.len results)) with 0%nat by lia.
      simpl. now rewrite app_nil_r.
Qed.

(** Called with a number, the search of the owned provider for a non-empty
    query returns the newest [limit] matching entries after dropping the
    older repetitions of a command: no command comes back twice. *)
Theorem searchLoadedSeen_number (h : list HistoryEntry) (maxResults limit : Z)
        (query : string) :
  query <> ""%string ->
  let results := searchLoadedSeen h maxResults query (ArgNumber limit) in
  results
  = firstn (Z.to_nat limit)
           (Facts.keepFirst command
              (List.filter (matchesQuery (JS.toLowerCase query)) (all h)) [])
  /\ List.NoDup (map command results)
  /\ (forall e, In e results ->
                In e h /\ matchesQuery (JS.toLowerCase query) e = true).
Proof.
  intros Hq results.
  assert (En : JS.nonEmpty query = true).
  { unfold JS.nonEmpty. apply negb_true_iff. now apply String.eqb_neq. }
  assert (E : results
              = firstn (Z.to_nat limit)
                  (Facts.keepFirst command
                     (List.filter (matchesQuery (JS.toLowerCase query)) (all h)) [])).
  { unfold results, searchLoadedSeen. rewrite En. simpl.
    rewrite (searchLoopSeen_spec _ _ _ _ ∅ []).
    - simpl. unfold JS.len. simpl. now rewrite Z.sub_0_r.
    - intros c. split; [intros H; now apply not_elem_of_empty in H | contradiction]. }
  split; [exact E|]. rewrite E. split.
  - rewrite <- firstn_map. apply NoDup_firstn, keepFirst_NoDup.
  - intros e He. apply firstn_In, keepFirst_In in He as [He _].
    apply filter_In in He as [He Hm]. split; [|exact Hm].
    unfold all in He. now apply in_rev.
Qed.

Lemma searchLoadedSeen_number_witness :
  map command
      (searchLoadedSeen [Spec.entry "ls" None; Spec.entry "ls -l" None; Spec.entry "ls" None]
                        50 "ls" (ArgNumber 5))
  = ["ls"; "ls -l"]%string.
Proof.
  destruct (searchLoadedSeen_number
              [Spec.entry "ls" None; Spec.entry "ls -l" None; Spec.entry "ls" None]
              50 5 "ls") as [E _]; [discriminate|].
  rewrite E. reflexivity.
Defined.

(** [getRecent(limit)] is the first [limit] entries of [getAll()] for a
    positive limit, with the same effect on the provider; [getRecent(0)]
    is not empty but the whole of [getAll()]. *)
Theorem providerGetRecent_getAll (fs : gmap string (list HistoryEntry)) (limit : Z)
        (p : Provider) :
  0 <= limit ->
  snd (providerGetRecent fs limit p) = snd (providerGetAll fs p)
  /\ fst (providerGetRecent fs limit p)
     = if limit =? 0 then fst (providerGetAll fs p)
       else firstn (Z.to_nat limit) (fst (providerGetAll fs p)).
Proof.
  intros Hl.
  assert (H : forall h, recent h limit
                        = if limit =? 0 then all h else firstn (Z.to_nat limit) (all h)).
  { intros h. destruct (limit =? 0) eqn:E.
    - apply Z.eqb_eq in E. subst. reflexivity.
    - apply Z.eqb_neq in E. apply recent_firstn. lia. }
  destruct p; simpl; (split; [reflexivity | apply H]).
Qed.

Lemma providerGetRecent_getAll_witness :
  fst (providerGetRecent
         (<["/h"%string := [Spec.entry "a" None; Spec.entry "b" None; Spec.entry "c" None]]> ∅)
         2 (Bash (mkShell "/h" 50 [] false)))
  = [Spec.entry "c" None; Spec.entry "b" None].
Proof.
  destruct (providerGetRecent_getAll
              (<["/h"%string := [Spec.entry "a" None; Spec.entry "b" None; Spec.entry "c" None]]> ∅)
              2 (Bash (mkShell "/h" 50 [] false))) as [_ E]; [lia|].
  rewrite E. vm_compute. reflexivity.
Defined.

End ProviderMore.

(** ** The Zsh provider: deduplication, search with options, [add] *)

Section ZshFacts.

Import History HistoryManager Recent Providers.

Lemma dedupNewestFirst_keepFirst (items : list HistoryEntry) (seenSet : gset string)
      (seen : list string) (acc : list HistoryEntry) :
  (forall c, c ∈ seenSet <-> In c seen) ->
  dedupNewestFirst items seenSet acc
  = rev (Facts.keepFirst (fun e => JS.trim (command e)) items seen) ++ acc.
Proof.
  revert seenSet seen acc.
  induction items as [|item rest IH]; intros seenSet seen acc Hs; simpl; [reflexivity|].
  assert (Eb : bool_decide (JS.trim (command item) ∈ seenSet)
               = existsb (String.eqb (JS.trim (command item))) seen).
  { apply eq_true_iff_eq. rewrite bool_decide_eq_true, existsb_eqb_In. apply Hs. }
  rewrite Eb. destruct (existsb _ seen); [now apply IH|].
  rewrite (IH _ (JS.trim (command item) :: seen)).
  - simpl. now rewrite <- app_assoc.
  - intros c. rewrite elem_of_union, elem_of_singleton, Hs. simpl.
    split; intros [H|H]; auto.
Qed.

Lemma deduplicateHistory_keepFirst (h : list HistoryEntry) :
  deduplicateHistory h
  = rev (Facts.keepFirst (fun e => JS.trim (command e)) (rev h) []).
Proof.
  unfold deduplicateHistory. rewrite (dedupNewestFirst_keepFirst _ ∅ [] []).
  - apply app_nil_r.
  - intros c. split; [intros H; now apply not_elem_of_empty in H | contradiction].
Qed.

Lemma sublist_rev {B} (l1 l2 : list B) : sublist l1 l2 -> sublist (rev l1) (rev l2).
Proof.
  induction 1 as [|x l1 l2 _ IH|x l1 l2 _ IH]; simpl.
  - constructor.
  - now apply sublist_app.
  - now apply sublist_inserts_r.
Qed.

(** [deduplicateHistory] keeps the entries in their order, leaves no two
    entries with the same trimmed command, loses no command, and always
    keeps the newest entry. *)
Theorem deduplicateHistory_keeps_newest (h : list HistoryEntry) :
  let d := deduplicateHistory h in
  sublist d h
  /\ List.NoDup (map (fun e => JS.trim (command e)) d)
  /\ (forall e, In e h ->
        exists e', In e' d /\ JS.trim (command e') = JS.trim (command e))
  /\ last d = last h.
Proof.
  intros d. unfold d. rewrite deduplicateHistory_keepFirst.
  split; [|split; [|split]].
  - rewrite <- (rev_involutive h) at 2. apply sublist_rev, keepFirst_sublist.
  - rewrite map_rev. apply NoDup_rev, keepFirst_NoDup.
  - intros e He.
    destruct (keepFirst_complete (fun e => JS.trim (command e)) (rev h) [] e)
      as (y & Hy & Ey); [now apply in_rev in He | intros [] |].
    exists y. split; [now apply in_rev in Hy | exact Ey].
  - destruct (rev h) as [|e r] eqn:E.
    + apply (f_equal (@rev _)) in E. rewrite rev_involutive in E. now subst.
    + apply (f_equal (@rev _)) in E. rewrite rev_involutive in E. subst h.
      simpl. now rewrite !last_snoc.
Qed.

(** Given the options object that the manager passes, the Zsh provider's
    search reads the file again and returns the newest [limit] matching
    entries of the deduplicated list, or of the raw list when
    [deduplicate] is false. *)
Theorem zshSearch_options (fs : gmap string (list HistoryEntry)) (p : ZshProvider)
        (query : string) (limit : Z) (deduplicate : bool) :
  0 < limit ->
  let h := readFile fs (zshFile p) in
  fst (zshSearch fs p query (ArgOptions limit deduplicate))
  = firstn (Z.to_nat limit)
      (List.filter (matchesQuery (JS.toLowerCase query))
                   (all (if deduplicate then deduplicateHistory h else h))).
Proof.
  intros Hl h. unfold zshSearch, zshLoad.
  rewrite andb_false_r. cbn [zshHistory deduplicatedHistory zshMaxResults].
  fold h. set (arr := if deduplicate then deduplicateHistory h else h).
  destruct (JS.nonEmpty query) eqn:Eq; cbn [negb fst].
  - rewrite searchLoop_spec. simpl. unfold JS.len. simpl. now rewrite Z.sub_0_r.
  - assert (Eq' : query = ""%string).
    { unfold JS.nonEmpty in Eq. apply negb_false_iff in Eq. now apply String.eqb_eq. }
    subst query. simpl JS.toLowerCase.
    rewrite (filter_all _ _ matchesQuery_empty).
    now apply recent_firstn.
Qed.

Lemma zshSearch_options_witness :
  map command
      (fst (zshSearch (<["/z"%string := [Spec.entry "ls" None; Spec.entry "cd" None;
                                         Spec.entry "ls " None]]> ∅)
                      (mkZsh "/z" 50 [] [] false) "" (ArgOptions 5 true)))
  = ["ls "; "cd"]%string.
Proof.
  rewrite (zshSearch_options _ _ "" 5 true); [reflexivity | lia].
Defined.

Lemma keepFirst_ext {B} (key : B -> string) (items : list B) (s1 s2 : list string) :
  (forall k, In k s1 <-> In k s2) ->
  Facts.keepFirst key items s1 = Facts.keepFirst key items s2.
Proof.
  revert s1 s2; induction items as [|x items IH]; intros s1 s2 H; simpl; [reflexivity|].
  assert (E : existsb (String.eqb (key x)) s1 = existsb (String.eqb (key x)) s2).
  { apply eq_true_iff_eq. rewrite !existsb_eqb_In. apply H. }
  rewrite E. destruct (existsb _ s2); [now apply IH|].
  f_equal. apply IH. intros k. simpl. rewrite H. reflexivity.
Qed.

Lemma filter_none {B} (f : B -> bool) (l : list B) :
  (forall x, In x l -> f x = true) -> List.filter f l = l.
Proof.
  induction l as [|x l IH]; intros H; simpl; [reflexivity|].
  rewrite (H x) by now left. f_equal. apply IH. intros y Hy. apply H. now right.
Qed.

Lemma keepFirst_seen_cons {B} (key : B -> string) (items : list B)
      (seen : list string) (k : string) :
  Facts.keepFirst key items (k :: seen)
  = List.filter (fun x => negb (String.eqb (key x) k)) (Facts.keepFirst key items seen).
Proof.
  revert seen; induction items as [|x items IH]; intros seen; simpl; [reflexivity|].
  destruct (String.eqb_spec (key x) k) as [Ek|Ek].
  - cbn [orb]. destruct (existsb (String.eqb (key x)) seen) eqn:Es; [apply IH|].
    simpl. rewrite (proj2 (String.eqb_eq _ _) Ek). cbn [negb].
    rewrite <- IH, <- Ek.
    apply keepFirst_ext. intros k'. simpl. tauto.
  - cbn [orb]. destruct (existsb (String.eqb (key x)) seen) eqn:Es; [apply IH|].
    simpl. rewrite (proj2 (String.eqb_neq _ _) Ek). cbn [negb]. f_equal.
    rewrite <- IH. apply keepFirst_ext. intros k'. simpl. tauto.
Qed.

Lemma removeFirst_filter {B} (key : B -> string) (k : string) (l : list B) :
  List.NoDup (map key l) ->
  removeFirst (fun x => String.eqb (key x) k) l
  = List.filter (fun x => negb (String.eqb (key x) k)) l.
Proof.
  induction l as [|x l IH]; intros Hn; simpl; [reflexivity|].
  apply List.NoDup_cons_iff in Hn as [Hx Hn].
  destruct (String.eqb_spec (key x) k) as [Ek|Ek]; cbn [negb].
  - symmetry. apply filter_none. intros y Hy.
    apply negb_true_iff, String.eqb_neq. intros Ey. apply Hx.
    apply in_map_iff. exists y. split; [congruence | exact Hy].
  - f_equal. now apply IH.
Qed.

Lemma filter_rev' {B} (f : B -> bool) (l : list B) :
  List.filter f (rev l) = rev (List.filter f l).
Proof.
  induction l as [|x l IH]; simpl; [reflexivity|].
  rewrite List.filter_app, IH. simpl. destruct (f x); simpl; [reflexivity|].
  now rewrite app_nil_r.
Qed.

(** [add] keeps the two lists of the Zsh provider in step: when the
    deduplicated list is the deduplication of the raw list before the
    call (as it is after any load), it is so after the call, without
    being recomputed. *)
Theorem zshAdd_keeps_deduplicated (fs : gmap string (list HistoryEntry)) (now : Z)
        (processCwd c : string) (m : Metadata) (p : ZshProvider) :
  (zshLoaded p = true ->
   deduplicatedHistory p = deduplicateHistory (zshHistory p)) ->
  let p' := zshAdd fs now processCwd c m p in
  deduplicatedHistory p' = deduplicateHistory (zshHistory p')
  /\ last (deduplicatedHistory p') = Some (zshEntry now processCwd c m).
Proof.
  intros Hinv p'. unfold p', zshAdd.
  set (q := zshLoad fs false p).
  assert (Hq : deduplicatedHistory q = deduplicateHistory (zshHistory q)).
  { unfold q, zshLoad. destruct (zshLoaded p) eqn:El; simpl; [now apply Hinv | reflexivity]. }
  cbn [deduplicatedHistory zshHistory]. split; [|apply last_snoc].
  rewrite Hq, !deduplicateHistory_keepFirst, rev_app_distr. simpl.
  rewrite (keepFirst_seen_cons (fun e => JS.trim (command e))).
  rewrite <- filter_rev'. f_equal.
  apply (removeFirst_filter (fun e => JS.trim (command e))).
  rewrite map_rev. apply NoDup_rev, keepFirst_NoDup.
Qed.

Lemma zshAdd_keeps_deduplicated_witness :
  let p := zshAdd ∅ 7 "/" " ls" (mkMeta None None None false [])
                  (mkZsh "/z" 50
                         [Spec.entry "ls" None; Spec.entry "cd" None; Spec.entry "ls" None]
                         [Spec.entry "cd" None; Spec.entry "ls" None] true) in
  deduplicatedHistory p = deduplicateHistory (zshHistory p)
  /\ last (deduplicatedHistory p) = Some (zshEntry 7 "/" " ls" (mkMeta None None None false [])).
Proof.
  apply (zshAdd_keeps_deduplicated
           ∅ 7 "/" " ls" (mkMeta None None None false [])
           (mkZsh "/z" 50
                  [Spec.entry "ls" None; Spec.entry "cd" None; Spec.entry "ls" None]
                  [Spec.entry "cd" None; Spec.entry "ls" None] true)).
  intros _. vm_compute. reflexivity.
Defined.

End ZshFacts.

(** ** The owned provider: loading and [add] *)

Section AishFacts.

Import History HistoryManager Recent.

Lemma trimToMax_skipn (maxEntries : Z) (h : list HistoryEntry) :
  0 < maxEntries ->
  trimToMax maxEntries h = skipn (List.length h - Z.to_nat maxEntries) h.
Proof.
  intros Hm. unfold trimToMax, JS.sliceFrom, JS.len.
  destruct (maxEntries <? Z.of_nat (List.length h)) eqn:E.
  - apply Z.ltb_lt in E.
    assert (E' : (- maxEntries <? 0) = true) by (apply Z.ltb_lt; lia). rewrite E'.
    f_equal. lia.
  - apply Z.ltb_ge in E.
    replace (List.length h - Z.to_nat maxEntries)%nat with 0%nat by lia. reflexivity.
Qed.

(** Loading keeps the newest [maxEntries] entries of the file, in their
    order, and all of them when the file holds no more than that. *)
Theorem aishLoad_keeps_newest (fs : gmap string (list HistoryEntry)) (p : AishProvider) :
  aishLoaded p = false -> 0 < maxEntries p ->
  let h := aishHistory (aishLoad fs p) in
  JS.len h <= maxEntries p
  /\ (exists older, readFile fs (aishFile p) = older ++ h)
  /\ (JS.len (readFile fs (aishFile p)) <= maxEntries p ->
      h = readFile fs (aishFile p)).
Proof.
  intros Hl Hm h.
  assert (E : h = trimToMax (maxEntries p) (readFile fs (aishFile p))).
  { unfold h, aishLoad, readFile. rewrite Hl.
    destruct (fs !! aishFile p); simpl; [reflexivity|].
    rewrite trimToMax_skipn by exact Hm. reflexivity. }
  rewrite E, trimToMax_skipn by exact Hm.
  set (file := readFile fs (aishFile p)). unfold JS.len.
  split; [rewrite length_skipn; lia|]. split.
  - exists (firstn (List.length file - Z.to_nat (maxEntries p)) file).
    symmetry. apply firstn_skipn.
  - intros Hle.
    replace (List.length file - Z.to_nat (maxEntries p))%nat with 0%nat by lia.
    reflexivity.
Qed.

Lemma aishLoad_keeps_newest_witness :
  JS.len (aishHistory
            (aishLoad (<["/a"%string := [Spec.entry "a" None; Spec.entry "b" None;
                                         Spec.entry "c" None]]> ∅)
                      (mkAish "/a" 50 2 true [] false false)))
  <= 2.
Proof.
  apply (aishLoad_keeps_newest
           (<["/a"%string := [Spec.entry "a" None; Spec.entry "b" None;
                              Spec.entry "c" None]]> ∅)
           (mkAish "/a" 50 2 true [] false false)); [reflexivity | simpl; lia].
Defined.

Lemma aishLoad_loaded (fs : gmap string (list HistoryEntry)) (p : AishProvider) :
  aishLoaded (aishLoad fs p) = true.
Proof.
  unfold aishLoad. destruct (aishLoaded p) eqn:E; [exact E|].
  destruct (fs !! aishFile p); reflexivity.
Qed.

Lemma aishLoad_idem (fs : gmap string (list HistoryEntry)) (p : AishProvider) :
  aishLoaded p = true -> aishLoad fs p = p.
Proof. intros H. unfold aishLoad. now rewrite H. Qed.

Lemma aishLoad_saveCorrections (fs : gmap string (list HistoryEntry)) (p : AishProvider) :
  saveCorrections (aishLoad fs p) = saveCorrections p.
Proof.
  unfold aishLoad. destruct (aishLoaded p); [reflexivity|].
  destruct (fs !! aishFile p); reflexivity.
Qed.

Lemma lastCommandIs_snoc (h : list HistoryEntry) (e : HistoryEntry) :
  lastCommandIs (h ++ [e]) (command e) = true.
Proof. unfold lastCommandIs. rewrite last_snoc. apply String.eqb_refl. Qed.

Lemma lastCommandIs_recent (h : list HistoryEntry) (c : string) :
  lastCommandIs h c = true -> map command (recent h 1) = [c].
Proof.
  unfold lastCommandIs. destruct (last h) as [e|] eqn:El; [|discriminate].
  intros Ec. apply String.eqb_eq in Ec.
  apply last_Some in El as [h' ->].
  rewrite recent_firstn by lia. unfold all. rewrite rev_app_distr. simpl.
  now rewrite Ec.
Qed.

(** After [add], the command is the newest entry of the owned history and
    what [getRecent(1)] returns, unless the entry is a correction and
    corrections are not saved. *)
Theorem aishAdd_newest (fs : gmap string (list HistoryEntry)) (now : Z)
        (pcwd c : string) (m : Metadata) (p : AishProvider) :
  negb (saveCorrections p) && isCorrection m = false ->
  let p' := aishAdd fs now pcwd c m p in
  lastCommandIs (aishHistory p') c = true
  /\ map command (recent (aishHistory p') 1) = [c].
Proof.
  intros Hc p'.
  assert (H : lastCommandIs (aishHistory p') c = true).
  { unfold p', aishAdd.
    destruct (lastCommandIs (aishHistory (aishLoad fs p)) c) eqn:El; [exact El|].
    rewrite aishLoad_saveCorrections, Hc. simpl.
    apply (lastCommandIs_snoc _ (newEntry now pcwd c m)). }
  split; [exact H | now apply lastCommandIs_recent].
Qed.

Lemma aishAdd_newest_witness :
  map command
      (recent (aishHistory (aishAdd ∅ 5 "/" "ls" (mkMeta None None None false [])
                                    (mkAish "/a" 50 100 true [] false false))) 1)
  = ["ls"]%string.
Proof.
  apply (aishAdd_newest ∅ 5 "/" "ls" (mkMeta None None None false [])
                        (mkAish "/a" 50 100 true [] false false)).
  reflexivity.
Defined.

(** Adding the same command twice in a row stores it once: the second
    call leaves the provider as the first one left it, whatever the clock
    and the working directory are by then. *)
Theorem aishAdd_twice (fs : gmap string (list HistoryEntry)) (now now' : Z)
        (pcwd pcwd' c : string) (m : Metadata) (p : AishProvider) :
  aishAdd fs now' pcwd' c m (aishAdd fs now pcwd c m p) = aishAdd fs now pcwd c m p.
Proof.
  assert (Hl := aishLoad_loaded fs p).
  unfold aishAdd at 2 3.
  destruct (lastCommandIs (aishHistory (aishLoad fs p)) c) eqn:El.
  - unfold aishAdd. rewrite (aishLoad_idem _ _ Hl), El. reflexivity.
  - destruct (negb (saveCorrections (aishLoad fs p)) && isCorrection m) eqn:Ec.
    + unfold aishAdd. rewrite (aishLoad_idem _ _ Hl), El, Ec. reflexivity.
    + assert (H : lastCommandIs (aishHistory (aishLoad fs p) ++ [newEntry now pcwd c m]) c
                  = true)
        by apply (lastCommandIs_snoc _ (newEntry now pcwd c m)).
      unfold aishAdd. rewrite aishLoad_idem by reflexivity.
      cbn [aishHistory setHistory]. now rewrite H.
Qed.

End AishFacts.

(** ** The manager: providers after [initialize], limits of [search] and [getRecent] *)

Section ManagerFacts.

Import History HistoryManager Recent.

(** A manager as constructed, once initialized, holds the owned provider
    first and at most one shell provider, registered under the name of the
    detected shell and only outside the mode 'aish' and when the shell's
    history file can be read; initializing again changes nothing. *)
Theorem initialize_new (env : Env) (fs : gmap string (list HistoryEntry)) (cfg : Config) :
  let m := initialize env fs (new cfg) in
  initialized m = true
  /\ initialize env fs m = m
  /\ mode m = JS.orS (historyMode cfg) "aish"
  /\ (providers m = [("aish"%string, Aish (newAish cfg env))]
      \/ exists name p,
           providers m = [("aish"%string, Aish (newAish cfg env)); (name, p)]
           /\ currentShell m = Some name
           /\ mode m <> "aish"%string
           /\ (name = "zsh" \/ name = "fish" \/ name = "bash")%string).
Proof.
  intros m. unfold m, initialize, new.
  cbn [initialized config mode providers currentShell mapSet].
  set (md := JS.orS (historyMode cfg) "aish").
  destruct (String.eqb_spec md "aish") as [Em|Em]; cbn [negb].
  - cbn [initialized config mode providers currentShell].
    split; [reflexivity|]. split; [reflexivity|]. split; [reflexivity|]. now left.
  - unfold detectAndInitializeShellHistory.
    cbn [initialized config mode providers currentShell].
    set (shellName := lastSegment _ _).
    destruct (JS.includes shellName "zsh");
      [|destruct (JS.includes shellName "fish");
        [|destruct (JS.includes shellName "bash" || JS.includes shellName "sh")]];
      cbn [initialized config mode providers currentShell];
      try (destruct (isAvailable fs _));
      (split; [reflexivity|]; split; [reflexivity|]; split; [reflexivity|]);
      try (left; reflexivity);
      right; eexists; eexists; (split; [reflexivity|]); (split; [reflexivity|]);
      (split; [exact Em|]); auto.
Qed.

Lemma recent_length (h : list HistoryEntry) (limit : Z) :
  0 < limit -> JS.len (recent h limit) <= limit.
Proof.
  intros Hl. rewrite recent_firstn by exact Hl. unfold JS.len.
  rewrite length_firstn. lia.
Qed.

(** [getRecent(limit)] of the manager returns at most [limit] entries for
    a positive limit, in every mode; in unified mode no command comes back
    twice. *)
Theorem getRecent_within_limit (env : Env) (fs : gmap string (list HistoryEntry))
        (limit : Z) (m0 : Manager) :
  0 < limit ->
  let r := fst (getRecent env fs (Some limit) m0) in
  JS.len r <= limit
  /\ (mode (initialize env fs m0) = "unified"%string -> List.NoDup (map command r)).
Proof.
  intros Hl r. unfold r, getRecent.
  change (default 10 (Some limit)) with limit.
  set (m := initialize env fs m0).
  destruct (String.eqb_spec (mode m) "unified") as [Em|Em].
  - destruct (recentAll fs _ (providers m)) as [allResults ps]. cbn [fst].
    rewrite mergeResults_spec.
    change (default 10000 (Some limit)) with limit.
    change (default true (Some true)) with true. cbv iota.
    split.
    + unfold JS.len. rewrite length_firstn. lia.
    + intros _. rewrite <- firstn_map. apply NoDup_firstn, keepFirst_NoDup.
  - split; [|intros H; contradiction].
    destruct (mapGet (getActiveProvider m) (providers m)) as [p|];
      [|unfold JS.len; simpl; lia].
    destruct (providerGetRecent fs limit p) as [res p'] eqn:Ep. cbn [fst].
    assert (Hr : res = fst (providerGetRecent fs limit p)) by now rewrite Ep.
    rewrite Hr. destruct p; simpl; now apply recent_length.
Qed.

Lemma getRecent_within_limit_witness :
  JS.len (fst (getRecent
                 (mkEnv None "/home/u" "/a" "/b" "/z" "/f")
                 (<["/a"%string := [Spec.entry "a" None; Spec.entry "b" None;
                                    Spec.entry "c" None]]> ∅)
                 (Some 2) (new (mkConfig None None None None None None None))))
  <= 2.
Proof.
  apply (getRecent_within_limit
           (mkEnv None "/home/u" "/a" "/b" "/z" "/f")
           (<["/a"%string := [Spec.entry "a" None; Spec.entry "b" None;
                              Spec.entry "c" None]]> ∅)
           2 (new (mkConfig None None None None None None None))).
  lia.
Defined.

(** In unified mode [search] returns at most [limit] entries for a
    positive limit, whatever the providers return, and with
    deduplication no command twice. *)
Theorem search_unified_within_limit (env : Env) (fs : gmap string (list HistoryEntry))
        (query : string) (limit : Z) (deduplicate : bool) (m0 : Manager) :
  mode (initialize env fs m0) = "unified"%string -> 0 < limit ->
  let r := fst (search env fs query (mkOptions (Some limit) (Some deduplicate)) m0) in
  JS.len r <= limit
  /\ (deduplicate = true -> List.NoDup (map command r)).
Proof.
  intros Hm Hl r. unfold r, search. cbn [optLimit optDeduplicate].
  rewrite Hm. cbn [String.eqb Ascii.eqb Bool.eqb].
  destruct (searchAll fs query _ _) as [allResults ps]. cbn [fst].
  rewrite mergeResults_spec.
  change (default 10000 (Some limit)) with limit.
  change (default true (Some deduplicate)) with deduplicate. split.
  - unfold JS.len. rewrite length_firstn. lia.
  - intros ->. rewrite <- firstn_map. apply NoDup_firstn, keepFirst_NoDup.
Qed.

Lemma search_unified_within_limit_witness :
  JS.len (fst (search
                 (mkEnv (Some "/bin/zsh"%string) "/home/u" "/a" "/b" "/z" "/f")
                 (<["/a"%string := [Spec.entry "ls" (Some 100); Spec.entry "cd" (Some 200)]]>
                    (<["/z"%string := [Spec.entry "ls" (Some 50);
                                       Spec.entry "pwd" (Some 90)]]> ∅))
                 "" (mkOptions (Some 2) (Some true))
                 (new (mkConfig (Some "unified"%string) None None None None None None))))
  <= 2.
Proof.
  apply (search_unified_within_limit
           (mkEnv (Some "/bin/zsh"%string) "/home/u" "/a" "/b" "/z" "/f")
           (<["/a"%string := [Spec.entry "ls" (Some 100); Spec.entry "cd" (Some 200)]]>
              (<["/z"%string := [Spec.entry "ls" (Some 50); Spec.entry "pwd" (Some 90)]]> ∅))
           "" 2 true
           (new (mkConfig (Some "unified"%string) None None None None None None)));
    [reflexivity | lia].
Defined.

End ManagerFacts.

(** ** The completion manager: the priority sort, history suggestions, the cache key *)

Section CompletionMore.

Import CompletionManager.

Variable backend : string -> ShellContext -> list Candidate.
Variable historySearch : string -> list History.HistoryEntry.
Variable localeCompare : string -> string -> comparison.
Variable formatTimestamp : Z -> string.
Variable fzfAvailable : bool.
Variable fzfHelper : list SearchItem -> string -> list SearchItem.

Lemma sortCompletions_sorted (l : list Candidate) :
  StronglySorted (fun a b => priority b <= priority a) (sortCompletions localeCompare l).
Proof.
  apply sort_sorted; unfold byPriority.
  - intros x y z H1 H2. lia.
  - intros x y. destruct (priority x =? priority y) eqn:E; cbn [negb].
    + apply Z.eqb_eq in E. intros _. lia.
    + intros H. apply Z.compare_gt_iff in H. lia.
  - intros x y. destruct (priority x =? priority y) eqn:E; cbn [negb].
    + apply Z.eqb_eq in E. intros _. lia.
    + intros H.
      assert (H' : priority y - priority x <= 0) by (apply Z.compare_le_iff; exact H).
      lia.
Qed.

(** Without fuzzy ranking (switched off, or a blank word) a cache miss
    returns every candidate the sources gave, in descending order of
    priority whatever the locale's comparison is; [max_suggestions] plays
    no part on this path. *)
Theorem getCompletions_plain_keeps_all (tRead tStore : Z) (word : string)
        (ctx : Context) (m : Manager) :
  getCached tRead (cacheKey word ctx) m = None ->
  JS.isTrue (fuzzy_search (config m)) && JS.nonEmpty (JS.trim word) = false ->
  let r := fst (getCompletions backend historySearch localeCompare formatTimestamp
                               fzfAvailable fzfHelper tRead tStore word ctx m) in
  Permutation r (fst (gather backend historySearch formatTimestamp (config m) word ctx))
  /\ StronglySorted (fun a b => priority b <= priority a) r.
Proof.
  intros Hc Hf r. unfold r.
  rewrite (getCompletions_miss backend historySearch localeCompare formatTimestamp
                               fzfAvailable fzfHelper tRead tStore word ctx m Hc).
  cbn [fst]. unfold rank. rewrite Hf. split.
  - apply sort_Permutation.
  - apply sortCompletions_sorted.
Qed.

Lemma historyCandidates_head (i : Z) (items : list History.HistoryEntry) :
  match historyCandidates formatTimestamp i items with
  | [] => True
  | c :: _ => priority c = 100 - i
  end.
Proof. destruct items; simpl; [exact I | reflexivity]. Qed.

Lemma sortCompletions_historyCandidates (i : Z) (items : list History.HistoryEntry) :
  sortCompletions localeCompare (historyCandidates formatTimestamp i items)
  = historyCandidates formatTimestamp i items.
Proof.
  revert i; induction items as [|it rest IH]; intros i; [reflexivity|].
  unfold sortCompletions in *. simpl. rewrite IH.
  pose proof (historyCandidates_head (i + 1) rest) as Hh.
  destruct (historyCandidates formatTimestamp (i + 1) rest) as [|y l]; [reflexivity|].
  simpl. unfold byPriority at 1. cbn [priority]. rewrite Hh.
  assert (E : (100 - i =? 100 - (i + 1)) = false) by (apply Z.eqb_neq; lia).
  rewrite E. cbn [negb].
  assert (E' : (100 - (i + 1) - (100 - i) ?= 0) = Lt) by (apply Z.compare_lt_iff; lia).
  now rewrite E'.
Qed.

(** The priority sort leaves the history suggestions in the order in
    which the history search returned them. *)
Theorem sortCompletions_keeps_history_order (input : string) :
  map text (sortCompletions localeCompare
              (getHistoryCompletions historySearch formatTimestamp input))
  = map History.command (historySearch input).
Proof.
  unfold getHistoryCompletions. rewrite sortCompletions_historyCandidates.
  generalize 0. induction (historySearch input) as [|it rest IH]; intros i;
    [reflexivity|].
  simpl. f_equal. apply IH.
Qed.

End CompletionMore.

Lemma getCompletions_plain_keeps_all_witness :
  Permutation
    (fst (Sample.getCompletionsWith Sample.elevenBackend 0 0 "a" Sample.argumentContext
                                    (CompletionManager.new Sample.defaults)))
    (Sample.elevenBackend "a"
       (CompletionManager.shellContext "a" Sample.argumentContext) ++ []).
Proof.
  apply (getCompletions_plain_keeps_all
           Sample.elevenBackend Sample.noHistory String.compare Sample.formatNothing
           false Sample.identityHelper 0 0 "a" Sample.argumentContext
           (CompletionManager.new Sample.defaults));
    reflexivity.
Defined.

Section CacheKeyMore.

Import CompletionManager.

Lemma colon_cons (s : string) : ":" +:+ s = String ":" s.
Proof. reflexivity. Qed.

Lemma split_at_colon (a b x y : string) :
  Spec.freeOf ":" a = true -> Spec.freeOf ":" b = true ->
  a +:+ String ":" x = b +:+ String ":" y -> a = b /\ x = y.
Proof.
  revert b; induction a as [|c a IH]; intros [|d b] Ha Hb E.
  - rewrite !append_nil in E. injection E as E. now split.
  - rewrite append_nil, append_cons in E. injection E as E _. subst d.
    simpl in Hb. discriminate.
  - rewrite append_nil, append_cons in E. injection E as E _. subst c.
    simpl in Ha. discriminate.
  - rewrite !append_cons in E. injection E as Ec E. subst d.
    simpl in Ha, Hb. apply andb_true_iff in Ha as [_ Ha], Hb as [_ Hb].
    destruct (IH b Ha Hb E) as [-> ->]. now split.
Qed.

Lemma pretty_N_go_free (x : N) (s : string) :
  Spec.freeOf ":" s = true -> Spec.freeOf ":" (pretty_N_go x s) = true.
Proof.
  revert s. induction (N.lt_wf_0 x) as [x _ IH]. intros s Hs.
  destruct (N.eq_dec x 0%N) as [->|Hx].
  - now rewrite pretty_N_go_0.
  - assert (Hpos : (0 < x)%N) by lia.
    rewrite pretty_N_go_step by exact Hpos.
    apply IH; [now apply N.div_lt|].
    simpl. rewrite Hs, andb_true_r. apply negb_true_iff, Ascii.eqb_neq.
    apply pretty_N_char_not_colon.
Qed.

Lemma pretty_Z_free (z : Z) : Spec.freeOf ":" (pretty z) = true.
Proof.
  destruct z as [|p|p].
  - reflexivity.
  - change (pretty (Z.pos p)) with (pretty_N_go (N.pos p) "").
    now apply pretty_N_go_free.
  - change (pretty (Z.neg p)) with (String "-" (pretty_N_go (N.pos p) "")).
    simpl. now apply pretty_N_go_free.
Qed.

(** When neither the words nor the commands hold a colon, two requests
    share a cache key only when they agree on the word, the command, the
    position and the directory (each after its default is filled in). *)
Theorem cacheKey_injective (w1 w2 : string) (c1 c2 : Context) :
  Spec.freeOf ":" w1 = true -> Spec.freeOf ":" w2 = true ->
  Spec.freeOf ":" (JS.orS (command c1) "") = true ->
  Spec.freeOf ":" (JS.orS (command c2) "") = true ->
  cacheKey w1 c1 = cacheKey w2 c2 ->
  w1 = w2
  /\ JS.orS (command c1) "" = JS.orS (command c2) ""
  /\ JS.orZ (position c1) 0 = JS.orZ (position c2) 0
  /\ JS.orS (cwd c1) "" = JS.orS (cwd c2) "".
Proof.
  intros Hw1 Hw2 Hc1 Hc2 E. unfold cacheKey in E. rewrite !colon_cons in E.
  apply split_at_colon in E as [-> E]; [|assumption..].
  apply split_at_colon in E as [Ec E]; [|assumption..].
  apply split_at_colon in E as [Ep E]; [|apply pretty_Z_free..].
  apply (inj pretty) in Ep. auto.
Qed.

Lemma cacheKey_injective_witness :
  JS.orZ (position (mkContext (Some "git"%string) None None)) 0
  = JS.orZ (position (mkContext (Some "git"%string) (Some 0) (Some ""%string))) 0.
Proof.
  apply (cacheKey_injective "a" "a" (mkContext (Some "git"%string) None None)
           (mkContext (Some "git"%string) (Some 0) (Some ""%string)));
    reflexivity.
Defined.

(** The age shown beside a history suggestion: minutes below an hour,
    hours below a day, days below a week, each a whole number within its
    range, and the locale's date from one week on. *)
Theorem formatTimestamp_units (toLocaleDateString : Z -> string) (now timestamp : Z) :
  (0 <= now - timestamp < 604800000 ->
   exists n u,
     Display.formatTimestamp toLocaleDateString now timestamp = pretty n +:+ u
     /\ ((u = "m ago"%string /\ 0 <= n < 60 /\ 60000 * n <= now - timestamp < 60000 * (n + 1))
         \/ (u = "h ago"%string /\ 1 <= n < 24
             /\ 3600000 * n <= now - timestamp < 3600000 * (n + 1))
         \/ (u = "d ago"%string /\ 1 <= n < 7
             /\ 86400000 * n <= now - timestamp < 86400000 * (n + 1))))
  /\ (604800000 <= now - timestamp ->
      Display.formatTimestamp toLocaleDateString now timestamp
      = toLocaleDateString timestamp).
Proof.
  unfold Display.formatTimestamp. cbv zeta. set (diff := now - timestamp).
  assert (Hdiv : forall u, 0 < u -> u * (diff / u) <= diff < u * (diff / u + 1)).
  { intros u Hu. pose proof (Z.mul_div_le diff u Hu).
    pose proof (Z.mul_succ_div_gt diff u Hu). lia. }
  split.
  - intros [H0 H7].
    destruct (diff <? 3600000) eqn:E1.
    + apply Z.ltb_lt in E1. exists (diff / 60000), "m ago"%string.
      split; [reflexivity|]. left. pose proof (Hdiv 60000 ltac:(lia)).
        split; [reflexivity | lia].
    + apply Z.ltb_ge in E1. destruct (diff <? 86400000) eqn:E2.
      * apply Z.ltb_lt in E2. exists (diff / 3600000), "h ago"%string.
        split; [reflexivity|]. right. left. pose proof (Hdiv 3600000 ltac:(lia)).
        split; [reflexivity | lia].
      * apply Z.ltb_ge in E2.
        assert (E3 : (diff <? 604800000) = true) by (apply Z.ltb_lt; lia). rewrite E3.
        exists (diff / 86400000), "d ago"%string.
        split; [reflexivity|]. right. right. pose proof (Hdiv 86400000 ltac:(lia)).
        split; [reflexivity | lia].
  - intros H.
    assert (E1 : (diff <? 3600000) = false) by (apply Z.ltb_ge; lia).
    assert (E2 : (diff <? 86400000) = false) by (apply Z.ltb_ge; lia).
    assert (E3 : (diff <? 604800000) = false) by (apply Z.ltb_ge; lia).
    now rewrite E1, E2, E3.
Qed.

End CacheKeyMore.

(** ** The tokenizer: words without separators, and tokenizing again *)

Section TokenizerMore.

Import Tokenizer.

Lemma step_no_separator (st : state) (c : ascii) :
  Ascii.eqb c space = false -> Ascii.eqb c tab = false ->
  words (step st c) = words st /\ current (step st c) = push (current st) c.
Proof.
  intros Hs Ht. unfold step. rewrite Hs, Ht.
  destruct (escaped st); [now split|].
  destruct (Ascii.eqb c backslash); [now split|].
  destruct (inQuote st); [now split|].
  destruct (Ascii.eqb c dquote || Ascii.eqb c squote); now split.
Qed.

Lemma scan_no_separator (st : state) (s : string) :
  Spec.freeOf space s = true -> Spec.freeOf tab s = true ->
  words (scan st s) = words st /\ current (scan st s) = current st +:+ s.
Proof.
  revert st; induction s as [|c s IH]; intros st Hs Ht; simpl.
  - split; [reflexivity | now rewrite append_empty_r].
  - simpl in Hs, Ht.
    apply andb_true_iff in Hs as [Hs1 Hs2], Ht as [Ht1 Ht2].
    apply negb_true_iff in Hs1, Ht1.
    destruct (step_no_separator st c Hs1 Ht1) as [Hw Hc].
    destruct (IH (step st c) Hs2 Ht2) as [Hw' Hc'].
    split; [congruence|].
    rewrite Hc', Hc. unfold push. rewrite append_assoc. reflexivity.
Qed.

(** A non-empty line without a space or a tab is one word, returned as it
    is: quotes and backslashes stay in the word. *)
Theorem tokenize_no_separator (line : string) :
  Spec.freeOf space line = true -> Spec.freeOf tab line = true ->
  line <> ""%string ->
  tokenize line = [line].
Proof.
  intros Hs Ht Hne. unfold tokenize, finish.
  destruct (scan_no_separator init line Hs Ht) as [Hw Hc].
  rewrite Hw, Hc. simpl words. simpl current. rewrite append_nil.
  assert (E : JS.nonEmpty line = true).
  { unfold JS.nonEmpty. apply negb_true_iff. now apply String.eqb_neq. }
  now rewrite E.
Qed.

Lemma tokenize_no_separator_witness :
  tokenize (String "a" (String backslash (String dquote "b")))
  = [String "a" (String backslash (String dquote "b"))].
Proof.
  apply tokenize_no_separator; [reflexivity | reflexivity | discriminate].
Defined.

Lemma step_frame (ws : list string) (st : state) (c : ascii) :
  step (mkState (ws ++ words st) (current st) (inQuote st) (escaped st)) c
  = mkState (ws ++ words (step st c)) (current (step st c))
            (inQuote (step st c)) (escaped (step st c)).
Proof.
  unfold step. cbn [words current inQuote escaped].
  destruct (escaped st) eqn:Ee; [reflexivity|].
  destruct (Ascii.eqb c backslash); [reflexivity|].
  destruct (inQuote st) as [q|] eqn:Eq; [reflexivity|].
  destruct (Ascii.eqb c dquote || Ascii.eqb c squote); [reflexivity|].
  destruct (Ascii.eqb c space || Ascii.eqb c tab); [|reflexivity].
  destruct (JS.nonEmpty (current st)); cbn [words current inQuote escaped].
  - now rewrite <- List.app_assoc.
  - now rewrite Eq, Ee.
Qed.

Lemma scan_frame (ws : list string) (st : state) (s : string) :
  scan (mkState (ws ++ words st) (current st) (inQuote st) (escaped st)) s
  = mkState (ws ++ words (scan st s)) (current (scan st s))
            (inQuote (scan st s)) (escaped (scan st s)).
Proof.
  revert st; induction s as [|c s IH]; intros st; simpl; [reflexivity|].
  rewrite step_frame. apply IH.
Qed.

(** Scanning a word after a separator, with [acc] already emitted. *)
Lemma scan_token (acc : list string) (q : option ascii) (e : bool) (w : string) :
  Facts.token q e w ->
  scan (mkState acc "" None false) w = mkState acc w q e.
Proof.
  intros Hw.
  pose proof (scan_frame acc init w) as H. cbn [init words current inQuote escaped] in H.
  rewrite app_nil_r in H. rewrite H, Hw. cbn [words current inQuote escaped].
  now rewrite app_nil_r.
Qed.

(** What one step does to a state that has emitted nothing. *)
Lemma step_cases (cur : string) (q : option ascii) (e : bool) (c : ascii) :
  let s1 := step (mkState [] cur q e) c in
  (words s1 = [] /\ current s1 = push cur c)
  \/ (q = None /\ e = false /\ JS.nonEmpty cur = true
      /\ s1 = mkState [cur] "" None false)
  \/ (q = None /\ e = false /\ cur = ""%string /\ s1 = mkState [] "" None false).
Proof.
  unfold step. cbn [words current inQuote escaped].
  destruct e; [now left|].
  destruct (Ascii.eqb c backslash); [now left|].
  destruct q as [q|]; [now left|].
  destruct (Ascii.eqb c dquote || Ascii.eqb c squote); [now left|].
  destruct (Ascii.eqb c space || Ascii.eqb c tab); [|now left].
  destruct (JS.nonEmpty cur) eqn:En.
  - right. left. auto.
  - right. right. unfold JS.nonEmpty in En.
    apply negb_false_iff, String.eqb_eq in En. subst cur. auto.
Qed.

(** The invariant of the scan: every emitted word is a complete word of
    its own, and the current word is the scan of itself. *)
Lemma token_step (st : state) (c : ascii) :
  Forall (fun w => Facts.token None false w /\ JS.nonEmpty w = true) (words st) ->
  Facts.token (inQuote st) (escaped st) (current st) ->
  Forall (fun w => Facts.token None false w /\ JS.nonEmpty w = true) (words (step st c))
  /\ Facts.token (inQuote (step st c)) (escaped (step st c)) (current (step st c)).
Proof.
  intros Hws Hcur. destruct st as [ws cur q e]. cbn [words current inQuote escaped] in *.
  pose proof (step_frame ws (mkState [] cur q e) c) as Hf.
  cbn [words current inQuote escaped] in Hf. rewrite app_nil_r in Hf. rewrite Hf.
  cbn [words current inQuote escaped].
  assert (Hs : scan init (push cur c) = step (mkState [] cur q e) c).
  { unfold push. rewrite scan_snoc. unfold Facts.token in Hcur. now rewrite Hcur. }
  destruct (step_cases cur q e c) as [[H1 H2]|[(-> & -> & Hn & H)|(-> & -> & -> & H)]].
  - rewrite H1, app_nil_r. split; [exact Hws|].
    unfold Facts.token. rewrite H2, Hs.
    destruct (step (mkState [] cur q e) c) as [w1 c1 q1 e1].
    cbn [words current inQuote escaped] in *. now subst.
  - rewrite H. cbn [words current inQuote escaped]. split; [|reflexivity].
    apply Forall_app. split; [exact Hws|]. constructor; [now split | constructor].
  - rewrite H. cbn [words current inQuote escaped]. rewrite app_nil_r.
    split; [exact Hws | reflexivity].
Qed.

Lemma token_scan (st : state) (s : string) :
  Forall (fun w => Facts.token None false w /\ JS.nonEmpty w = true) (words st) ->
  Facts.token (inQuote st) (escaped st) (current st) ->
  Forall (fun w => Facts.token None false w /\ JS.nonEmpty w = true) (words (scan st s))
  /\ Facts.token (inQuote (scan st s)) (escaped (scan st s)) (current (scan st s)).
Proof.
  revert st; induction s as [|c s IH]; intros st Hws Hcur; simpl; [now split|].
  destruct (token_step st c Hws Hcur) as [H1 H2]. now apply IH.
Qed.

Lemma join_cons (sep w x : string) (rest : list string) :
  Facts.join sep (w :: x :: rest) = w +:+ sep +:+ Facts.join sep (x :: rest).
Proof. reflexivity. Qed.

Lemma join_snoc (sep l : string) (ws : list string) :
  ws <> [] -> Facts.join sep (ws ++ [l]) = Facts.join sep ws +:+ sep +:+ l.
Proof.
  induction ws as [|w ws IH]; intros Hne; [contradiction|].
  destruct ws as [|x ws]; [reflexivity|].
  change ((w :: x :: ws) ++ [l]) with (w :: x :: (ws ++ [l])).
  rewrite !join_cons.
  change (x :: ws ++ [l]) with ((x :: ws) ++ [l]).
  rewrite IH by discriminate. now rewrite !append_assoc.
Qed.

(** Scanning the words [ws] and a last word [l], joined by single spaces. *)
Lemma scan_join (acc ws : list string) (l : string) (q : option ascii) (e : bool) :
  Forall (fun w => Facts.token None false w /\ JS.nonEmpty w = true) ws ->
  Facts.token q e l ->
  scan (mkState acc "" None false) (Facts.join " " (ws ++ [l]))
  = mkState (acc ++ ws) l q e.
Proof.
  intros Hws Hl. revert acc. induction Hws as [|w ws [Hw Hn] _ IH]; intros acc.
  - simpl. rewrite app_nil_r. now apply scan_token.
  - assert (E : Facts.join " " ((w :: ws) ++ [l])
                = w +:+ String space (Facts.join " " (ws ++ [l]))).
    { destruct ws; reflexivity. }
    rewrite E, scan_app, (scan_token acc None false w Hw).
    simpl scan at 1. unfold step at 1. cbn [words current inQuote escaped].
    change (Ascii.eqb space backslash) with false.
    change (Ascii.eqb space dquote || Ascii.eqb space squote) with false.
    change (Ascii.eqb space space || Ascii.eqb space tab) with true.
    cbv iota. rewrite Hn, IH.
    now rewrite <- List.app_assoc.
Qed.

Lemma endsWithChar_snoc (s : string) (c : ascii) :
  JS.endsWithChar (s +:+ String c "") c = true.
Proof. unfold JS.endsWithChar. rewrite lastChar_snoc. apply Ascii.eqb_refl. Qed.

Lemma tokenize_join (ws : list string) (l : string) (q : option ascii) (e : bool) :
  Forall (fun w => Facts.token None false w /\ JS.nonEmpty w = true) ws ->
  Facts.token q e l ->
  JS.nonEmpty l = true \/ ws <> [] ->
  tokenize (Facts.join " " (ws ++ [l])) = ws ++ [l].
Proof.
  intros Hws Hl Hne. unfold tokenize. change init with (mkState [] "" None false).
  rewrite (scan_join [] ws l q e Hws Hl). unfold finish.
  cbn [words current app].
  destruct (JS.nonEmpty l) eqn:En; [reflexivity|].
  destruct Hne as [Hne|Hne]; [discriminate|].
  unfold JS.nonEmpty in En. apply negb_false_iff, String.eqb_eq in En. subst l.
  rewrite join_snoc by exact Hne.
  change (" " +:+ "")%string with (String space "").
  now rewrite endsWithChar_snoc.
Qed.

(** Joining the words of a line with single spaces and tokenizing again
    gives the same words, unless the line is blank and ends in a space
    (its only word is then the empty one, which the join loses). *)
Theorem tokenize_join_tokenize (line : string) :
  tokenize line <> [""%string] ->
  tokenize (Facts.join " " (tokenize line)) = tokenize line.
Proof.
  destruct (token_scan init line) as [Hws Hcur]; [constructor | reflexivity |].
  unfold tokenize at 1 3 4, finish.
  set (st := scan init line) in *.
  destruct (JS.nonEmpty (current st) || JS.endsWithChar line space) eqn:Ef.
  - intros Hne. apply (tokenize_join _ _ _ _ Hws Hcur).
    destruct (JS.nonEmpty (current st)) eqn:En; [now left|]. right.
    intros Hw. apply Hne. rewrite Hw.
    unfold JS.nonEmpty in En. apply negb_false_iff, String.eqb_eq in En.
    now rewrite En.
  - intros _. destruct (words st) as [|w ws] eqn:Ew using rev_ind; [reflexivity|].
    clear IHws.
    apply Forall_app in Hws as [Hws Hw].
    apply List.Forall_cons_iff in Hw as [[Hw Hn] _].
    apply (tokenize_join _ _ _ _ Hws Hw). now left.
Qed.

Lemma tokenize_join_tokenize_witness :
  tokenize (Facts.join " " (tokenize "git   commit -m 'a  b' "))
  = tokenize "git   commit -m 'a  b' ".
Proof.
  apply tokenize_join_tokenize. vm_compute. discriminate.
Defined.

(** The exception is real: a line of one space has the empty word as its
    only word, and the join of that is the empty line, which has none. *)
Example tokenize_join_blank :
  tokenize " " = [""%string] /\ tokenize (Facts.join " " (tokenize " ")) = [].
Proof. split; reflexivity. Qed.

End TokenizerMore.

(** ** Parsing the command line: the backend and the line editor *)

Section ParseFacts.

Import Tokenizer.

Lemma sliceTo_removelast {B} (l : list B) : JS.sliceTo (-1) l = removelast l.
Proof.
  unfold JS.sliceTo, JS.len. cbn [Z.ltb Z.compare]. rewrite removelast_firstn_len.
  f_equal. lia.
Qed.

Lemma orS_Some_empty (x : string) : JS.orS (Some x) "" = x.
Proof.
  unfold JS.orS. destruct (String.eqb_spec x ""); [now subst | reflexivity].
Qed.

Lemma tokenize_cases (s : string) :
  tokenize s = []
  \/ exists ws x, tokenize s = ws ++ [x]
                  /\ Forall (fun w => JS.nonEmpty w = true) ws.
Proof.
  pose proof (tokenize_empty_only_last s) as H.
  destruct (tokenize s) as [|x ws _] using rev_ind; [now left|].
  right. exists ws, x. rewrite removelast_snoc in H. now split.
Qed.

(** What [parseCommandLine] hands to the completion code: the words
    before the current one are never empty, the tokens are the previous
    words followed by the current word, the command is empty exactly
    when the first word is being completed, and the completion type
    'command' is given to a first word only. *)
Theorem parseCommandLine_parts (line : string) (cursorPos : option nat) :
  let r := Backend.parseCommandLine line cursorPos in
  Forall (fun w => JS.nonEmpty w = true) (Backend.previousWords r)
  /\ ((Backend.words r = [] /\ Backend.previousWords r = []
       /\ Backend.currentWord r = ""%string)
      \/ Backend.words r = Backend.previousWords r ++ [Backend.currentWord r])
  /\ (Backend.command r = ""%string <-> Backend.previousWords r = [])
  /\ (Backend.completionType r = "command"%string ->
      Backend.previousWords r = []
      /\ JS.includes (Backend.currentWord r) "/" = false).
Proof.
  intros r. unfold r, Backend.parseCommandLine.
  cbn [Backend.words Backend.previousWords Backend.currentWord Backend.command
       Backend.completionType].
  set (before := String.substring 0 _ line).
  rewrite sliceTo_removelast.
  destruct (tokenize_cases before) as [E|(ws & x & E & Hws)]; rewrite E.
  - simpl. split; [constructor|]. split; [now left|]. split; [now split|].
    intros _. now split.
  - rewrite removelast_snoc, last_snoc, orS_Some_empty.
    split; [exact Hws|]. split; [now right|]. split.
    + destruct ws as [|w ws']; [now split|].
      apply List.Forall_cons_iff in Hws as [Hw _].
      cbn [head]. rewrite orS_Some_empty. split; [|discriminate].
      intros ->. discriminate.
    + destruct ws as [|w ws'].
      * cbn. destruct (JS.includes x "/"); [discriminate | now split].
      * assert (El : (0 <? JS.len (w :: ws')) = true).
        { apply Z.ltb_lt. unfold JS.len. simpl. lia. }
        rewrite El.
        destruct (JS.startsWith x "-"); [discriminate|].
        destruct (JS.includes x "/" || JS.startsWith x "~"); discriminate.
Qed.

Lemma isSpace_blank (c : ascii) :
  negb (JS.isSpace c) || Ascii.eqb c space || Ascii.eqb c tab = true ->
  JS.isSpace c = Ascii.eqb c space || Ascii.eqb c tab.
Proof.
  destruct (Ascii.eqb_spec c space) as [->|Hs]; [reflexivity|].
  destruct (Ascii.eqb_spec c tab) as [->|Ht]; [reflexivity|].
  destruct (JS.isSpace c); [discriminate | reflexivity].
Qed.

Lemma readline_step (st : state) (c : ascii) :
  escaped st = false -> Ascii.eqb c backslash = false ->
  negb (JS.isSpace c) || Ascii.eqb c space || Ascii.eqb c tab = true ->
  Readline.step st c = step st c /\ escaped (step st c) = false.
Proof.
  intros He Hb Hw. unfold Readline.step, step.
  rewrite He, Hb, (isSpace_blank c Hw).
  destruct (inQuote st); [now split|].
  destruct (Ascii.eqb c dquote || Ascii.eqb c squote); [now split|].
  destruct (Ascii.eqb c space || Ascii.eqb c tab); [|now split].
  destruct (JS.nonEmpty (current st)); now split.
Qed.

Lemma readline_scan (st : state) (s : string) :
  escaped st = false -> Spec.freeOf backslash s = true -> Facts.blanksOnly s = true ->
  Readline.scan st s = scan st s /\ escaped (scan st s) = false.
Proof.
  revert st; induction s as [|c s IH]; intros st He Hb Hw; simpl; [now split|].
  simpl in Hb, Hw. apply andb_true_iff in Hb as [Hb1 Hb2], Hw as [Hw1 Hw2].
  apply negb_true_iff in Hb1.
  destruct (readline_step st c He Hb1 Hw1) as [E He'].
  rewrite E. now apply IH.
Qed.

Lemma freeOf_app (c : ascii) (a b : string) :
  Spec.freeOf c (a +:+ b) = Spec.freeOf c a && Spec.freeOf c b.
Proof.
  induction a as [|d a IH]; [reflexivity|].
  rewrite append_cons. simpl. now rewrite IH, andb_assoc.
Qed.

Lemma blanksOnly_app (a b : string) :
  Facts.blanksOnly (a +:+ b) = Facts.blanksOnly a && Facts.blanksOnly b.
Proof.
  induction a as [|d a IH]; [reflexivity|].
  rewrite append_cons. simpl. now rewrite IH, andb_assoc.
Qed.

Lemma lastChar_Some_snoc (s : string) (c : ascii) :
  JS.lastChar s = Some c -> exists s', s = s' +:+ String c "".
Proof.
  induction s as [|d s IH]; [discriminate|].
  destruct s as [|d' s'].
  - simpl. intros [= ->]. now exists ""%string.
  - intros H. change (JS.lastChar (String d' s') = Some c) in H.
    destruct (IH H) as [t Et]. exists (String d t).
    now rewrite append_cons, <- Et.
Qed.

Lemma inQuote_before_space (st : state) :
  Spec.reachable st -> escaped st = false -> inQuote (step st space) = None ->
  inQuote st = None.
Proof.
  intros [Hq _] He. unfold step. rewrite He.
  change (Ascii.eqb space backslash) with false. cbv iota.
  destruct Hq as [Hq|[Hq|Hq]]; rewrite Hq; [reflexivity | | ]; simpl; discriminate.
Qed.

(** On the text before the cursor that holds no backslash and no other
    white space than spaces and tabs, that does not end inside a quote
    and does not end in a tab, the line editor and the backend parse the
    same current word, the same words before it and the same command. *)
Theorem parseCommandLine_agree (line : string) (cursor : nat) :
  let before := String.substring 0 cursor line in
  Spec.freeOf backslash before = true ->
  Facts.blanksOnly before = true ->
  inQuote (scan init before) = None ->
  JS.endsWithChar before tab = false ->
  let b := Backend.parseCommandLine line (Some cursor) in
  let r := Readline.parseCommandLine line cursor in
  Readline.parsedWords r = Backend.previousWords b
  /\ Readline.currentWord r = Backend.currentWord b
  /\ Readline.command r = Backend.command b
  /\ Readline.position r = JS.len (Backend.previousWords b).
Proof.
  intros before Hb Hw Hq Ht b r.
  unfold b, r, Backend.parseCommandLine, Readline.parseCommandLine.
  cbn [Backend.words Backend.previousWords Backend.currentWord Backend.command
       Readline.parsedWords Readline.currentWord Readline.command Readline.position].
  fold before. rewrite sliceTo_removelast, Ht, orb_false_r.
  destruct (readline_scan init before eq_refl Hb Hw) as [Es He].
  unfold Readline.tokenize, tokenize, finish. rewrite Es.
  set (st := scan init before) in *.
  destruct (JS.endsWithChar before space) eqn:Ee.
  - assert (Hcur : current st = ""%string).
    { unfold JS.endsWithChar in Ee.
      destruct (JS.lastChar before) as [c|] eqn:El; [|discriminate].
      apply Ascii.eqb_eq in Ee. subst c.
      destruct (lastChar_Some_snoc _ _ El) as [s' Es'].
      rewrite Es', freeOf_app in Hb. rewrite Es', blanksOnly_app in Hw.
      apply andb_true_iff in Hb as [Hb _], Hw as [Hw _].
      destruct (readline_scan init s' eq_refl Hb Hw) as [_ He'].
      assert (Hr : Spec.reachable (scan init s')) by apply reachable_scan, reachable_init.
      unfold st in Hq |- *. rewrite Es', scan_snoc in Hq |- *.
      apply (step_separator _ space Hr); [|exact He' | now left].
      now apply inQuote_before_space. }
    rewrite Hcur, orb_true_r. cbn [JS.nonEmpty String.eqb negb].
    rewrite removelast_snoc, last_snoc. now rewrite orS_Some_empty.
  - rewrite orb_false_r. now destruct (JS.nonEmpty (current st)).
Qed.

Lemma parseCommandLine_agree_witness :
  Readline.currentWord (Readline.parseCommandLine "git commit -m 'a b' fi" 22%nat)
  = Backend.currentWord (Backend.parseCommandLine "git commit -m 'a b' fi" (Some 22%nat)).
Proof.
  apply (parseCommandLine_agree "git commit -m 'a b' fi" 22%nat); reflexivity.
Defined.

(** Past a tab the two differ: the line editor starts a new word, the
    backend is still completing the one before the tab. *)
Example parseCommandLine_after_tab :
  Readline.currentWord (Readline.parseCommandLine (String "l" (String "s" (String tab ""))) 3%nat)
  = ""%string
  /\ Backend.currentWord
       (Backend.parseCommandLine (String "l" (String "s" (String tab ""))) (Some 3%nat))
     = "ls"%string.
Proof. split; reflexivity. Qed.

End ParseFacts.

(** ** The Zsh extended format: what the owned provider exports, the Zsh provider reads *)

Section ZshFormat.

Import History Providers.

Lemma pretty_N_char_digit (x : N) :
  (x < 10)%N ->
  isDigit (pretty_N_char x) = true
  /\ Z.of_nat (nat_of_ascii (pretty_N_char x)) - 48 = Z.of_N x.
Proof.
  intros Hx.
  assert (H : (x = 0 \/ x = 1 \/ x = 2 \/ x = 3 \/ x = 4 \/ x = 5 \/ x = 6 \/ x = 7
               \/ x = 8 \/ x = 9)%N) by lia.
  repeat (destruct H as [->|H]; [split; reflexivity|]). subst x. split; reflexivity.
Qed.

Lemma pretty_N_go_allDigits (x : N) (s : string) :
  Facts.allDigits s = true -> Facts.allDigits (pretty_N_go x s) = true.
Proof.
  revert s. induction (N.lt_wf_0 x) as [x _ IH]. intros s Hs.
  destruct (N.eq_dec x 0%N) as [->|Hx]; [now rewrite pretty_N_go_0|].
  rewrite pretty_N_go_step by lia.
  apply IH; [apply N.div_lt; lia|].
  simpl. rewrite Hs, andb_true_r.
  apply pretty_N_char_digit, N.mod_lt. discriminate.
Qed.

Lemma pretty_N_go_nonEmpty (x : N) (s : string) :
  (0 < x)%N \/ s <> ""%string -> pretty_N_go x s <> ""%string.
Proof.
  revert s. induction (N.lt_wf_0 x) as [x _ IH]. intros s Hs.
  destruct (N.eq_dec x 0%N) as [->|Hx].
  - rewrite pretty_N_go_0. destruct Hs as [Hs|Hs]; [lia | exact Hs].
  - rewrite pretty_N_go_step by lia.
    apply IH; [apply N.div_lt; lia|]. right. discriminate.
Qed.

Lemma parseDigits_pretty_N_go (x : N) (s : string) :
  parseDigits 0 (pretty_N_go x s) = parseDigits (Z.of_N x) s.
Proof.
  revert s. induction (N.lt_wf_0 x) as [x _ IH]. intros s.
  destruct (N.eq_dec x 0%N) as [->|Hx]; [now rewrite pretty_N_go_0|].
  rewrite pretty_N_go_step by lia.
  rewrite IH by (apply N.div_lt; lia).
  simpl. f_equal.
  destruct (pretty_N_char_digit (x mod 10)) as [_ Hv]; [apply N.mod_lt; discriminate|].
  rewrite Hv, N2Z.inj_div, N2Z.inj_mod. simpl Z.of_N.
  pose proof (Z.div_mod (Z.of_N x) 10). lia.
Qed.

(** The decimal form of a natural number is a non-empty string of digits
    that [parseInt] reads back. *)
Lemma pretty_parseInt (z : Z) :
  0 <= z ->
  Facts.allDigits (pretty z) = true /\ pretty z <> ""%string /\ parseInt (pretty z) = z.
Proof.
  intros Hz. destruct z as [|p|p]; [repeat split; discriminate | | lia].
  change (pretty (Z.pos p)) with (pretty_N_go (N.pos p) "").
  split; [now apply pretty_N_go_allDigits|]. split.
  - apply pretty_N_go_nonEmpty. left. lia.
  - unfold parseInt. now rewrite parseDigits_pretty_N_go.
Qed.

Lemma spanDigits_app (d : string) (c : ascii) (r : string) :
  Facts.allDigits d = true -> isDigit c = false ->
  spanDigits (d +:+ String c r) = (d, String c r).
Proof.
  intros Hd Hc. induction d as [|x d IH].
  - rewrite append_nil. simpl. now rewrite Hc.
  - rewrite append_cons. simpl in Hd |- *.
    apply andb_true_iff in Hd as [Hx Hd]. now rewrite Hx, IH.
Qed.

Lemma matchExtended_format (ts dur : Z) (cmd : string) :
  0 <= ts -> 0 <= dur -> noLineTerminator cmd = true ->
  matchExtended (": " +:+ pretty ts +:+ ":" +:+ pretty dur +:+ ";" +:+ cmd)
  = Some (pretty ts, pretty dur, cmd).
Proof.
  intros Hts Hdur Hcmd.
  destruct (pretty_parseInt ts Hts) as (Ht1 & Ht2 & _).
  destruct (pretty_parseInt dur Hdur) as (Hd1 & Hd2 & _).
  change (": " +:+ pretty ts +:+ ":" +:+ pretty dur +:+ ";" +:+ cmd)
    with (String ":" (String " "
            (pretty ts +:+ String ":" (pretty dur +:+ String ";" cmd)))).
  unfold matchExtended.
  rewrite (spanDigits_app (pretty ts) ":" _ Ht1 eq_refl).
  destruct (pretty ts) as [|c1 t1] eqn:E1; [contradiction|].
  rewrite (spanDigits_app (pretty dur) ";" _ Hd1 eq_refl).
  destruct (pretty dur) as [|c2 t2] eqn:E2; [contradiction|].
  now rewrite Hcmd.
Qed.

(** A line that the owned provider exports in the Zsh format for an entry
    with a positive timestamp, no negative duration and a command on one
    line is read back by the Zsh provider as the same command, with the
    timestamp and the duration rounded down to whole seconds (a missing
    duration becomes 0). *)
Theorem zshLine_read_back (h : HistoryEntry) (ts : Z) :
  timestamp h = Some ts -> 0 < ts ->
  (forall d, duration h = Some d -> 0 <= d) ->
  noLineTerminator (command h) = true ->
  parseZshHistoryLine (zshLine h)
  = mkEntry (command h) (Some (ts / 1000 * 1000)) None None
            (Some (JS.orZ (duration h) 0 / 1000 * 1000))
            [("source"%string, JS.VStr "zsh")].
Proof.
  intros Hts Hpos Hdur Hcmd. unfold zshLine. rewrite Hts.
  assert (Et : JS.truthyZ (Some ts) = true).
  { simpl. apply negb_true_iff, Z.eqb_neq. lia. }
  assert (Eo : JS.orZ (Some ts) 0 = ts).
  { simpl. destruct (ts =? 0) eqn:E; [apply Z.eqb_eq in E; lia | reflexivity]. }
  rewrite Et, Eo. cbv zeta.
  set (dur := if JS.truthyZ (duration h) then JS.orZ (duration h) 0 / 1000 else 0).
  assert (Hd : 0 <= dur /\ dur = JS.orZ (duration h) 0 / 1000).
  { unfold dur. destruct (duration h) as [d|] eqn:Ed; simpl; [|split; [lia | reflexivity]].
    specialize (Hdur d eq_refl).
    destruct (d =? 0) eqn:E0; simpl; [split; [lia | reflexivity]|].
    split; [apply Z.div_pos; lia | reflexivity]. }
  destruct Hd as [Hd0 Hd1].
  assert (Hts0 : 0 <= ts / 1000) by (apply Z.div_pos; lia).
  unfold parseZshHistoryLine.
  assert (Es : JS.startsWith (": " +:+ pretty (ts / 1000) +:+ ":" +:+ pretty dur
                                +:+ ";" +:+ command h) ": " = true).
  { rewrite !append_cons. cbn -[String.append pretty]. apply startsWith_empty. }
  rewrite Es, (matchExtended_format _ _ _ Hts0 Hd0 Hcmd).
  destruct (pretty_parseInt _ Hts0) as (_ & _ & ->).
  destruct (pretty_parseInt _ Hd0) as (_ & _ & ->).
  now rewrite Hd1.
Qed.

Lemma zshLine_read_back_witness :
  parseZshHistoryLine (zshLine (mkEntry "git status" (Some 1635360000123) None None
                                        (Some 2500) []))
  = mkEntry "git status" (Some 1635360000000) None None (Some 2000)
            [("source"%string, JS.VStr "zsh")].
Proof.
  apply (zshLine_read_back
           (mkEntry "git status" (Some 1635360000123) None None (Some 2500) [])
           1635360000123);
    [reflexivity | lia | intros d [= <-]; lia | reflexivity].
Defined.

(** An entry without a timestamp is exported as its bare command, which
    is read back without one. *)
Example zshLine_no_timestamp :
  parseZshHistoryLine (zshLine (Spec.entry "ls -l" None))
  = mkEntry "ls -l" None None None None [("source"%string, JS.VStr "zsh")].
Proof. reflexivity. Qed.

End ZshFormat.
